(** * Action profile manager (src/proto/frontend/src/action_prof_mgr.h)

    A shallow embedding of the action-profile manager of the P4Runtime
    frontend: the id/handle bimap, the membership diff engine, the
    weighted-member emulation of the manual access path, the one-shot
    access path and the style selector.  Only the class declarations are
    available; the bodies (action_prof_mgr.cpp, bimap.h) are modelled from
    the specification of the component, as each definition's doc comment
    says. *)

From Stdlib Require Import ZArith Lia List Sorting.Sorted Permutation.
From stdpp Require Import base gmap list strings.
Import ListNotations.
Open Scope Z_scope.

(** ** Basic types *)

(** [ActionProfBiMap::Id] is [uint32_t]; [pi_indirect_handle_t] is an
    opaque 64-bit handle.  Neither is ever computed on, so both are
    modelled as [N]. *)
Abbreviation Id := N.
Abbreviation pi_indirect_handle_t := N.

(** [google::rpc::Code], the codes the component uses. *)
Inductive Code :=
| OK | NOT_FOUND | INVALID_ARGUMENT | ALREADY_EXISTS
| FAILED_PRECONDITION | INTERNAL.

#[global] Instance Code_eq_dec : EqDecision Code.
Proof. solve_decision. Defined.

(** [Status]: a code (the message is not modelled). *)
Definition Status := Code.

Definition IS_ERROR (s : Status) : bool :=
  match s with OK => false | _ => true end.

(** What a call reports to its caller through its return value: a
    [Status]-returning function reports its status, a [void] function
    reports nothing. *)
Class ReportsStatus (R : Type) := reported : R -> option Code.
#[global] Instance reports_status : ReportsStatus Status := fun s => Some s.
#[global] Instance reports_void : ReportsStatus unit := fun _ => None.

(** ** ActionProfBiMap (lines 52-70) *)

Module ActionProfBiMap.

(** [BiMap<Id, pi_indirect_handle_t>]: two maps kept in lockstep. *)
Record t := mk {
  map_1_2 : gmap N N;   (* id -> handle *)
  map_2_1 : gmap N N    (* handle -> id *)
}.

Definition empty_map : t := mk ∅ ∅.

(** Modelled from the spec: the body of [ActionProfBiMap::add] (and of
    [BiMap]) is not in src/.  Spec 4.1: [add(id, handle)] fails if
    either side is already mapped, with no side effect.  The declared
    return type is [void]: the call returns nothing. *)
Definition add (id : Id) (h : pi_indirect_handle_t) (m : t) : unit * t :=
  match map_1_2 m !! id, map_2_1 m !! h with
  | None, None => (tt, mk (<[id := h]> (map_1_2 m)) (<[h := id]> (map_2_1 m)))
  | _, _ => (tt, m)
  end.

(** [retrieve_handle]: "returns nullptr if no matching id". *)
Definition retrieve_handle (id : Id) (m : t) : option pi_indirect_handle_t :=
  map_1_2 m !! id.

(** [retrieve_id]: "returns nullptr if no matching handle". *)
Definition retrieve_id (h : pi_indirect_handle_t) (m : t) : option Id :=
  map_2_1 m !! h.

(** Modelled from the spec: the body of [ActionProfBiMap::remove] is not
    in src/.  Spec 4.1: [remove(id)] fails if the id is absent, with no
    side effect; otherwise both directions of the entry are erased.  The
    declared return type is [void]. *)
Definition remove (id : Id) (m : t) : unit * t :=
  match map_1_2 m !! id with
  | None => (tt, m)
  | Some h => (tt, mk (delete id (map_1_2 m)) (delete h (map_2_1 m)))
  end.

Definition empty (m : t) : bool :=
  bool_decide (map_1_2 m = ∅).

(** The mutating operations, to be run in sequence. *)
Inductive op := Add (id : Id) (h : pi_indirect_handle_t) | Remove (id : Id).

Definition run_op (m : t) (o : op) : t :=
  match o with
  | Add id h => snd (add id h m)
  | Remove id => snd (remove id m)
  end.

Definition run (m : t) (os : list op) : t := fold_left run_op os m.

(** The bijection: the two maps are inverse to each other. *)
Definition bijective (m : t) : Prop :=
  forall (id h : N), map_1_2 m !! id = Some h <-> map_2_1 m !! h = Some id.

End ActionProfBiMap.

(** ** WatchPort and group membership (lines 126-203) *)

Inductive WatchKindCase := kNotSet | kWatch | kWatchPort.

#[global] Instance WatchKindCase_eq_dec : EqDecision WatchKindCase.
Proof. solve_decision. Defined.

Record WatchPort := mkWatchPort {
  watch_kind_case : WatchKindCase;
  watch : Z;
  watch_port : string;
  pi_port : Z
}.

#[global] Instance WatchPort_eq_dec : EqDecision WatchPort.
Proof. solve_decision. Defined.

(** [WatchPort::invalid_watch()]: the "absent" watch. *)
Definition invalid_watch : WatchPort := mkWatchPort kNotSet 0 "" (-1).

Record MembershipInfo := mkMembershipInfo {
  weight : Z;
  mwatch : WatchPort
}.

#[global] Instance MembershipInfo_eq_dec : EqDecision MembershipInfo.
Proof. solve_decision. Defined.

(** [std::map<Id, MembershipInfo>]: an association list in ascending,
    duplicate-free key order. *)
Abbreviation Membership := (list (Id * MembershipInfo)).

Definition ordered (mem : Membership) : Prop :=
  Sorted (fun a b => (a.1 < b.1)%N) mem.

(** The map a membership list denotes. *)
Definition to_map (mem : Membership) : gmap Id MembershipInfo :=
  list_to_map mem.

Record MembershipUpdate := mkUpdate {
  uid : Id;
  current_weight : Z;
  new_weight : Z;
  current_watch : WatchPort;
  new_watch : WatchPort
}.

Definition upd_insert (i : Id) (b : MembershipInfo) : MembershipUpdate :=
  mkUpdate i 0 (weight b) invalid_watch (mwatch b).
Definition upd_delete (i : Id) (a : MembershipInfo) : MembershipUpdate :=
  mkUpdate i (weight a) 0 (mwatch a) invalid_watch.
Definition upd_both (i : Id) (a b : MembershipInfo) : MembershipUpdate :=
  mkUpdate i (weight a) (weight b) (mwatch a) (mwatch b).

(** Modelled from the spec: the body of
    [ActionProfGroupMembership::compute_membership_update] is not in src/.
    Spec 4.3: an ordered merge walk of the current and the desired
    membership; an id only in [desired] gives an insertion (current weight
    0, the absent sentinel, and [invalid_watch]), an id only in [current]
    a deletion (new weight 0), an id in both an update carrying both
    values.  Following the declaration's comment (lines 165-167: "If the
    member is unchanged (same weight), current_weight == new_weight"), an
    id in both maps is emitted even when unchanged. *)
Fixpoint compute_membership_update (cur des : Membership)
  : list MembershipUpdate :=
  match cur with
  | [] => map (fun p => upd_insert p.1 p.2) des
  | (i, a) :: cur' =>
    (fix walk (des : Membership) : list MembershipUpdate :=
       match des with
       | [] => map (fun p => upd_delete p.1 p.2) cur
       | (j, b) :: des' =>
         if decide (i = j) then upd_both i a b :: compute_membership_update cur' des'
         else if decide (i < j)%N then upd_delete i a :: compute_membership_update cur' des
         else upd_insert j b :: walk des'
       end) des
  end.

(** Replaying an update list on a membership, as the caller applies it:
    an update whose current weight is the absent sentinel is an
    insertion, one whose new weight is 0 a deletion, any other a change. *)
Definition apply_update (m : gmap Id MembershipInfo) (u : MembershipUpdate)
  : gmap Id MembershipInfo :=
  if decide (current_weight u = 0) then
    <[uid u := mkMembershipInfo (new_weight u) (new_watch u)]> m
  else if decide (new_weight u = 0) then delete (uid u) m
  else <[uid u := mkMembershipInfo (new_weight u) (new_watch u)]> m.

Definition replay (m : gmap Id MembershipInfo) (ups : list MembershipUpdate)
  : gmap Id MembershipInfo :=
  fold_left apply_update ups m.

(** Helpers for stating the diff engine's contract. *)

(** Lookup in an association list (first occurrence). *)
Fixpoint alookup (k : Id) (mem : Membership) : option MembershipInfo :=
  match mem with
  | [] => None
  | (j, y) :: r => if decide (k = j) then Some y else alookup k r
  end.

(** The update the engine emits for id [k], given its current and
    desired entries. *)
Definition upd_for (k : Id) (oa ob : option MembershipInfo) : list MembershipUpdate :=
  match oa, ob with
  | Some a, Some b => [upd_both k a b]
  | Some a, None => [upd_delete k a]
  | None, Some b => [upd_insert k b]
  | None, None => []
  end.

Definition for_id (k : Id) (ups : list MembershipUpdate) : list MembershipUpdate :=
  filter (fun u => uid u = k) ups.

(** Replay, one id at a time. *)
Definition apply_update_at (o : option MembershipInfo) (u : MembershipUpdate)
  : option MembershipInfo :=
  if decide (current_weight u = 0) then Some (mkMembershipInfo (new_weight u) (new_watch u))
  else if decide (new_weight u = 0) then None
  else Some (mkMembershipInfo (new_weight u) (new_watch u)).


(** Weights of a well-formed membership are at least 1 (they are
    validated as such before reaching the diff engine). *)
Definition weights_positive (mem : Membership) : Prop :=
  Forall (fun p => 1 <= weight p.2) mem.

(** ** Device programming interface (spec section 6)

    The device is an external collaborator.  It hands out fresh handles
    and either succeeds or fails on each call; which calls fail is given
    by [dev_fails], indexed by the number of calls issued so far, so that
    every pattern of device failures can be explored. *)

(** [pi::ActionData]: an action id and its parameters. *)
Record ActionData := mkActionData {
  action_id : N;
  action_params : list Z
}.

#[global] Instance ActionData_eq_dec : EqDecision ActionData.
Proof. solve_decision. Defined.

Record Device := mkDevice {
  dev_next : N;                      (* next handle handed out *)
  dev_calls : nat;                   (* calls issued so far *)
  dev_fails : nat -> bool;           (* does the n-th call fail? *)
  dev_members : gmap N ActionData;   (* live member entries *)
  dev_groups : gmap N (list N)       (* live groups and their contents *)
}.

Definition dev_tick (d : Device) : Device :=
  mkDevice (dev_next d) (S (dev_calls d)) (dev_fails d) (dev_members d) (dev_groups d).

Definition dev_ok (d : Device) : bool := negb (dev_fails d (dev_calls d)).

(** [create_member(profile, action) -> handle | error] *)
Definition dev_member_create (a : ActionData) (d : Device) : option N * Device :=
  if dev_ok d then
    (Some (dev_next d),
     mkDevice (dev_next d + 1)%N (S (dev_calls d)) (dev_fails d)
              (<[dev_next d := a]> (dev_members d)) (dev_groups d))
  else (None, dev_tick d).

(** [delete_member(handle) -> ok | error] *)
Definition dev_member_delete (h : N) (d : Device) : bool * Device :=
  if dev_ok d then
    (true, mkDevice (dev_next d) (S (dev_calls d)) (dev_fails d)
                    (delete h (dev_members d)) (dev_groups d))
  else (false, dev_tick d).

(** [create_group(profile, max_size) -> handle | error] *)
Definition dev_group_create (d : Device) : option N * Device :=
  if dev_ok d then
    (Some (dev_next d),
     mkDevice (dev_next d + 1)%N (S (dev_calls d)) (dev_fails d)
              (dev_members d) (<[dev_next d := []]> (dev_groups d)))
  else (None, dev_tick d).

(** [delete_group(handle) -> ok | error] *)
Definition dev_group_delete (gh : N) (d : Device) : bool * Device :=
  if dev_ok d then
    (true, mkDevice (dev_next d) (S (dev_calls d)) (dev_fails d)
                    (dev_members d) (delete gh (dev_groups d)))
  else (false, dev_tick d).

(** Programming a group's device-level membership with the intent-based
    [SET_MEMBERSHIP] choice of PI API (header lines 211-222, the one
    preferred when the target supports it): the whole membership is set
    by one call.  The [INDIVIDUAL_ADDS_AND_REMOVES] choice, a sequence of
    add and remove calls each of which may fail, is not modelled. *)
Definition dev_group_set (gh : N) (hs : list N) (d : Device) : bool * Device :=
  if dev_ok d then
    (true, mkDevice (dev_next d) (S (dev_calls d)) (dev_fails d)
                    (dev_members d) (<[gh := hs]> (dev_groups d)))
  else (false, dev_tick d).

(** Best-effort deletion of member handles (errors ignored), in order. *)
Fixpoint dev_delete_all (hs : list N) (d : Device) : Device :=
  match hs with
  | [] => d
  | h :: hs' => dev_delete_all hs' (snd (dev_member_delete h d))
  end.

(** ** Weighted members: ActionProfMemberMap::MemberState (lines 75-100) *)

Record MemberState := mkMemberState {
  action_data : ActionData;
  handles : list pi_indirect_handle_t;
  weight_counts : gmap Z Z     (* std::map<int, int>: weight -> #groups *)
}.

Definition set_handles (ms : MemberState) (hs : list N) : MemberState :=
  mkMemberState (action_data ms) hs (weight_counts ms).
Definition set_weight_counts (ms : MemberState) (wc : gmap Z Z) : MemberState :=
  mkMemberState (action_data ms) (handles ms) wc.

(** [weight_counts[w]++] *)
Definition wc_incr (w : Z) (wc : gmap Z Z) : gmap Z Z :=
  <[w := default 0 (wc !! w) + 1]> wc.

(** [weight_counts[w]--], erasing the key when the count reaches 0. *)
Definition wc_decr (w : Z) (wc : gmap Z Z) : gmap Z Z :=
  match wc !! w with
  | Some c => if decide (c <= 1) then delete w wc else <[w := c - 1]> wc
  | None => wc
  end.

(** The highest populated key of the histogram (0 when it is empty). *)
Definition wc_max (wc : gmap Z Z) : Z :=
  map_fold (fun k _ acc => Z.max k acc) 0 wc.

(** Modelled from the spec: the replica creation loop of
    [create_missing_weighted_members] is not in src/.  Spec 4.2: [n]
    independent device calls with the same action; on a failure the
    replicas created so far in this call are deleted again, most recent
    first (scoped clean-up), and the error is returned. *)
Fixpoint create_replicas (a : ActionData) (n : nat) (d : Device)
  : option (list N) * Device :=
  match n with
  | O => (Some [], d)
  | S n' =>
    match dev_member_create a d with
    | (None, d') => (None, d')
    | (Some h, d') =>
      match create_replicas a n' d' with
      | (Some hs, d'') => (Some (h :: hs), d'')
      | (None, d'') => (None, snd (dev_member_delete h d''))
      end
    end
  end.

(** Modelled from the spec: body of
    [ActionProfAccessManual::create_missing_weighted_members] (lines
    305-308).  Spec 4.2: the new weight is counted in the histogram, and
    replicas are created until there are as many as the histogram's
    maximum; on failure the member state is left as it was. *)
Definition create_missing_weighted_members (ms : MemberState)
    (u : MembershipUpdate) (d : Device) : Status * MemberState * Device :=
  let wc := wc_incr (new_weight u) (weight_counts ms) in
  let missing := (Z.to_nat (wc_max wc) - length (handles ms))%nat in
  match create_replicas (action_data ms) missing d with
  | (None, d') => (INTERNAL, ms, d')
  | (Some hs, d') => (OK, mkMemberState (action_data ms) (handles ms ++ hs) wc, d')
  end.

(** Deleting trailing replicas, last first, [n] of them; stops at the
    first device failure. *)
Fixpoint purge_loop (n : nat) (hs : list N) (d : Device) : bool * list N * Device :=
  match n with
  | O => (true, hs, d)
  | S n' =>
    match last hs with
    | None => (true, hs, d)
    | Some h =>
      match dev_member_delete h d with
      | (true, d') => purge_loop n' (removelast hs) d'
      | (false, d') => (false, hs, d')
      end
    end
  end.

(** Modelled from the spec: body of [purge_unused_weighted_members]
    (lines 310-312).  Spec 4.2: the maximum is the histogram's highest
    populated key, and the now-unused trailing replicas are deleted. *)
Definition purge_unused_weighted_members (ms : MemberState) (d : Device)
  : Status * MemberState * Device :=
  let keep := Z.to_nat (wc_max (weight_counts ms)) in
  match purge_loop (length (handles ms) - keep) (handles ms) d with
  | (true, hs, d') => (OK, set_handles ms hs, d')
  | (false, hs, d') => (INTERNAL, set_handles ms hs, d')
  end.

(** Severity of a report. *)
Inductive Severity := Ordinary | Critical.

#[global] Instance Severity_eq_dec : EqDecision Severity.
Proof. solve_decision. Defined.

(** Modelled from the spec: body of
    [purge_unused_weighted_members_wrapper] (lines 314-317, "gives
    critical error if purge_unused_weighted_members fails").  A failed
    purge is turned into a critical report. *)
Definition purge_unused_weighted_members_wrapper (ms : MemberState) (d : Device)
  : option Severity * MemberState * Device :=
  match purge_unused_weighted_members ms d with
  | (st, ms', d') => (if IS_ERROR st then Some Critical else None, ms', d')
  end.

(** ** ActionProfAccessManual (lines 252-322)

    Member creation and deletion are not part of this model: the members
    are given, and the group operations are modelled.  The maximum group
    size bound is not modelled. *)

Abbreviation MemberMap := (gmap Id MemberState).

Record ActionProfGroupMembership := mkGroupMembership {
  members : Membership;
  max_size_user : N
}.

Record Manual := mkManual {
  member_map : MemberMap;
  group_bimap : ActionProfBiMap.t;
  group_members : gmap Id ActionProfGroupMembership
}.

(** Phase (2) of [group_update_members]: for every insertion or change,
    count the new weight and create the missing replicas.  Returns the
    handles created so far, for the roll-back. *)
Fixpoint phase_create (ups : list MembershipUpdate) (mm : MemberMap)
    (d : Device) (created : list N) : Status * MemberMap * Device * list N :=
  match ups with
  | [] => (OK, mm, d, created)
  | u :: ups' =>
    if decide (0 < new_weight u) then
      match mm !! uid u with
      | None => (NOT_FOUND, mm, d, created)
      | Some ms =>
        match create_missing_weighted_members ms u d with
        | (OK, ms', d') =>
          phase_create ups' (<[uid u := ms']> mm) d'
                       (created ++ drop (length (handles ms)) (handles ms'))
        | (st, _, d') => (st, mm, d', created)
        end
      end
    else phase_create ups' mm d created
  end.

(** The replica handles a group uses: for a member of weight [w], the
    first [w] replicas, in creation order. *)
Definition group_handles (mm : MemberMap) (des : Membership) : list N :=
  concat (map (fun p => match mm !! p.1 with
                        | Some ms => take (Z.to_nat (weight p.2)) (handles ms)
                        | None => []
                        end) des).

(** Phase (4): for every deletion or change, uncount the old weight and
    purge; a purge failure is reported as critical and the walk goes on. *)
Fixpoint phase_purge (ups : list MembershipUpdate) (mm : MemberMap)
    (d : Device) (crit : bool) : bool * MemberMap * Device :=
  match ups with
  | [] => (crit, mm, d)
  | u :: ups' =>
    if decide (0 < current_weight u) then
      match mm !! uid u with
      | None => phase_purge ups' mm d crit
      | Some ms =>
        let ms1 := set_weight_counts ms (wc_decr (current_weight u) (weight_counts ms)) in
        match purge_unused_weighted_members_wrapper ms1 d with
        | (rep, ms2, d') =>
          phase_purge ups' (<[uid u := ms2]> mm) d'
                      (crit || bool_decide (rep = Some Critical))
        end
      end
    else phase_purge ups' mm d crit
  end.

(** Outcome of a group operation: the status returned to the caller,
    whether a critical (best-effort clean-up failed) report was issued,
    the new state and the device. *)
Record Outcome := mkOutcome {
  o_status : Status;
  o_critical : bool;
  o_state : MemberMap;
  o_dev : Device
}.

(** Modelled from the spec: body of [group_update_members] (lines
    302-303).  Spec 4.4: (1) diff, (2) create missing replicas, (3)
    program the device group with the selected replica handles, (4) purge.
    A device failure in (2) or (3) rolls back every replica created by
    this call and leaves the store as it was; the purge runs after the
    commit and its failure does not change the returned status. *)
Definition group_update_members (mm : MemberMap) (gh : N)
    (cur des : Membership) (d : Device) : Outcome :=
  let ups := compute_membership_update cur des in
  match phase_create ups mm d [] with
  | (OK, mm1, d1, created) =>
    match dev_group_set gh (group_handles mm1 des) d1 with
    | (true, d2) =>
      match phase_purge ups mm1 d2 false with
      | (crit, mm3, d3) => mkOutcome OK crit mm3 d3
      end
    | (false, d2) => mkOutcome INTERNAL false mm (dev_delete_all created d2)
    end
  | (st, _, d1, created) => mkOutcome st false mm (dev_delete_all created d1)
  end.

(** The group part of a P4Runtime [ActionProfileGroup] message. *)
Record GroupMsg := mkGroupMsg {
  group_id : Id;
  max_group_size : N;
  msg_members : list (Id * MembershipInfo)
}.

(** Inserting into an ordered membership; [None] on a duplicate id. *)
Fixpoint mem_insert (i : Id) (x : MembershipInfo) (mem : Membership)
  : option Membership :=
  match mem with
  | [] => Some [(i, x)]
  | (j, y) :: mem' =>
    if decide (i = j) then None
    else if decide (i < j)%N then Some ((i, x) :: mem)
    else match mem_insert i x mem' with
         | Some r => Some ((j, y) :: r)
         | None => None
         end
  end.

Fixpoint build_membership (l : list (Id * MembershipInfo)) : option Membership :=
  match l with
  | [] => Some []
  | (i, x) :: l' =>
    match build_membership l' with
    | Some acc => mem_insert i x acc
    | None => None
    end
  end.

(** Modelled from the spec (section 7): semantic validation of a desired
    membership, before any device call: weights at least 1, members known,
    no duplicate id. *)
Definition validate_membership (mm : MemberMap) (l : list (Id * MembershipInfo))
  : Status + Membership :=
  if decide (Forall (fun p => 1 <= weight p.2) l) then
    if decide (Forall (fun p => is_Some (mm !! p.1)) l) then
      match build_membership l with
      | Some mem => inr mem
      | None => inl INVALID_ARGUMENT
      end
    else inl NOT_FOUND
  else inl INVALID_ARGUMENT.

(** Result of a manual-style group operation. *)
Record GResult := mkGResult {
  g_status : Status;
  g_critical : bool;
  g_state : Manual;
  g_dev : Device
}.

(** Modelled from the spec: body of [ActionProfAccessManual::group_create]. *)
Definition group_create (s : Manual) (g : GroupMsg) (d : Device) : GResult :=
  match ActionProfBiMap.retrieve_handle (group_id g) (group_bimap s) with
  | Some _ => mkGResult ALREADY_EXISTS false s d
  | None =>
    match validate_membership (member_map s) (msg_members g) with
    | inl st => mkGResult st false s d
    | inr des =>
      match dev_group_create d with
      | (None, d1) => mkGResult INTERNAL false s d1
      | (Some gh, d1) =>
        let o := group_update_members (member_map s) gh [] des d1 in
        if IS_ERROR (o_status o) then
          mkGResult (o_status o) false s (snd (dev_group_delete gh (o_dev o)))
        else
          mkGResult OK (o_critical o)
            (mkManual (o_state o)
               (snd (ActionProfBiMap.add (group_id g) gh (group_bimap s)))
               (<[group_id g := mkGroupMembership des (max_group_size g)]>
                  (group_members s)))
            (o_dev o)
      end
    end
  end.

(** Modelled from the spec: body of [ActionProfAccessManual::group_modify].
    The message's maximum group size is not used: its validation against
    the device limits ([validate_max_group_size]) is not modelled, and the
    stored bound is kept. *)
Definition group_modify (s : Manual) (g : GroupMsg) (d : Device) : GResult :=
  match ActionProfBiMap.retrieve_handle (group_id g) (group_bimap s),
        group_members s !! group_id g with
  | Some gh, Some gm =>
    match validate_membership (member_map s) (msg_members g) with
    | inl st => mkGResult st false s d
    | inr des =>
      let o := group_update_members (member_map s) gh (members gm) des d in
      if IS_ERROR (o_status o) then mkGResult (o_status o) false s (o_dev o)
      else
        mkGResult OK (o_critical o)
          (mkManual (o_state o) (group_bimap s)
             (<[group_id g := mkGroupMembership des (max_size_user gm)]>
                (group_members s)))
          (o_dev o)
    end
  | _, _ => mkGResult NOT_FOUND false s d
  end.

(** Modelled from the spec: body of [ActionProfAccessManual::group_delete].
    All entries are removed (with the purges), then the group handle is
    deleted; if that last call fails the group stays, empty. *)
Definition group_delete (s : Manual) (gid : Id) (d : Device) : GResult :=
  match ActionProfBiMap.retrieve_handle gid (group_bimap s),
        group_members s !! gid with
  | Some gh, Some gm =>
    let o := group_update_members (member_map s) gh (members gm) [] d in
    if IS_ERROR (o_status o) then mkGResult (o_status o) false s (o_dev o)
    else
      match dev_group_delete gh (o_dev o) with
      | (true, d1) =>
        mkGResult OK (o_critical o)
          (mkManual (o_state o) (snd (ActionProfBiMap.remove gid (group_bimap s)))
                    (delete gid (group_members s)))
          d1
      | (false, d1) =>
        mkGResult INTERNAL (o_critical o)
          (mkManual (o_state o) (group_bimap s)
             (<[gid := mkGroupMembership [] (max_size_user gm)]> (group_members s)))
          d1
      end
  | _, _ => mkGResult NOT_FOUND false s d
  end.

Inductive GroupOp :=
| GroupCreate (g : GroupMsg)
| GroupModify (g : GroupMsg)
| GroupDelete (gid : Id).

Definition run_group_op (s : Manual) (o : GroupOp) (d : Device) : GResult :=
  match o with
  | GroupCreate g => group_create s g d
  | GroupModify g => group_modify s g d
  | GroupDelete gid => group_delete s gid d
  end.

(** A sequence of group operations; the flag records whether any of them
    issued a critical report. *)
Fixpoint run_group_ops (s : Manual) (os : list GroupOp) (d : Device) (crit : bool)
  : Manual * Device * bool :=
  match os with
  | [] => (s, d, crit)
  | o :: os' =>
    let r := run_group_op s o d in
    run_group_ops (g_state r) os' (g_dev r) (crit || g_critical r)
  end.

(** The weights with which member [m] is requested, one per group that
    contains it, and their maximum (0 when no group contains it). *)
Definition member_weights (gms : gmap Id ActionProfGroupMembership) (m : Id)
  : list Z :=
  concat (map (fun p => match list_to_map (M := gmap Id MembershipInfo) (members p.2) !! m with
                        | Some i => [weight i]
                        | None => []
                        end) (map_to_list gms)).

Definition max_weight (ws : list Z) : Z := foldr Z.max 0 ws.

(** The weight-count histogram a list of requested weights gives. *)
Definition hist (ws : list Z) : gmap Z Z := foldr wc_incr ∅ ws.

(** The store invariant of the manual-style access, relative to the
    device: stored memberships are well formed, every stored group has a
    handle, every group handle was handed out by the device, and every
    member's histogram counts the weights requested for it, with as many
    replicas as the histogram's maximum. *)
Definition manual_inv (s : Manual) (d : Device) : Prop :=
  (forall g gm, group_members s !! g = Some gm ->
     ordered (members gm) /\ weights_positive (members gm)) /\
  (forall g, is_Some (group_members s !! g) ->
     is_Some (ActionProfBiMap.map_1_2 (group_bimap s) !! g)) /\
  (forall h g, ActionProfBiMap.map_2_1 (group_bimap s) !! h = Some g ->
     (h < dev_next d)%N) /\
  (forall m ms, member_map s !! m = Some ms ->
     weight_counts ms = hist (member_weights (group_members s) m) /\
     Z.of_nat (length (handles ms)) = wc_max (weight_counts ms)).

(** The weight (as a one-element list) with which a membership requests
    member [m], or nothing. *)
Definition requested (mem : Membership) (m : Id) : list Z :=
  match alookup m mem with Some a => [weight a] | None => [] end.

(** The effect of phase (4) on one member's entry, for its update [u]. *)
Definition purge_at (u : MembershipUpdate) (o : option MemberState) : option MemberState :=
  if decide (0 < current_weight u) then
    (fun ms => let wc := wc_decr (current_weight u) (weight_counts ms) in
       mkMemberState (action_data ms) (take (Z.to_nat (wc_max wc)) (handles ms)) wc) <$> o
  else o.

(** Every member's histogram counts the weights requested for it, with as
    many replicas as the histogram's maximum. *)
Definition members_inv (mm : MemberMap) (gms : gmap Id ActionProfGroupMembership) : Prop :=
  forall m ms, mm !! m = Some ms ->
    weight_counts ms = hist (member_weights gms m) /\
    Z.of_nat (length (handles ms)) = wc_max (weight_counts ms).

(** A member whose replica list did not grow kept a prefix of it. *)
Definition shrinks_prefix (mm mm' : MemberMap) : Prop :=
  forall m ms ms', mm !! m = Some ms -> mm' !! m = Some ms' ->
    (length (handles ms') <= length (handles ms))%nat ->
    handles ms' = take (length (handles ms')) (handles ms).

(** ** ActionProfAccessOneshot (lines 324-366) *)

(** An entry of a P4Runtime [ActionProfileActionSet]. *)
Record ActionProfileAction := mkAPAction {
  ap_action : ActionData;
  ap_weight : Z;
  ap_watch : WatchPort
}.

Record OneShotMember := mkOneShotMember {
  member_h : pi_indirect_handle_t;
  os_weight : Z;
  os_watch : WatchPort
}.

(** [std::unordered_map<pi_indirect_handle_t, std::vector<OneShotMember>>] *)
Abbreviation Oneshot := (gmap N (list OneShotMember)).

(** The stored entries for the replicas of one action: the first copy
    carries the user-provided weight, the subsequent copies weight 0
    (lines 335-340). *)
Definition oneshot_copies (e : ActionProfileAction) (hs : list N)
  : list OneShotMember :=
  match hs with
  | [] => []
  | h :: hs' => mkOneShotMember h (ap_weight e) (ap_watch e)
                :: map (fun h' => mkOneShotMember h' 0 (ap_watch e)) hs'
  end.

(** Modelled from the spec: the replica creation of one-shot
    [group_create] (spec 4.5): [weight] replicas per entry, in order; on
    a failure every replica created so far is deleted again (the
    [OneShotMemberCleanupTask]s of lines 349-353). *)
Fixpoint oneshot_create_members (es : list ActionProfileAction) (d : Device)
  : option (list OneShotMember) * Device :=
  match es with
  | [] => (Some [], d)
  | e :: es' =>
    match create_replicas (ap_action e) (Z.to_nat (ap_weight e)) d with
    | (None, d1) => (None, d1)
    | (Some hs, d1) =>
      match oneshot_create_members es' d1 with
      | (Some ms, d2) => (Some (oneshot_copies e hs ++ ms), d2)
      | (None, d2) => (None, dev_delete_all hs d2)
      end
    end
  end.

(** Modelled from the spec: body of [ActionProfAccessOneshot::group_create]
    (lines 329-330).  Spec 4.5: weights are validated first; the replicas
    are created, then the group, then the replicas are added to it; any
    failure deletes the group and every replica, and leaves the store as
    it was. *)
Definition oneshot_group_create (s : Oneshot) (es : list ActionProfileAction)
    (d : Device) : Status * option N * Oneshot * Device :=
  if decide (Forall (fun e => 1 <= ap_weight e) es) then
    match oneshot_create_members es d with
    | (None, d1) => (INTERNAL, None, s, d1)
    | (Some ms, d1) =>
      let hs := map member_h ms in
      match dev_group_create d1 with
      | (None, d2) => (INTERNAL, None, s, dev_delete_all hs d2)
      | (Some gh, d2) =>
        match dev_group_set gh hs d2 with
        | (true, d3) => (OK, Some gh, <[gh := ms]> s, d3)
        | (false, d3) =>
          (INTERNAL, None, s, dev_delete_all hs (snd (dev_group_delete gh d3)))
        end
      end
    end
  else (INVALID_ARGUMENT, None, s, d).

(** [group_get_members]: [false] (here [None]) if no such group. *)
Definition group_get_members (s : Oneshot) (gh : N) : option (list OneShotMember) :=
  s !! gh.

(** A read-back entry: the action the device holds for the replica's
    handle, and the stored weight and watch. *)
Definition read_entry (d : Device) (m : OneShotMember)
  : option ActionData * Z * WatchPort :=
  (dev_members d !! member_h m, os_weight m, os_watch m).

(** The entries a request is expected to read back as: per action, its
    first replica with the requested weight, then weight-0 replicas. *)
Definition expected_entries (e : ActionProfileAction)
  : list (option ActionData * Z * WatchPort) :=
  (Some (ap_action e), ap_weight e, ap_watch e)
  :: repeat (Some (ap_action e), 0, ap_watch e) (Z.to_nat (ap_weight e) - 1).

(** Reconstructing the request from a read-back: the entries with a
    non-zero weight. *)
Fixpoint reconstruct (rs : list (option ActionData * Z * WatchPort))
  : list ActionProfileAction :=
  match rs with
  | [] => []
  | (Some a, w, wt) :: rs' =>
    if decide (w = 0) then reconstruct rs' else mkAPAction a w wt :: reconstruct rs'
  | (None, _, _) :: rs' => reconstruct rs'
  end.

Definition sum_weights (es : list ActionProfileAction) : Z :=
  foldr (fun e acc => ap_weight e + acc) 0 es.

(** Every member entry of the device lies below the next fresh handle. *)
Definition dev_fresh (d : Device) : Prop :=
  forall k, is_Some (dev_members d !! k) -> (k < dev_next d)%N.

(** ** ActionProfMgr (lines 368-402) *)

Inductive SelectorUsage := UNSPECIFIED | ONESHOT | MANUAL.

#[global] Instance SelectorUsage_eq_dec : EqDecision SelectorUsage.
Proof. solve_decision. Defined.

(** The access object [pimp] points to. *)
Inductive Access := AccessManual | AccessOneshot.

Record ActionProfMgr := mkMgr {
  selector_usage : SelectorUsage;
  pimp : option Access
}.

(** The constructor: no style committed yet. *)
Definition mgr_init : ActionProfMgr := mkMgr UNSPECIFIED None.

(** Modelled from the spec: body of [check_selector_usage<T>] (lines
    390-391).  Spec 4.6: the first successful access commits the
    instance to its style; an access of the other style afterwards fails
    with [FailedPrecondition]. *)
Definition check_selector_usage (usage : SelectorUsage) (a : Access)
    (m : ActionProfMgr) : Status * ActionProfMgr :=
  if decide (selector_usage m = UNSPECIFIED) then (OK, mkMgr usage (Some a))
  else if decide (selector_usage m = usage) then (OK, m)
  else (FAILED_PRECONDITION, m).

(** [StatusOr<ActionProfAccessManual *> manual()] *)
Definition manual (m : ActionProfMgr) : (Status + Access) * ActionProfMgr :=
  match check_selector_usage MANUAL AccessManual m with
  | (OK, m') => (inr AccessManual, m')
  | (st, m') => (inl st, m')
  end.

(** [StatusOr<ActionProfAccessOneshot *> oneshot()] *)
Definition oneshot (m : ActionProfMgr) : (Status + Access) * ActionProfMgr :=
  match check_selector_usage ONESHOT AccessOneshot m with
  | (OK, m') => (inr AccessOneshot, m')
  | (st, m') => (inl st, m')
  end.

Inductive MgrCall := CallManual | CallOneshot.

Definition mgr_call (c : MgrCall) (m : ActionProfMgr) : (Status + Access) * ActionProfMgr :=
  match c with CallManual => manual m | CallOneshot => oneshot m end.

Definition run_mgr (cs : list MgrCall) (m : ActionProfMgr) : ActionProfMgr :=
  fold_left (fun m c => snd (mgr_call c m)) cs m.

(** ** Lookups of the manual access path *)

(** Modelled from the spec: bodies of [retrieve_group_handle] and
    [retrieve_group_id] (lines 287-295, "returns false if no matching
    id/handle"), spec 4.4 "Lookups": a found/not-found result. *)
Definition retrieve_group_handle (s : Manual) (gid : Id) : option pi_indirect_handle_t :=
  ActionProfBiMap.retrieve_handle gid (group_bimap s).

Definition retrieve_group_id (s : Manual) (gh : pi_indirect_handle_t) : option Id :=
  ActionProfBiMap.retrieve_id gh (group_bimap s).

(** Modelled from the declaration: [ActionProfGroupMembership::get_member_info]
    (lines 196-197), a lookup of the member in the group's membership map,
    [false] (here [None]) when it is absent. *)
Definition membership_get_member_info (gm : ActionProfGroupMembership) (m : Id)
  : option (Z * WatchPort) :=
  (fun i => (weight i, mwatch i)) <$> alookup m (members gm).

(** Modelled from the declaration: [ActionProfAccessManual::get_member_info]
    (lines 279-280): [false] if no such group, else the membership lookup. *)
Definition get_member_info (s : Manual) (gid m : Id) : option (Z * WatchPort) :=
  match group_members s !! gid with
  | Some gm => membership_get_member_info gm m
  | None => None
  end.

(** Modelled from the declaration: [group_get_max_size_user] (line 277). *)
Definition group_get_max_size_user (s : Manual) (gid : Id) : option N :=
  max_size_user <$> group_members s !! gid.

(** [ActionProfMgr::get_selector_usage] (lines 381-383): the committed
    selector usage. *)
Definition get_selector_usage (m : ActionProfMgr) : SelectorUsage :=
  selector_usage m.

(** Every stored group's device group holds the replica handles the store
    assigns to it. *)
Definition groups_programmed (s : Manual) (d : Device) : Prop :=
  forall gid gm gh, group_members s !! gid = Some gm ->
    ActionProfBiMap.map_1_2 (group_bimap s) !! gid = Some gh ->
    dev_groups d !! gh = Some (group_handles (member_map s) (members gm)).

(** A member's replica list is obtained from the old one by appending
    replicas and keeping a prefix. *)
Definition member_prefix (mm mm' : MemberMap) : Prop :=
  forall m, match mm !! m with
            | None => mm' !! m = None
            | Some ms => exists ms' hs k, mm' !! m = Some ms' /\
                           handles ms' = take k (handles ms ++ hs)
            end.

(** [d'] extends [d] by member entries at the handles [hs], which were
    free in [d]; the failure pattern is unchanged and no call is undone. *)
Definition grows (d d' : Device) (hs : list N) : Prop :=
  dev_fresh d' /\ dev_fails d' = dev_fails d /\ (dev_calls d <= dev_calls d')%nat /\
  (forall k, k ∉ hs -> dev_members d' !! k = dev_members d !! k) /\
  (forall k, k ∈ hs -> dev_members d !! k = None).

(** Every call from [dev_calls d] on succeeds. *)
Definition calm (d : Device) : Prop :=
  forall i, (dev_calls d <= i)%nat -> dev_fails d i = false.

(** The device's only failing call is the [c]-th. *)
Definition single (c : nat) (d : Device) : Prop := forall i, dev_fails d i = Nat.eqb i c.

(** * Proofs *)

(** ** The id/handle table *)

Module BiMapProofs.
Import ActionProfBiMap.

Lemma bijective_empty : bijective empty_map.
Proof. intros id h. simpl. rewrite !lookup_empty. split; discriminate. Qed.

Lemma add_bijective (id h : N) (m : t) :
  bijective m -> bijective (snd (add id h m)).
Proof.
  intros Hb. unfold add.
  destruct (map_1_2 m !! id) as [h0|] eqn:E1; [exact Hb|].
  destruct (map_2_1 m !! h) as [i0|] eqn:E2; [exact Hb|].
  intros i k. simpl.
  destruct (decide (i = id)) as [->|Hi];
    destruct (decide (k = h)) as [->|Hk].
  - rewrite !lookup_insert_eq. split; congruence.
  - rewrite lookup_insert_eq, lookup_insert_ne by congruence.
    split; [congruence|]. intros Hk'. apply Hb in Hk'. congruence.
  - rewrite lookup_insert_ne by congruence. rewrite lookup_insert_eq.
    split; [|congruence]. intros Hi'. apply Hb in Hi'. congruence.
  - rewrite !lookup_insert_ne by congruence. apply Hb.
Qed.

Lemma remove_bijective (id : N) (m : t) :
  bijective m -> bijective (snd (remove id m)).
Proof.
  intros Hb. unfold remove.
  destruct (map_1_2 m !! id) as [h0|] eqn:E1; [|exact Hb].
  intros i k. simpl.
  destruct (decide (i = id)) as [->|Hi];
    destruct (decide (k = h0)) as [->|Hk].
  - rewrite !lookup_delete_eq. split; discriminate.
  - rewrite lookup_delete_eq, lookup_delete_ne by congruence.
    split; [discriminate|]. intros Hk'. apply Hb in Hk'. congruence.
  - rewrite lookup_delete_ne by congruence. rewrite lookup_delete_eq.
    split; [|discriminate]. intros Hi'. apply Hb in Hi'.
    apply Hb in E1. congruence.
  - rewrite !lookup_delete_ne by congruence. apply Hb.
Qed.

Lemma run_op_bijective (m : t) (o : op) : bijective m -> bijective (run_op m o).
Proof.
  destruct o; simpl; [apply add_bijective | apply remove_bijective].
Qed.
End BiMapProofs.

(** C4: the id/handle table stays a bijection under every sequence of
    [add] and [remove] operations started from the empty table: each id
    has at most one handle, each handle at most one id, and the two
    directions agree. *)
Theorem bimap_run_bijection (os : list ActionProfBiMap.op) :
  let m := ActionProfBiMap.run ActionProfBiMap.empty_map os in
  ActionProfBiMap.bijective m /\
  (forall (id h1 h2 : N), ActionProfBiMap.retrieve_handle id m = Some h1 ->
      ActionProfBiMap.retrieve_handle id m = Some h2 -> h1 = h2) /\
  (forall (h id1 id2 : N), ActionProfBiMap.retrieve_id h m = Some id1 ->
      ActionProfBiMap.retrieve_id h m = Some id2 -> id1 = id2) /\
  (forall (id h : N), ActionProfBiMap.retrieve_handle id m = Some h <->
      ActionProfBiMap.retrieve_id h m = Some id).
Proof.
  simpl. unfold ActionProfBiMap.run.
  assert (Hb : ActionProfBiMap.bijective
                 (fold_left ActionProfBiMap.run_op os ActionProfBiMap.empty_map)).
  { generalize BiMapProofs.bijective_empty.
    generalize ActionProfBiMap.empty_map.
    induction os as [|o os IH]; intros m Hm; simpl; [exact Hm|].
    apply IH, BiMapProofs.run_op_bijective, Hm. }
  split; [exact Hb|]. unfold ActionProfBiMap.retrieve_handle, ActionProfBiMap.retrieve_id.
  split; [intros; congruence|]. split; [intros; congruence|]. apply Hb.
Qed.

(** C9 (counterexample): [add] on an id that is already mapped, and
    [remove] on an absent id, report no [AlreadyExists] / [NotFound]
    status: both are [void]. *)
Lemma bimap_no_status_counterexample :
  let m1 := snd (ActionProfBiMap.add 1 7 ActionProfBiMap.empty_map) in
  ActionProfBiMap.retrieve_handle 1 m1 = Some 7%N /\
  reported (fst (ActionProfBiMap.add 1 8 m1)) <> Some ALREADY_EXISTS /\
  ActionProfBiMap.retrieve_handle 2 ActionProfBiMap.empty_map = None /\
  reported (fst (ActionProfBiMap.remove 2 ActionProfBiMap.empty_map)) <> Some NOT_FOUND.
Proof. vm_compute. repeat split; discriminate. Qed.

(** C9 (amended): [add(id, h)] returns nothing and leaves the table
    unchanged whenever the id or the handle is already mapped;
    [remove(id)] returns nothing and leaves it unchanged whenever the id
    is absent; a successful [add] maps the id and the handle to each
    other and changes no other id's handle and no other handle's id; a
    successful [remove] unmaps the id and its handle and changes no other
    id's handle and no other handle's id; the lookups give the mapped
    partner or nothing. *)
Theorem bimap_add_remove_spec (id h : N) (m : ActionProfBiMap.t) :
  reported (fst (ActionProfBiMap.add id h m)) = None /\
  reported (fst (ActionProfBiMap.remove id m)) = None /\
  ((is_Some (ActionProfBiMap.retrieve_handle id m) \/
    is_Some (ActionProfBiMap.retrieve_id h m)) ->
   snd (ActionProfBiMap.add id h m) = m) /\
  (ActionProfBiMap.retrieve_handle id m = None ->
   snd (ActionProfBiMap.remove id m) = m) /\
  ((ActionProfBiMap.retrieve_handle id m = None ->
    ActionProfBiMap.retrieve_id h m = None ->
    forall i k, i <> id -> k <> h ->
    ActionProfBiMap.retrieve_handle i (snd (ActionProfBiMap.add id h m)) =
      ActionProfBiMap.retrieve_handle i m /\
    ActionProfBiMap.retrieve_id k (snd (ActionProfBiMap.add id h m)) =
      ActionProfBiMap.retrieve_id k m)) /\
  (forall i, i <> id ->
   ActionProfBiMap.retrieve_handle i (snd (ActionProfBiMap.remove id m)) =
     ActionProfBiMap.retrieve_handle i m) /\
  (ActionProfBiMap.retrieve_handle id m = None ->
   ActionProfBiMap.retrieve_id h m = None ->
   ActionProfBiMap.retrieve_handle id (snd (ActionProfBiMap.add id h m)) = Some h /\
   ActionProfBiMap.retrieve_id h (snd (ActionProfBiMap.add id h m)) = Some id) /\
  (forall h0, ActionProfBiMap.retrieve_handle id m = Some h0 ->
   ActionProfBiMap.retrieve_handle id (snd (ActionProfBiMap.remove id m)) = None /\
   ActionProfBiMap.retrieve_id h0 (snd (ActionProfBiMap.remove id m)) = None /\
   forall k, k <> h0 ->
   ActionProfBiMap.retrieve_id k (snd (ActionProfBiMap.remove id m)) =
     ActionProfBiMap.retrieve_id k m).
Proof.
  unfold ActionProfBiMap.add, ActionProfBiMap.remove,
    ActionProfBiMap.retrieve_handle, ActionProfBiMap.retrieve_id.
  split; [destruct (ActionProfBiMap.map_1_2 m !! id), (ActionProfBiMap.map_2_1 m !! h); reflexivity|].
  split; [destruct (ActionProfBiMap.map_1_2 m !! id); reflexivity|].
  split.
  { intros [[x Hx]|[x Hx]]; rewrite Hx; [reflexivity|].
    destruct (ActionProfBiMap.map_1_2 m !! id); reflexivity. }
  split; [intros Hn; rewrite Hn; reflexivity|].
  split.
  { intros H1 H2 i k Hi Hk. rewrite H1, H2. simpl.
    rewrite !lookup_insert_ne by congruence. split; reflexivity. }
  split.
  { intros i Hi. destruct (ActionProfBiMap.map_1_2 m !! id); simpl; [|reflexivity].
    rewrite lookup_delete_ne by congruence. reflexivity. }
  split.
  { intros H1 H2. rewrite H1, H2. simpl. rewrite !lookup_insert_eq. split; reflexivity. }
  intros h0 H1. rewrite H1. simpl. rewrite !lookup_delete_eq. split; [reflexivity|].
  split; [reflexivity|]. intros k Hk. rewrite lookup_delete_ne by congruence. reflexivity.
Qed.

Lemma bimap_add_remove_spec_witness :
  let m := snd (ActionProfBiMap.add 1 7 ActionProfBiMap.empty_map) in
  is_Some (ActionProfBiMap.retrieve_handle 1 m) /\
  snd (ActionProfBiMap.add 1 8 m) = m.
Proof.
  simpl. split; [vm_compute; eexists; reflexivity|].
  apply (bimap_add_remove_spec 1 8 _). left. vm_compute. eexists; reflexivity.
Defined.

(** ** The style selector *)

Module SelectorProofs.
Lemma manual_ok_usage (m m' : ActionProfMgr) (a : Access) :
  manual m = (inr a, m') -> selector_usage m' = MANUAL.
Proof.
  unfold manual, check_selector_usage.
  destruct (decide (selector_usage m = UNSPECIFIED)) as [E|E]; [intros H; inversion H; reflexivity|].
  destruct (decide (selector_usage m = MANUAL)) as [E'|E']; intros H; inversion H; subst; auto.
Qed.

Lemma oneshot_ok_usage (m m' : ActionProfMgr) (a : Access) :
  oneshot m = (inr a, m') -> selector_usage m' = ONESHOT.
Proof.
  unfold oneshot, check_selector_usage.
  destruct (decide (selector_usage m = UNSPECIFIED)) as [E|E]; [intros H; inversion H; reflexivity|].
  destruct (decide (selector_usage m = ONESHOT)) as [E'|E']; intros H; inversion H; subst; auto.
Qed.

(** Once committed, the usage never changes. *)
Lemma run_mgr_keeps (u : SelectorUsage) (cs : list MgrCall) (m : ActionProfMgr) :
  u <> UNSPECIFIED -> selector_usage m = u -> selector_usage (run_mgr cs m) = u.
Proof.
  unfold run_mgr. revert m. induction cs as [|c cs IH]; intros m Hu Hm; simpl; [exact Hm|].
  apply IH; [exact Hu|].
  destruct c; simpl; unfold manual, oneshot, check_selector_usage;
    rewrite Hm; destruct (decide (u = UNSPECIFIED)); [congruence| |congruence|];
    destruct u; simpl; try reflexivity; congruence.
Qed.
End SelectorProofs.

(** C7: once [manual()] has succeeded, every later [oneshot()] fails with
    [FailedPrecondition], whatever calls come in between, and vice versa;
    on a freshly constructed instance either style can be obtained. *)
Theorem selector_style_exclusive :
  (forall (m m' : ActionProfMgr) (a : Access) (cs : list MgrCall),
      manual m = (inr a, m') ->
      fst (oneshot (run_mgr cs m')) = inl FAILED_PRECONDITION) /\
  (forall (m m' : ActionProfMgr) (a : Access) (cs : list MgrCall),
      oneshot m = (inr a, m') ->
      fst (manual (run_mgr cs m')) = inl FAILED_PRECONDITION) /\
  fst (manual mgr_init) = inr AccessManual /\
  fst (oneshot mgr_init) = inr AccessOneshot.
Proof.
  split; [|split; [|split; reflexivity]].
  - intros m m' a cs H. apply SelectorProofs.manual_ok_usage in H.
    pose proof (SelectorProofs.run_mgr_keeps MANUAL cs m' ltac:(discriminate) H) as Hk.
    unfold oneshot, check_selector_usage. rewrite Hk. reflexivity.
  - intros m m' a cs H. apply SelectorProofs.oneshot_ok_usage in H.
    pose proof (SelectorProofs.run_mgr_keeps ONESHOT cs m' ltac:(discriminate) H) as Hk.
    unfold manual, check_selector_usage. rewrite Hk. reflexivity.
Qed.

Lemma selector_style_exclusive_witness :
  manual mgr_init = (inr AccessManual, mkMgr MANUAL (Some AccessManual)) /\
  fst (oneshot (run_mgr [CallManual; CallOneshot] (mkMgr MANUAL (Some AccessManual))))
    = inl FAILED_PRECONDITION.
Proof.
  split; [reflexivity|].
  apply (proj1 selector_style_exclusive mgr_init _ AccessManual). reflexivity.
Defined.

(** ** The membership diff engine *)

Module DiffProofs.

Lemma to_map_lookup (mem : Membership) (k : Id) : to_map mem !! k = alookup k mem.
Proof.
  unfold to_map. induction mem as [|[j y] r IH]; simpl; [apply lookup_empty|].
  destruct (decide (k = j)) as [->|Hk].
  - apply lookup_insert_eq.
  - rewrite lookup_insert_ne by congruence. exact IH.
Qed.

Lemma alookup_In (k : Id) (mem : Membership) (a : MembershipInfo) :
  alookup k mem = Some a -> In (k, a) mem.
Proof.
  induction mem as [|[j y] r IH]; simpl; [discriminate|].
  destruct (decide (k = j)) as [->|]; [intros H; inversion H; left; reflexivity|].
  intros H; right; auto.
Qed.

Lemma alookup_above (k : Id) (mem : Membership) :
  Forall (fun p => (k < p.1)%N) mem -> alookup k mem = None.
Proof.
  induction mem as [|[j y] r IH]; simpl; [reflexivity|].
  intros Hf. inversion Hf as [|? ? Hj Hr]; subst. simpl in Hj.
  destruct (decide (k = j)); [lia|]. auto.
Qed.

Lemma ordered_strong (mem : Membership) :
  ordered mem -> StronglySorted (fun a b => (a.1 < b.1)%N) mem.
Proof.
  intros H. apply Sorted_StronglySorted; [|exact H].
  intros x y z; lia.
Qed.

Lemma ordered_tail (p : Id * MembershipInfo) (mem : Membership) :
  ordered (p :: mem) -> ordered mem /\ Forall (fun q => (p.1 < q.1)%N) mem.
Proof.
  intros H. split; [inversion H; assumption|].
  apply ordered_strong in H. inversion H; assumption.
Qed.

(** Equations of the merge walk. *)
Lemma cmu_nil_l (des : Membership) :
  compute_membership_update [] des = map (fun p => upd_insert p.1 p.2) des.
Proof. reflexivity. Qed.

Lemma cmu_nil_r (cur : Membership) :
  compute_membership_update cur [] = map (fun p => upd_delete p.1 p.2) cur.
Proof. destruct cur as [|[i a] cur]; reflexivity. Qed.

Lemma cmu_cons (i j : Id) (a b : MembershipInfo) (cur des : Membership) :
  compute_membership_update ((i, a) :: cur) ((j, b) :: des) =
  if decide (i = j) then upd_both i a b :: compute_membership_update cur des
  else if decide (i < j)%N
       then upd_delete i a :: compute_membership_update cur ((j, b) :: des)
       else upd_insert j b :: compute_membership_update ((i, a) :: cur) des.
Proof. reflexivity. Qed.

Lemma for_id_cons (k : Id) (u : MembershipUpdate) (ups : list MembershipUpdate) :
  for_id k (u :: ups) = if decide (uid u = k) then u :: for_id k ups else for_id k ups.
Proof.
  unfold for_id. destruct (decide (uid u = k)).
  - rewrite filter_cons_True by assumption. reflexivity.
  - rewrite filter_cons_False by assumption. reflexivity.
Qed.

Lemma for_id_map_ins (k : Id) (des : Membership) :
  ordered des ->
  for_id k (map (fun p => upd_insert p.1 p.2) des) = upd_for k None (alookup k des).
Proof.
  induction des as [|[j b] des IH]; intros Ho; [reflexivity|].
  apply ordered_tail in Ho as [Ho Hf]. simpl map. rewrite for_id_cons. simpl.
  destruct (decide (j = k)) as [->|Hjk].
  - rewrite decide_True by reflexivity. rewrite IH by exact Ho.
    rewrite alookup_above by exact Hf. reflexivity.
  - rewrite decide_False by congruence. apply IH, Ho.
Qed.

Lemma for_id_map_del (k : Id) (cur : Membership) :
  ordered cur ->
  for_id k (map (fun p => upd_delete p.1 p.2) cur) = upd_for k (alookup k cur) None.
Proof.
  induction cur as [|[j b] cur IH]; intros Ho; [reflexivity|].
  apply ordered_tail in Ho as [Ho Hf]. simpl map. rewrite for_id_cons. simpl.
  destruct (decide (j = k)) as [->|Hjk].
  - rewrite decide_True by reflexivity. rewrite IH by exact Ho.
    rewrite alookup_above by exact Hf. reflexivity.
  - rewrite decide_False by congruence. apply IH, Ho.
Qed.

(** For each id, the engine emits exactly the update its two entries
    call for. *)
Lemma for_id_cmu (k : Id) (cur des : Membership) :
  ordered cur -> ordered des ->
  for_id k (compute_membership_update cur des) =
  upd_for k (alookup k cur) (alookup k des).
Proof.
  revert des. induction cur as [|[i a] cur IHc]; intros des Hc Hd.
  { rewrite cmu_nil_l, for_id_map_ins by exact Hd. reflexivity. }
  induction des as [|[j b] des IHd].
  { rewrite cmu_nil_r, for_id_map_del by exact Hc.
    destruct (alookup k ((i, a) :: cur)); reflexivity. }
  pose proof Hc as Hc'. pose proof Hd as Hd'.
  apply ordered_tail in Hc' as [Hc1 Hfc]. apply ordered_tail in Hd' as [Hd1 Hfd].
  simpl in Hfc, Hfd.
  rewrite cmu_cons. simpl alookup.
  destruct (decide (i = j)) as [<-|Hij].
  - rewrite for_id_cons. simpl uid. rewrite IHc by assumption.
    destruct (decide (i = k)) as [->|Hik].
    + rewrite !decide_True by reflexivity.
      rewrite !alookup_above by assumption. reflexivity.
    + rewrite !decide_False by congruence. reflexivity.
  - destruct (decide (i < j)%N) as [Hlt|Hge].
    + rewrite for_id_cons. simpl uid. rewrite IHc by assumption. simpl alookup.
      destruct (decide (i = k)) as [->|Hik].
      * rewrite !(decide_True (P := k = k)) by reflexivity.
        rewrite decide_False by congruence.
        rewrite (alookup_above k cur) by assumption.
        rewrite (alookup_above k des)
          by (eapply Forall_impl; [exact Hfd|]; simpl; intros; lia).
        reflexivity.
      * rewrite (decide_False (P := k = i)) by congruence. reflexivity.
    + rewrite for_id_cons. simpl uid. rewrite IHd by assumption. simpl alookup.
      destruct (decide (j = k)) as [->|Hjk].
      * rewrite (decide_True (P := k = k)) by reflexivity.
        rewrite decide_False by congruence.
        rewrite (alookup_above k des) by assumption.
        rewrite (alookup_above k cur)
          by (eapply Forall_impl; [exact Hfc|]; simpl; intros; lia).
        reflexivity.
      * rewrite !(decide_False (P := k = j)) by congruence. reflexivity.
Qed.

Lemma cmu_ids (cur des : Membership) (u : MembershipUpdate) :
  ordered cur -> ordered des -> In u (compute_membership_update cur des) ->
  is_Some (alookup (uid u) cur) \/ is_Some (alookup (uid u) des).
Proof.
  intros Hc Hd Hin.
  assert (Hf : In u (for_id (uid u) (compute_membership_update cur des))).
  { unfold for_id. apply list_elem_of_In, list_elem_of_filter.
    split; [reflexivity|]. apply list_elem_of_In, Hin. }
  rewrite for_id_cmu in Hf by assumption.
  destruct (alookup (uid u) cur), (alookup (uid u) des);
    first [left; eexists; reflexivity | right; eexists; reflexivity | destruct Hf].
Qed.

Lemma cmu_bound (x : Id) (cur des : Membership) :
  ordered cur -> ordered des ->
  Forall (fun p => (x < p.1)%N) cur -> Forall (fun p => (x < p.1)%N) des ->
  Forall (fun u => (x < uid u)%N) (compute_membership_update cur des).
Proof.
  intros Hc Hd Fc Fd. apply List.Forall_forall. intros u Hu.
  destruct (cmu_ids cur des u Hc Hd Hu) as [[a Ha]|[b Hb]].
  - apply alookup_In in Ha. rewrite List.Forall_forall in Fc. exact (Fc _ Ha).
  - apply alookup_In in Hb. rewrite List.Forall_forall in Fd. exact (Fd _ Hb).
Qed.

Lemma cmu_sorted (cur des : Membership) :
  ordered cur -> ordered des ->
  StronglySorted (fun u v => (uid u < uid v)%N) (compute_membership_update cur des).
Proof.
  revert des. induction cur as [|[i a] cur IHc]; intros des Hc Hd.
  { induction des as [|[j b] des IHd]; [constructor|].
    apply ordered_tail in Hd as [Hd1 Hfd].
    rewrite cmu_nil_l. simpl map. rewrite <- cmu_nil_l.
    constructor; [apply IHd, Hd1|].
    apply (cmu_bound j); [constructor|exact Hd1|constructor|exact Hfd]. }
  pose proof Hc as Hc'. apply ordered_tail in Hc' as [Hc1 Hfc]. simpl in Hfc.
  induction des as [|[j b] des IHd].
  { rewrite cmu_nil_r. simpl map. rewrite <- cmu_nil_r.
    constructor; [apply IHc; [exact Hc1|constructor]|].
    apply (cmu_bound i); [exact Hc1|constructor|exact Hfc|constructor]. }
  pose proof Hd as Hd'. apply ordered_tail in Hd' as [Hd1 Hfd]. simpl in Hfd.
  rewrite cmu_cons.
  destruct (decide (i = j)) as [<-|Hij].
  - constructor; [apply IHc; assumption|].
    apply (cmu_bound i); assumption.
  - destruct (decide (i < j)%N) as [Hlt|Hge].
    + constructor; [apply IHc; assumption|].
      apply (cmu_bound i); [exact Hc1|exact Hd|exact Hfc|].
      constructor; [simpl; exact Hlt|].
      eapply Forall_impl; [exact Hfd|]. simpl; intros; lia.
    + constructor; [apply IHd; assumption|].
      apply (cmu_bound j); [exact Hc|exact Hd1| |exact Hfd].
      constructor; [simpl; lia|].
      eapply Forall_impl; [exact Hfc|]. simpl; intros; lia.
Qed.

Lemma apply_update_lookup (m : gmap Id MembershipInfo) (u : MembershipUpdate) (k : Id) :
  apply_update m u !! k =
  if decide (uid u = k) then apply_update_at (m !! k) u else m !! k.
Proof.
  unfold apply_update, apply_update_at.
  destruct (decide (uid u = k)) as [<-|Hk].
  - destruct (decide (current_weight u = 0)); [apply lookup_insert_eq|].
    destruct (decide (new_weight u = 0)); [apply lookup_delete_eq|apply lookup_insert_eq].
  - destruct (decide (current_weight u = 0)); [apply lookup_insert_ne; congruence|].
    destruct (decide (new_weight u = 0));
      [apply lookup_delete_ne; congruence|apply lookup_insert_ne; congruence].
Qed.

Lemma replay_lookup (ups : list MembershipUpdate) (m : gmap Id MembershipInfo) (k : Id) :
  replay m ups !! k = fold_left apply_update_at (for_id k ups) (m !! k).
Proof.
  unfold replay. revert m. induction ups as [|u ups IH]; intros m; [reflexivity|].
  simpl fold_left. rewrite IH, for_id_cons, apply_update_lookup.
  destruct (decide (uid u = k)); reflexivity.
Qed.

End DiffProofs.

(** C2: replaying the update list the engine computes (insertions,
    changes, deletions) on the current membership gives exactly the
    desired membership, for ordered, duplicate-free memberships with
    weights of at least 1. *)
Theorem membership_update_replay (cur des : Membership) :
  ordered cur -> ordered des -> weights_positive cur -> weights_positive des ->
  replay (to_map cur) (compute_membership_update cur des) = to_map des.
Proof.
  intros Hc Hd Pc Pd. apply map_eq. intros k.
  rewrite DiffProofs.replay_lookup, DiffProofs.for_id_cmu by assumption.
  rewrite !DiffProofs.to_map_lookup.
  destruct (alookup k cur) as [a|] eqn:Ea; destruct (alookup k des) as [b|] eqn:Eb;
    simpl; unfold apply_update_at; simpl.
  - apply DiffProofs.alookup_In in Ea, Eb.
    unfold weights_positive in Pc, Pd. rewrite List.Forall_forall in Pc, Pd.
    specialize (Pc _ Ea). specialize (Pd _ Eb). simpl in Pc, Pd.
    rewrite !decide_False by lia. destruct b; reflexivity.
  - apply DiffProofs.alookup_In in Ea.
    unfold weights_positive in Pc. rewrite List.Forall_forall in Pc.
    specialize (Pc _ Ea). simpl in Pc.
    repeat case_decide; try lia; reflexivity.
  - repeat case_decide; try lia; destruct b; reflexivity.
  - reflexivity.
Qed.

Lemma membership_update_replay_witness :
  let w := invalid_watch in
  let cur := [(1%N, mkMembershipInfo 2 w); (3%N, mkMembershipInfo 1 w)] in
  let des := [(1%N, mkMembershipInfo 4 w); (2%N, mkMembershipInfo 1 w)] in
  replay (to_map cur) (compute_membership_update cur des) = to_map des.
Proof.
  intros w cur des. apply membership_update_replay.
  - repeat constructor; simpl; lia.
  - repeat constructor; simpl; lia.
  - repeat constructor; simpl; lia.
  - repeat constructor; simpl; lia.
Defined.

(** C3 (counterexample): an id present in both maps with the same weight
    and watch is emitted (as an update whose current and new values are
    equal). *)
Lemma membership_update_unchanged_counterexample :
  let i := mkMembershipInfo 2 invalid_watch in
  compute_membership_update [(1%N, i)] [(1%N, i)] = [mkUpdate 1 2 2 invalid_watch invalid_watch] /\
  compute_membership_update [(1%N, i)] [(1%N, i)] <> [].
Proof. simpl. split; [reflexivity|discriminate]. Qed.

(** C3 (amended): for ordered, duplicate-free memberships, the engine
    emits, for each id, exactly one update when the id is in either map
    and none when it is in neither: an insertion (current weight 0,
    invalid watch) for an id only in [desired], a deletion (new weight 0,
    invalid watch) for an id only in [current], and an update carrying
    both weights and both watches for an id in both, equal when the entry
    is unchanged; the list is in strictly ascending id order. *)
Theorem membership_update_shape (cur des : Membership) :
  ordered cur -> ordered des ->
  (forall k : Id,
     filter (fun u => uid u = k) (compute_membership_update cur des) =
     match to_map cur !! k, to_map des !! k with
     | Some a, Some b => [mkUpdate k (weight a) (weight b) (mwatch a) (mwatch b)]
     | Some a, None => [mkUpdate k (weight a) 0 (mwatch a) invalid_watch]
     | None, Some b => [mkUpdate k 0 (weight b) invalid_watch (mwatch b)]
     | None, None => []
     end) /\
  StronglySorted (fun u v => (uid u < uid v)%N) (compute_membership_update cur des).
Proof.
  intros Hc Hd. split.
  - intros k. pose proof (DiffProofs.for_id_cmu k cur des Hc Hd) as H.
    unfold for_id in H. rewrite H, !DiffProofs.to_map_lookup.
    destruct (alookup k cur), (alookup k des); reflexivity.
  - apply DiffProofs.cmu_sorted; assumption.
Qed.

Lemma membership_update_shape_witness :
  let w := invalid_watch in
  let cur := [(1%N, mkMembershipInfo 2 w); (3%N, mkMembershipInfo 1 w)] in
  let des := [(1%N, mkMembershipInfo 4 w); (2%N, mkMembershipInfo 1 w)] in
  filter (fun u => uid u = 3%N) (compute_membership_update cur des) =
    [mkUpdate 3 1 0 w invalid_watch].
Proof.
  intros w cur des. refine (proj1 (membership_update_shape cur des _ _) 3%N).
  - repeat constructor; simpl; lia.
  - repeat constructor; simpl; lia.
Defined.

(** ** One-shot groups *)

Module OneshotProofs.

Lemma dev_member_create_ok (a : ActionData) (d d' : Device) (h : N) :
  dev_fresh d -> dev_member_create a d = (Some h, d') ->
  dev_fresh d' /\ dev_members d' !! h = Some a /\
  (forall k v, dev_members d !! k = Some v -> dev_members d' !! k = Some v).
Proof.
  unfold dev_member_create, dev_fresh. intros Hf.
  destruct (dev_ok d); intros H; inversion H; subst; clear H; simpl.
  split; [|split].
  - intros k [v Hv]. destruct (decide (k = dev_next d)) as [->|Hk]; [lia|].
    rewrite lookup_insert_ne in Hv by congruence.
    assert (k < dev_next d)%N by (apply Hf; eexists; exact Hv). lia.
  - apply lookup_insert_eq.
  - intros k v Hv. rewrite lookup_insert_ne; [exact Hv|].
    intros Heq. rewrite <- Heq in Hv.
    assert (dev_next d < dev_next d)%N by (apply Hf; eexists; exact Hv). lia.
Qed.

Lemma create_replicas_ok (a : ActionData) (n : nat) (d d' : Device) (hs : list N) :
  dev_fresh d -> create_replicas a n d = (Some hs, d') ->
  length hs = n /\ dev_fresh d' /\
  (forall k v, dev_members d !! k = Some v -> dev_members d' !! k = Some v) /\
  Forall (fun h => dev_members d' !! h = Some a) hs.
Proof.
  revert d hs. induction n as [|n IH]; intros d hs Hf H; simpl in H.
  - inversion H; subst. split; [reflexivity|]. split; [exact Hf|].
    split; [auto|constructor].
  - destruct (dev_member_create a d) as [[h|] d1] eqn:Ec; [|discriminate].
    destruct (create_replicas a n d1) as [[hs1|] d2] eqn:Er; [|discriminate].
    inversion H; subst; clear H.
    destruct (dev_member_create_ok a d d1 h Hf Ec) as (Hf1 & Hh & Hp1).
    destruct (IH d1 hs1 Hf1 Er) as (Hl & Hf2 & Hp2 & Hall).
    split; [simpl; rewrite Hl; reflexivity|]. split; [exact Hf2|].
    split; [auto|]. constructor; [apply Hp2, Hh|exact Hall].
Qed.

Lemma copies_read (d : Device) (e : ActionProfileAction) (hs : list N) :
  length hs = Z.to_nat (ap_weight e) -> 1 <= ap_weight e ->
  Forall (fun h => dev_members d !! h = Some (ap_action e)) hs ->
  map (read_entry d) (oneshot_copies e hs) = expected_entries e.
Proof.
  intros Hl Hw Hall. destruct hs as [|h hs]; [simpl in Hl; lia|].
  inversion Hall as [|? ? Hh Hr]; subst. simpl. unfold read_entry at 1. simpl.
  rewrite Hh. unfold expected_entries. f_equal.
  simpl in Hl. replace (Z.to_nat (ap_weight e) - 1)%nat with (length hs) by lia.
  clear Hl Hh Hall. induction Hr as [|h' hs' Hh' Hr' IHr]; [reflexivity|].
  simpl. unfold read_entry at 1. simpl. rewrite Hh'. f_equal. exact IHr.
Qed.

Lemma copies_read_mono (d d' : Device) (ms : list OneShotMember) :
  (forall k v, dev_members d !! k = Some v -> dev_members d' !! k = Some v) ->
  Forall (fun m => is_Some (dev_members d !! member_h m)) ms ->
  map (read_entry d') ms = map (read_entry d) ms.
Proof.
  intros Hp Hall. induction Hall as [|m ms [v Hv] Hr IH]; [reflexivity|].
  simpl. f_equal; [|exact IH]. unfold read_entry. rewrite Hv, (Hp _ _ Hv). reflexivity.
Qed.

Lemma oneshot_create_members_ok (es : list ActionProfileAction) (d d' : Device)
    (ms : list OneShotMember) :
  dev_fresh d -> Forall (fun e => 1 <= ap_weight e) es ->
  oneshot_create_members es d = (Some ms, d') ->
  dev_fresh d' /\
  (forall k v, dev_members d !! k = Some v -> dev_members d' !! k = Some v) /\
  Forall (fun m => is_Some (dev_members d' !! member_h m)) ms /\
  map (read_entry d') ms = concat (map expected_entries es).
Proof.
  revert d ms. induction es as [|e es IH]; intros d ms Hf Hw H; simpl in H.
  - inversion H; subst. split; [exact Hf|]. split; [auto|]. split; constructor.
  - inversion Hw as [|? ? He Hes]; subst.
    destruct (create_replicas (ap_action e) (Z.to_nat (ap_weight e)) d)
      as [[hs|] d1] eqn:Ec; [|discriminate].
    destruct (oneshot_create_members es d1) as [[ms1|] d2] eqn:Eo; [|discriminate].
    inversion H; subst; clear H.
    destruct (create_replicas_ok _ _ _ _ _ Hf Ec) as (Hl & Hf1 & Hp1 & Hall1).
    destruct (IH d1 ms1 Hf1 Hes Eo) as (Hf2 & Hp2 & Hs2 & Hr2).
    assert (Hc : Forall (fun m => is_Some (dev_members d1 !! member_h m))
                        (oneshot_copies e hs)).
    { rewrite List.Forall_forall in Hall1 |- *.
      destruct hs as [|h hs]; [intros m []|].
      intros m [<-|Hm].
      - simpl. eexists. apply Hall1. left. reflexivity.
      - apply in_map_iff in Hm as (h' & <- & Hh'). simpl.
        eexists. apply Hall1. right. exact Hh'. }
    split; [exact Hf2|]. split; [auto|]. split.
    + apply Forall_app; split; [|exact Hs2].
      eapply Forall_impl; [exact Hc|]. intros m [v Hv]. eexists; apply Hp2, Hv.
    + rewrite map_app, Hr2.
      change (concat (map expected_entries (e :: es)))
        with (expected_entries e ++ concat (map expected_entries es)).
      f_equal.
      rewrite (copies_read_mono d1 d') by assumption.
      apply copies_read; assumption.
Qed.

Lemma reconstruct_app (l1 l2 : list (option ActionData * Z * WatchPort)) :
  reconstruct (l1 ++ l2) = reconstruct l1 ++ reconstruct l2.
Proof.
  induction l1 as [|[[[a|] w] wt] l1 IH]; simpl; [reflexivity| |exact IH].
  destruct (decide (w = 0)); simpl; rewrite IH; reflexivity.
Qed.

Lemma reconstruct_expected (es : list ActionProfileAction) :
  Forall (fun e => 1 <= ap_weight e) es ->
  reconstruct (concat (map expected_entries es)) = es.
Proof.
  induction 1 as [|e es He Hes IH]; [reflexivity|].
  simpl. rewrite reconstruct_app, IH. unfold expected_entries. simpl.
  rewrite decide_False by lia.
  assert (Hz : forall n, reconstruct (repeat (Some (ap_action e), 0, ap_watch e) n) = []).
  { induction n as [|n IHn]; [reflexivity|]. simpl. exact IHn. }
  rewrite Hz. destruct e; reflexivity.
Qed.

Lemma expected_length (es : list ActionProfileAction) :
  Forall (fun e => 1 <= ap_weight e) es ->
  Z.of_nat (length (concat (map expected_entries es))) = sum_weights es.
Proof.
  induction 1 as [|e es He Hes IH]; [reflexivity|].
  change (concat (map expected_entries (e :: es)))
    with (expected_entries e ++ concat (map expected_entries es)).
  change (sum_weights (e :: es)) with (ap_weight e + sum_weights es).
  rewrite length_app. unfold expected_entries at 1.
  simpl length. rewrite repeat_length. lia.
Qed.

End OneshotProofs.

(** C5: a one-shot group created successfully from an action list (with
    a device whose live handles all lie below its next fresh handle) reads
    back with one entry per replica: for each requested action, its first
    replica with the requested weight, then weight-0 replicas; the number
    of entries is the sum of the weights and the request is recovered from
    the entries of non-zero weight. *)
Theorem oneshot_read_back (s : Oneshot) (es : list ActionProfileAction) (d : Device)
    (gh : N) (s' : Oneshot) (d' : Device) :
  dev_fresh d ->
  oneshot_group_create s es d = (OK, Some gh, s', d') ->
  exists ms, group_get_members s' gh = Some ms /\
    map (read_entry d') ms = concat (map expected_entries es) /\
    Z.of_nat (length ms) = sum_weights es /\
    reconstruct (map (read_entry d') ms) = es.
Proof.
  intros Hf. unfold oneshot_group_create.
  destruct (decide (Forall (fun e => 1 <= ap_weight e) es)) as [Hw|Hw];
    [|intros H; inversion H].
  destruct (oneshot_create_members es d) as [[ms|] d1] eqn:Eo; [|intros H; inversion H].
  destruct (dev_group_create d1) as [[g|] d2] eqn:Eg; [|intros H; inversion H].
  destruct (dev_group_set g (map member_h ms) d2) as [[|] d3] eqn:Es; intros H; inversion H; subst.
  destruct (OneshotProofs.oneshot_create_members_ok es d d1 ms Hf Hw Eo) as (_ & _ & _ & Hr).
  assert (Hm : dev_members d' = dev_members d1).
  { unfold dev_group_create, dev_group_set, dev_tick in *.
    destruct (dev_ok d1); inversion Eg; subst; simpl in Es;
      destruct (dev_ok _); inversion Es; reflexivity. }
  exists ms. split; [unfold group_get_members; apply lookup_insert_eq|].
  assert (Hr' : map (read_entry d') ms = concat (map expected_entries es)).
  { rewrite <- Hr. apply map_ext. intros m. unfold read_entry. rewrite Hm. reflexivity. }
  split; [exact Hr'|]. split.
  - rewrite <- OneshotProofs.expected_length by exact Hw. rewrite <- Hr', length_map. reflexivity.
  - rewrite Hr'. apply OneshotProofs.reconstruct_expected, Hw.
Qed.

Lemma oneshot_read_back_witness :
  let A := mkActionData 1 [7] in
  let B := mkActionData 2 [8] in
  let es := [mkAPAction A 3 invalid_watch; mkAPAction B 1 invalid_watch] in
  let d0 := mkDevice 100 0 (fun _ => false) ∅ ∅ in
  let r := oneshot_group_create ∅ es d0 in
  concat (map expected_entries es) =
    [(Some A, 3, invalid_watch); (Some A, 0, invalid_watch);
     (Some A, 0, invalid_watch); (Some B, 1, invalid_watch)] /\
  exists ms, group_get_members r.1.2 104 = Some ms /\
    map (read_entry r.2) ms = concat (map expected_entries es) /\
    Z.of_nat (length ms) = sum_weights es /\
    reconstruct (map (read_entry r.2) ms) = es.
Proof.
  intros A B es d0 r. split; [reflexivity|].
  apply (oneshot_read_back ∅ es d0 104 r.1.2 r.2).
  - intros k [v Hv]. discriminate Hv.
  - vm_compute. reflexivity.
Defined.

(** ** Roll-back of replica creation *)

Module RollbackProofs.

Lemma dev_member_delete_fails (h : N) (d : Device) :
  dev_fails (snd (dev_member_delete h d)) = dev_fails d /\
  dev_calls (snd (dev_member_delete h d)) = S (dev_calls d).
Proof. unfold dev_member_delete, dev_tick. destruct (dev_ok d); split; reflexivity. Qed.

(** Only the call [dev_calls d + k] fails: replica creation reports the
    failure, leaves the device's member table as it found it, and has
    issued at least [k + 1] calls. *)
Lemma create_replicas_kth_failure (a : ActionData) (n k : nat) (d : Device) :
  dev_fresh d -> (k < n)%nat ->
  (forall i, dev_fails d i = Nat.eqb i (dev_calls d + k)) ->
  exists d', create_replicas a n d = (None, d') /\
    dev_members d' = dev_members d /\ dev_fails d' = dev_fails d /\
    (dev_calls d + k < dev_calls d')%nat.
Proof.
  revert k d. induction n as [|n IH]; intros k d Hf Hk Hfl; [lia|].
  simpl. unfold dev_member_create, dev_ok. rewrite Hfl.
  destruct k as [|k].
  - rewrite Nat.add_0_r, Nat.eqb_refl. simpl.
    eexists. split; [reflexivity|]. simpl. split; [reflexivity|]. split; [reflexivity|]. lia.
  - assert (Hne : Nat.eqb (dev_calls d) (dev_calls d + S k) = false)
      by (apply Nat.eqb_neq; lia).
    rewrite Hne. simpl.
    set (d1 := mkDevice (dev_next d + 1) (S (dev_calls d)) (dev_fails d)
                        (<[dev_next d:=a]> (dev_members d)) (dev_groups d)).
    assert (Hf1 : dev_fresh d1).
    { intros j [v Hv]. simpl in Hv |- *.
      destruct (decide (j = dev_next d)) as [->|Hj]; [lia|].
      rewrite lookup_insert_ne in Hv by congruence.
      assert (j < dev_next d)%N by (apply Hf; eexists; exact Hv). lia. }
    assert (Hfl1 : forall i, dev_fails d1 i = Nat.eqb i (dev_calls d1 + k)).
    { intros i. simpl. rewrite Hfl. f_equal. lia. }
    destruct (IH k d1 Hf1 ltac:(lia) Hfl1) as (d2 & E2 & Hm2 & Hfl2 & Hc2).
    rewrite E2. eexists. split; [reflexivity|].
    unfold dev_member_delete, dev_ok. rewrite Hfl2. simpl dev_fails.
    rewrite Hfl. simpl in Hc2.
    assert (Hne2 : Nat.eqb (dev_calls d2) (dev_calls d + S k) = false)
      by (apply Nat.eqb_neq; lia).
    rewrite Hne2. simpl. rewrite Hm2. simpl.
    split; [|split; [reflexivity|lia]].
    apply delete_insert_id.
    destruct (dev_members d !! dev_next d) as [v|] eqn:Ev; [|reflexivity].
    assert (dev_next d < dev_next d)%N by (apply Hf; eexists; exact Ev). lia.
Qed.

Lemma group_update_members_error (mm : MemberMap) (gh : N) (cur des : Membership)
    (d : Device) :
  o_status (group_update_members mm gh cur des d) <> OK ->
  o_state (group_update_members mm gh cur des d) = mm.
Proof.
  unfold group_update_members.
  destruct (phase_create _ mm d []) as [[[st mm1] d1] created].
  destruct st; simpl; try reflexivity.
  destruct (dev_group_set gh (group_handles mm1 des) d1) as [[|] d2]; simpl; [|reflexivity].
  destruct (phase_purge _ mm1 d2 false) as [[crit mm3] d3]. simpl. congruence.
Qed.

Lemma oneshot_group_create_error (s : Oneshot) (es : list ActionProfileAction) (d : Device) :
  (oneshot_group_create s es d).1.1.1 <> OK -> (oneshot_group_create s es d).1.2 = s.
Proof.
  unfold oneshot_group_create.
  destruct (decide _); [|reflexivity].
  destruct (oneshot_create_members es d) as [[ms|] d1]; [|reflexivity].
  destruct (dev_group_create d1) as [[g|] d2]; [|reflexivity].
  destruct (dev_group_set g _ d2) as [[|] d3]; simpl; [congruence|reflexivity].
Qed.

End RollbackProofs.

Module DevRollbackProofs.

Lemma grows_refl (d : Device) : dev_fresh d -> grows d d [].
Proof.
  intros Hf. split; [exact Hf|]. split; [reflexivity|]. split; [lia|].
  split; [reflexivity|]. intros k Hk. apply elem_of_nil in Hk. contradiction.
Qed.

Lemma grows_trans (d1 d2 d3 : Device) (h1 h2 : list N) :
  grows d1 d2 h1 -> grows d2 d3 h2 -> grows d1 d3 (h1 ++ h2).
Proof.
  intros (_ & F1 & C1 & M1 & N1) (Hf3 & F2 & C2 & M2 & N2).
  split; [exact Hf3|]. split; [congruence|]. split; [lia|]. split.
  - intros k Hk. rewrite elem_of_app in Hk.
    rewrite M2, M1; [reflexivity| |]; intros H; apply Hk; auto.
  - intros k Hk. apply elem_of_app in Hk.
    destruct (decide (k ∈ h1)) as [H|H]; [exact (N1 k H)|].
    destruct Hk as [Hk|Hk]; [contradiction|]. rewrite <- (M1 k H). exact (N2 k Hk).
Qed.

Lemma member_create_ok (a : ActionData) (d : Device) :
  dev_fresh d -> dev_ok d = true ->
  exists d', dev_member_create a d = (Some (dev_next d), d') /\ grows d d' [dev_next d] /\
    dev_calls d' = S (dev_calls d).
Proof.
  intros Hf Hok. unfold dev_member_create. rewrite Hok. eexists. split; [reflexivity|].
  split; [|reflexivity]. split.
  { intros k [v Hv]. simpl in *. destruct (decide (k = dev_next d)) as [->|Hk]; [lia|].
    rewrite lookup_insert_ne in Hv by congruence.
    assert (k < dev_next d)%N by (apply Hf; eexists; exact Hv). lia. }
  simpl. split; [reflexivity|]. split; [lia|]. split.
  - intros k Hk. rewrite lookup_insert_ne; [reflexivity|]. intros E. apply Hk. rewrite E. left.
  - intros k Hk. apply list_elem_of_singleton in Hk. subst k.
    destruct (dev_members d !! dev_next d) eqn:E; [|reflexivity].
    assert (dev_next d < dev_next d)%N by (apply Hf; eexists; exact E). lia.
Qed.

Lemma tick_grows (d : Device) : dev_fresh d -> grows d (dev_tick d) [].
Proof.
  intros Hf. split; [exact Hf|]. simpl. split; [reflexivity|]. split; [lia|].
  split; [reflexivity|]. intros k Hk. apply elem_of_nil in Hk. contradiction.
Qed.

Lemma member_delete_fresh (h : N) (d : Device) :
  dev_fresh d -> dev_fresh (snd (dev_member_delete h d)).
Proof.
  intros Hf k [v Hv]. unfold dev_member_delete, dev_tick in *.
  destruct (dev_ok d); simpl in *; [|apply Hf; eexists; exact Hv].
  destruct (decide (k = h)) as [->|Hk]; [rewrite lookup_delete_eq in Hv; discriminate|].
  rewrite lookup_delete_ne in Hv by congruence. apply Hf. eexists; exact Hv.
Qed.

Lemma delete_all_calm (hs : list N) (d : Device) :
  calm d -> dev_fresh d ->
  dev_fresh (dev_delete_all hs d) /\
  forall k, dev_members (dev_delete_all hs d) !! k =
            if decide (k ∈ hs) then None else dev_members d !! k.
Proof.
  revert d. induction hs as [|h hs IH]; intros d Hc Hf; cbn [dev_delete_all].
  - split; [exact Hf|]. intros k.
    destruct (decide (k ∈ [])) as [H|H]; [apply elem_of_nil in H; contradiction|reflexivity].
  - assert (Hok : dev_ok d = true) by (unfold dev_ok; rewrite (Hc (dev_calls d)); [reflexivity|lia]).
    assert (Hc' : calm (snd (dev_member_delete h d))).
    { unfold dev_member_delete. rewrite Hok. intros i Hi. simpl in *. apply Hc. lia. }
    destruct (IH _ Hc' (member_delete_fresh h d Hf)) as [Hf' Hm].
    split; [exact Hf'|]. intros k. rewrite Hm.
    unfold dev_member_delete. rewrite Hok. cbn [snd dev_members].
    destruct (decide (k ∈ hs)) as [H|H]; destruct (decide (k ∈ h :: hs)) as [H'|H'].
    + reflexivity.
    + exfalso. apply H'. apply elem_of_cons. right. exact H.
    + apply elem_of_cons in H'. destruct H' as [->|H']; [|contradiction].
      apply lookup_delete_eq.
    + apply lookup_delete_ne. intros ->. apply H'. apply elem_of_cons. left. reflexivity.
Qed.

(** Deleting, with every call succeeding, the entries a device grew by
    gives back the device's member table. *)
Lemma delete_all_undo (d0 d1 : Device) (hs : list N) :
  grows d0 d1 hs -> calm d1 ->
  dev_members (dev_delete_all hs d1) = dev_members d0.
Proof.
  intros (Hf & _ & _ & M & Nn) Hc. destruct (delete_all_calm hs d1 Hc Hf) as [_ Hm].
  apply map_eq. intros k. rewrite Hm. destruct (decide (k ∈ hs)) as [H|H].
  - symmetry. exact (Nn k H).
  - exact (M k H).
Qed.

Lemma create_replicas_some (a : ActionData) (n : nat) (d d' : Device) (hs : list N) :
  dev_fresh d -> create_replicas a n d = (Some hs, d') -> grows d d' hs.
Proof.
  revert d d' hs. induction n as [|n IH]; intros d d' hs Hf; simpl.
  - intros H. inversion H; subst. apply grows_refl, Hf.
  - destruct (dev_ok d) eqn:Hok.
    + destruct (member_create_ok a d Hf Hok) as (d1 & E1 & G1 & _). rewrite E1.
      destruct (create_replicas a n d1) as [[hs1|] d2] eqn:E2; intros H; inversion H; subst.
      apply (grows_trans _ _ _ [dev_next d] hs1 G1). apply IH; [apply G1|exact E2].
    + unfold dev_member_create. rewrite Hok. discriminate.
Qed.

(** Under a device whose only failing call is the [c]-th: *)
Section SingleFailure.
Variable c : nat.

Lemma single_calm (d : Device) : single c d -> (c < dev_calls d)%nat -> calm d.
Proof. intros Hs Hc i Hi. rewrite Hs. apply Nat.eqb_neq. lia. Qed.

Lemma single_grows (d d' : Device) (hs : list N) : single c d -> grows d d' hs -> single c d'.
Proof. intros Hs (_ & F & _) i. rewrite F. apply Hs. Qed.

Lemma single_fail (d : Device) : single c d -> dev_ok d = false -> dev_calls d = c.
Proof. unfold dev_ok. intros Hs. rewrite Hs. destruct (Nat.eqb_spec (dev_calls d) c); [auto|discriminate]. Qed.

Lemma create_replicas_none (a : ActionData) (n : nat) (d d' : Device) :
  dev_fresh d -> single c d -> create_replicas a n d = (None, d') ->
  grows d d' [] /\ (c < dev_calls d')%nat.
Proof.
  revert d d'. induction n as [|n IH]; intros d d' Hf Hs; simpl; [discriminate|].
  destruct (dev_ok d) eqn:Hok.
  - destruct (member_create_ok a d Hf Hok) as (d1 & E1 & G1 & _). rewrite E1.
    destruct (create_replicas a n d1) as [[hs1|] d2] eqn:E2; intros H; inversion H; subst.
    destruct (IH d1 d2 (proj1 G1) (single_grows _ _ _ Hs G1) E2) as [G2 Hc2].
    pose proof (grows_trans _ _ _ _ _ G1 G2) as G12. simpl in G12.
    assert (Hcalm : calm d2) by (apply single_calm; [exact (single_grows _ _ _ Hs G12)|exact Hc2]).
    assert (Hm := delete_all_undo _ _ _ G12 Hcalm). simpl in Hm.
    destruct (delete_all_calm [dev_next d] d2 Hcalm (proj1 G2)) as [Hf' _].
    simpl in Hf'. destruct G12 as (_ & F & C & _).
    assert (Hok2 : dev_ok d2 = true) by (unfold dev_ok; rewrite (Hcalm (dev_calls d2)); [reflexivity|lia]).
    split; [|unfold dev_member_delete; rewrite Hok2; simpl; lia].
    split; [exact Hf'|]. unfold dev_member_delete in *. rewrite Hok2 in *. simpl in *.
    split; [exact F|]. split; [lia|]. split.
    + intros k _. rewrite Hm. reflexivity.
    + intros k Hk. apply elem_of_nil in Hk. contradiction.
  - unfold dev_member_create. rewrite Hok. intros H. inversion H; subst.
    split; [apply tick_grows, Hf|]. simpl. rewrite (single_fail d Hs Hok). lia.
Qed.

Lemma phase_create_single (ups : list MembershipUpdate) (mm : MemberMap) (d : Device)
    (created : list N) (st : Status) (mm1 : MemberMap) (d1 : Device) (created1 : list N) :
  dev_fresh d -> single c d -> phase_create ups mm d created = (st, mm1, d1, created1) ->
  exists new, created1 = created ++ new /\ grows d d1 new /\
    (st = INTERNAL -> (c < dev_calls d1)%nat).
Proof.
  revert mm d created. induction ups as [|u ups IH]; intros mm d created Hf Hs; simpl.
  - intros H. inversion H; subst. exists []. rewrite app_nil_r.
    split; [reflexivity|]. split; [apply grows_refl, Hf|discriminate].
  - destruct (decide (0 < new_weight u)); [|apply IH; assumption].
    destruct (mm !! uid u) as [ms|]; [|intros H; inversion H; subst; exists [];
      rewrite app_nil_r; split; [reflexivity|]; split; [apply grows_refl, Hf|discriminate]].
    unfold create_missing_weighted_members.
    destruct (create_replicas _ _ d) as [[hs|] d'] eqn:E.
    + intros H. pose proof (create_replicas_some _ _ _ _ _ Hf E) as G.
      cbn [handles] in H. rewrite drop_app_length in H.
      destruct (IH _ _ _ (proj1 G) (single_grows _ _ _ Hs G) H) as (new & -> & G' & Hi).
      exists (hs ++ new). rewrite app_assoc. split; [reflexivity|].
      split; [exact (grows_trans _ _ _ _ _ G G')|exact Hi].
    + intros H. inversion H; subst.
      destruct (create_replicas_none _ _ _ _ Hf Hs E) as [G Hc].
      exists []. rewrite app_nil_r. split; [reflexivity|]. split; [exact G|]. intros _; exact Hc.
Qed.

(** A [group_update_members] that fails with [INTERNAL] (a replica
    creation or the group programming failed) deletes every replica it
    created: the device's member table is as before. *)
Lemma gum_rollback (mm : MemberMap) (gh : N) (cur des : Membership) (d : Device) :
  dev_fresh d -> single c d ->
  o_status (group_update_members mm gh cur des d) = INTERNAL ->
  dev_members (o_dev (group_update_members mm gh cur des d)) = dev_members d.
Proof.
  intros Hf Hs. unfold group_update_members.
  destruct (phase_create _ mm d []) as [[[st mm1] d1] created] eqn:E.
  destruct (phase_create_single _ _ _ _ _ _ _ _ Hf Hs E) as (new & Hn & G & Hi).
  simpl in Hn. subst created.
  destruct st; simpl; try discriminate.
  - destruct (dev_group_set gh (group_handles mm1 des) d1) as [[|] d2] eqn:Es.
    + destruct (phase_purge _ mm1 d2 false) as [[crit mm3] d3]. simpl. discriminate.
    + intros _. simpl. unfold dev_group_set in Es.
      destruct (dev_ok d1) eqn:Hok; [discriminate|]. inversion Es; subst.
      assert (Hc1 := single_fail d1 (single_grows _ _ _ Hs G) Hok).
      assert (G2 : grows d (dev_tick d1) new).
      { rewrite <- (app_nil_r new). apply (grows_trans _ d1); [exact G|apply tick_grows, G]. }
      apply (delete_all_undo _ _ _ G2). apply single_calm; [exact (single_grows _ _ _ Hs G2)|].
      simpl. lia.
  - intros _. apply (delete_all_undo _ _ _ G). apply single_calm;
      [exact (single_grows _ _ _ Hs G)|apply Hi; reflexivity].
Qed.

Lemma oneshot_members_some (es : list ActionProfileAction) (d d' : Device)
    (ms : list OneShotMember) :
  dev_fresh d -> oneshot_create_members es d = (Some ms, d') -> grows d d' (map member_h ms).
Proof.
  revert d d' ms. induction es as [|e es IH]; intros d d' ms Hf; simpl.
  - intros H. inversion H; subst. apply grows_refl, Hf.
  - destruct (create_replicas _ _ d) as [[hs|] d1] eqn:E1; [|discriminate].
    destruct (oneshot_create_members es d1) as [[ms1|] d2] eqn:E2; intros H; inversion H; subst.
    pose proof (create_replicas_some _ _ _ _ _ Hf E1) as G1.
    pose proof (IH _ _ _ (proj1 G1) E2) as G2.
    assert (Hh : map member_h (oneshot_copies e hs) = hs).
    { destruct hs as [|h hs']; simpl; [reflexivity|]. f_equal.
      rewrite map_map. simpl. apply map_id. }
    rewrite map_app, Hh. exact (grows_trans _ _ _ _ _ G1 G2).
Qed.

Lemma oneshot_members_none (es : list ActionProfileAction) (d d' : Device) :
  dev_fresh d -> single c d -> oneshot_create_members es d = (None, d') ->
  grows d d' [] /\ (c < dev_calls d')%nat.
Proof.
  revert d d'. induction es as [|e es IH]; intros d d' Hf Hs; simpl; [discriminate|].
  destruct (create_replicas _ _ d) as [[hs|] d1] eqn:E1.
  - destruct (oneshot_create_members es d1) as [[ms1|] d2] eqn:E2; intros H; inversion H; subst.
    pose proof (create_replicas_some _ _ _ _ _ Hf E1) as G1.
    destruct (IH _ _ (proj1 G1) (single_grows _ _ _ Hs G1) E2) as [G2 Hc2].
    pose proof (grows_trans _ _ _ _ _ G1 G2) as G12. rewrite app_nil_r in G12.
    assert (Hcalm : calm d2) by (apply single_calm; [exact (single_grows _ _ _ Hs G12)|exact Hc2]).
    assert (Hm := delete_all_undo _ _ _ G12 Hcalm).
    destruct (delete_all_calm hs d2 Hcalm (proj1 G2)) as [Hf' _].
    destruct G12 as (_ & F & C & _).
    assert (Hcl : (dev_calls d2 <= dev_calls (dev_delete_all hs d2))%nat /\
                  dev_fails (dev_delete_all hs d2) = dev_fails d2).
    { clear. revert d2. induction hs as [|h hs IH]; intros d2; simpl; [split; [lia|reflexivity]|].
      destruct (IH (snd (dev_member_delete h d2))) as [IH1 IH2].
      unfold dev_member_delete, dev_tick in *. destruct (dev_ok d2); simpl in *; split; lia || congruence. }
    split; [|lia]. split; [exact Hf'|]. split; [destruct Hcl; congruence|]. split; [lia|].
    split; [intros k _; rewrite Hm; reflexivity|].
    intros k Hk. apply elem_of_nil in Hk. contradiction.
  - intros H. inversion H; subst. exact (create_replicas_none _ _ _ _ Hf Hs E1).
Qed.

(** A failing one-shot [group_create] deletes every replica it created. *)
Lemma oneshot_rollback (s : Oneshot) (es : list ActionProfileAction) (d : Device) :
  dev_fresh d -> single c d ->
  (oneshot_group_create s es d).1.1.1 <> OK ->
  dev_members (oneshot_group_create s es d).2 = dev_members d.
Proof.
  intros Hf Hs. unfold oneshot_group_create.
  destruct (decide _); [|reflexivity].
  destruct (oneshot_create_members es d) as [[ms|] d1] eqn:E1.
  2: { intros _. destruct (oneshot_members_none _ _ _ Hf Hs E1) as [(_ & _ & _ & M & _) _].
       simpl. apply map_eq. intros k. apply M. intros Hk; apply elem_of_nil in Hk; exact Hk. }
  pose proof (oneshot_members_some _ _ _ _ Hf E1) as G1.
  destruct (dev_group_create d1) as [[g|] d2] eqn:Eg.
  - assert (G2 : grows d d2 (map member_h ms)).
    { rewrite <- (app_nil_r (map member_h ms)). apply (grows_trans _ d1); [exact G1|].
      unfold dev_group_create in Eg. destruct (dev_ok d1); inversion Eg; subst.
      split; [intros k [v Hv]; simpl in *; assert (k < dev_next d1)%N by (apply (proj1 G1); eexists; exact Hv); lia|].
      simpl. split; [reflexivity|]. split; [lia|]. split; [reflexivity|].
      intros k Hk. apply elem_of_nil in Hk. contradiction. }
    destruct (dev_group_set g (map member_h ms) d2) as [[|] d3] eqn:Es; simpl; [congruence|].
    intros _. unfold dev_group_set in Es. destruct (dev_ok d2) eqn:Hok; [discriminate|].
    inversion Es; subst. assert (Hc2 := single_fail d2 (single_grows _ _ _ Hs G2) Hok).
    assert (G3 : grows d (snd (dev_group_delete g (dev_tick d2))) (map member_h ms)).
    { rewrite <- (app_nil_r (map member_h ms)). apply (grows_trans _ d2); [exact G2|].
      unfold dev_group_delete. destruct (dev_ok (dev_tick d2)); unfold dev_tick; simpl;
        (split; [intros k [v Hv]; simpl in *; apply (proj1 G2); eexists; exact Hv|]);
        simpl; (split; [reflexivity|]); (split; [lia|]); (split; [reflexivity|]);
        intros k Hk; apply elem_of_nil in Hk; contradiction. }
    apply (delete_all_undo _ _ _ G3). apply single_calm; [exact (single_grows _ _ _ Hs G3)|].
    unfold dev_group_delete. destruct (dev_ok (dev_tick d2)); unfold dev_tick; simpl; lia.
  - intros _. simpl. unfold dev_group_create in Eg.
    destruct (dev_ok d1) eqn:Hok; [discriminate|]. inversion Eg; subst.
    assert (Hc1 := single_fail d1 (single_grows _ _ _ Hs G1) Hok).
    assert (G2 : grows d (dev_tick d1) (map member_h ms)).
    { rewrite <- (app_nil_r (map member_h ms)). apply (grows_trans _ d1); [exact G1|apply tick_grows, G1]. }
    apply (delete_all_undo _ _ _ G2). apply single_calm; [exact (single_grows _ _ _ Hs G2)|].
    simpl. lia.
Qed.

End SingleFailure.

End DevRollbackProofs.

(** C6: when, of the [n] replicas one creation call must make, the
    [k]-th call fails (and the device accepts every other call), the
    creation reports the failure and the [k - 1] replicas already created
    are deleted again, so the device's member table is as before; the
    enclosing [create_missing_weighted_members] then fails and leaves the
    member's replica list unchanged; a failing [group_update_members]
    leaves the whole weighted-member store unchanged; a failing
    one-shot [group_create] leaves the one-shot store unchanged; and, on
    the device, when its only failing call is a replica creation or the
    programming of the group (so that the clean-up calls succeed), a
    [group_update_members] that fails with [INTERNAL], or a failing
    one-shot [group_create], deletes every replica it created, those of
    the members handled before the failure included: the device's member
    table is as before the operation. *)
Theorem replica_creation_rollback :
  (forall (a : ActionData) (n k : nat) (d : Device),
      dev_fresh d -> (k < n)%nat ->
      (forall i, dev_fails d i = Nat.eqb i (dev_calls d + k)) ->
      exists d', create_replicas a n d = (None, d') /\ dev_members d' = dev_members d) /\
  (forall (ms : MemberState) (u : MembershipUpdate) (d : Device),
      let missing := (Z.to_nat (wc_max (wc_incr (new_weight u) (weight_counts ms)))
                      - length (handles ms))%nat in
      (create_replicas (action_data ms) missing d).1 = None ->
      (create_missing_weighted_members ms u d).1 = (INTERNAL, ms)) /\
  (forall (mm : MemberMap) (gh : N) (cur des : Membership) (d : Device),
      o_status (group_update_members mm gh cur des d) <> OK ->
      o_state (group_update_members mm gh cur des d) = mm) /\
  (forall (s : Oneshot) (es : list ActionProfileAction) (d : Device),
      (oneshot_group_create s es d).1.1.1 <> OK ->
      (oneshot_group_create s es d).1.2 = s) /\
  (forall (c : nat) (mm : MemberMap) (gh : N) (cur des : Membership) (d : Device),
      dev_fresh d -> (forall i, dev_fails d i = Nat.eqb i c) ->
      o_status (group_update_members mm gh cur des d) = INTERNAL ->
      dev_members (o_dev (group_update_members mm gh cur des d)) = dev_members d) /\
  (forall (c : nat) (s : Oneshot) (es : list ActionProfileAction) (d : Device),
      dev_fresh d -> (forall i, dev_fails d i = Nat.eqb i c) ->
      (oneshot_group_create s es d).1.1.1 <> OK ->
      dev_members (oneshot_group_create s es d).2 = dev_members d).
Proof.
  split; [|split; [|split; [|split; [|split]]]].
  - intros a n k d Hf Hk Hfl.
    destruct (RollbackProofs.create_replicas_kth_failure a n k d Hf Hk Hfl)
      as (d' & E & Hm & _). exists d'. split; assumption.
  - intros ms u d missing H. unfold create_missing_weighted_members.
    fold missing. destruct (create_replicas (action_data ms) missing d) as [[hs|] d'];
      simpl in H; [discriminate|reflexivity].
  - apply RollbackProofs.group_update_members_error.
  - apply RollbackProofs.oneshot_group_create_error.
  - intros c. apply DevRollbackProofs.gum_rollback.
  - intros c. apply DevRollbackProofs.oneshot_rollback.
Qed.

Lemma replica_creation_rollback_witness :
  (let a := mkActionData 1 [7] in
   let d := mkDevice 100 5 (fun i => Nat.eqb i (5 + 2)) ∅ ∅ in
   dev_fresh d /\
   exists d', create_replicas a 4%nat d = (None, d') /\ dev_members d' = dev_members d) /\
  (let A := mkActionData 1 [7] in
   let mm : MemberMap := <[1%N := mkMemberState A [] ∅]> (<[2%N := mkMemberState A [] ∅]> ∅) in
   let des := [(1%N, mkMembershipInfo 2 invalid_watch); (2%N, mkMembershipInfo 2 invalid_watch)] in
   let d := mkDevice 100 0 (fun i => Nat.eqb i 3) ∅ ∅ in
   dev_fresh d /\ o_status (group_update_members mm 50 [] des d) = INTERNAL /\
   dev_members (o_dev (group_update_members mm 50 [] des d)) = dev_members d) /\
  (let A := mkActionData 1 [7] in
   let B := mkActionData 2 [8] in
   let es := [mkAPAction A 2 invalid_watch; mkAPAction B 1 invalid_watch] in
   let d := mkDevice 100 0 (fun i => Nat.eqb i 3) ∅ ∅ in
   dev_fresh d /\ (oneshot_group_create ∅ es d).1.1.1 = INTERNAL /\
   dev_members (oneshot_group_create ∅ es d).2 = dev_members d).
Proof.
  split; [|split].
  - intros a d.
    assert (Hf : dev_fresh d) by (intros k [v Hv]; discriminate Hv).
    split; [exact Hf|].
    apply (proj1 replica_creation_rollback a 4%nat 2%nat d Hf).
    + lia.
    + intros i. reflexivity.
  - intros A mm des d.
    assert (Hf : dev_fresh d) by (intros k [v Hv]; discriminate Hv).
    assert (Hs : o_status (group_update_members mm 50 [] des d) = INTERNAL)
      by (vm_compute; reflexivity).
    split; [exact Hf|]. split; [exact Hs|].
    exact (proj1 (proj2 (proj2 (proj2 (proj2 replica_creation_rollback))))
             3%nat mm 50%N [] des d Hf (fun i => eq_refl) Hs).
  - intros A B es d.
    assert (Hf : dev_fresh d) by (intros k [v Hv]; discriminate Hv).
    assert (Hs : (oneshot_group_create ∅ es d).1.1.1 = INTERNAL) by (vm_compute; reflexivity).
    split; [exact Hf|]. split; [exact Hs|].
    refine (proj2 (proj2 (proj2 (proj2 (proj2 replica_creation_rollback))))
             3%nat ∅ es d Hf (fun i => eq_refl) _).
    rewrite Hs. discriminate.
Defined.

(** ** Post-commit purge failures *)

Module PurgeProofs.

Lemma phase_purge_crit_mono (ups : list MembershipUpdate) (mm : MemberMap) (d : Device) :
  (phase_purge ups mm d true).1.1 = true.
Proof.
  revert mm d. induction ups as [|u ups IH]; intros mm d; simpl; [reflexivity|].
  destruct (decide (0 < current_weight u)); [|apply IH].
  destruct (mm !! uid u) as [ms|]; [|apply IH].
  destruct (purge_unused_weighted_members_wrapper _ d) as [[rep ms2] d'].
  apply IH.
Qed.

Lemma phase_purge_head_failure (u : MembershipUpdate) (ups : list MembershipUpdate)
    (mm : MemberMap) (d : Device) (crit : bool) (ms : MemberState) :
  0 < current_weight u -> mm !! uid u = Some ms ->
  IS_ERROR (purge_unused_weighted_members
              (set_weight_counts ms (wc_decr (current_weight u) (weight_counts ms))) d).1.1
    = true ->
  (phase_purge (u :: ups) mm d crit).1.1 = true.
Proof.
  intros Hw Hm He. simpl. rewrite decide_True by exact Hw. rewrite Hm.
  unfold purge_unused_weighted_members_wrapper.
  destruct (purge_unused_weighted_members _ d) as [[st ms2] d'] eqn:E.
  simpl in He. rewrite He. rewrite bool_decide_true by reflexivity.
  rewrite orb_true_r. apply phase_purge_crit_mono.
Qed.

End PurgeProofs.

(** C8: once the replicas are created and the device group is
    programmed, [group_update_members] returns [OK] whatever the purge
    does; a failed purge of a member's replicas is turned into a critical
    report, which the outcome carries; [group_modify] returns [OK] and
    passes the critical flag on when the update succeeded. *)
Theorem purge_failure_keeps_status :
  (forall (ms : MemberState) (d : Device),
      IS_ERROR (purge_unused_weighted_members ms d).1.1 = true ->
      (purge_unused_weighted_members_wrapper ms d).1.1 = Some Critical) /\
  (forall (mm : MemberMap) (gh : N) (cur des : Membership) (d : Device)
          (mm1 : MemberMap) (d1 : Device) (created : list N) (d2 : Device),
      let ups := compute_membership_update cur des in
      phase_create ups mm d [] = (OK, mm1, d1, created) ->
      dev_group_set gh (group_handles mm1 des) d1 = (true, d2) ->
      o_status (group_update_members mm gh cur des d) = OK /\
      o_critical (group_update_members mm gh cur des d) = (phase_purge ups mm1 d2 false).1.1) /\
  (forall (u : MembershipUpdate) (ups : list MembershipUpdate) (mm : MemberMap)
          (d : Device) (crit : bool) (ms : MemberState),
      0 < current_weight u -> mm !! uid u = Some ms ->
      IS_ERROR (purge_unused_weighted_members
                  (set_weight_counts ms (wc_decr (current_weight u) (weight_counts ms))) d).1.1
        = true ->
      (phase_purge (u :: ups) mm d crit).1.1 = true) /\
  (forall (ups : list MembershipUpdate) (mm : MemberMap) (d : Device),
      (phase_purge ups mm d true).1.1 = true) /\
  (forall (s : Manual) (g : GroupMsg) (d : Device) (gh : N) (gm : ActionProfGroupMembership)
          (des : Membership),
      ActionProfBiMap.retrieve_handle (group_id g) (group_bimap s) = Some gh ->
      group_members s !! group_id g = Some gm ->
      validate_membership (member_map s) (msg_members g) = inr des ->
      o_status (group_update_members (member_map s) gh (members gm) des d) = OK ->
      g_status (group_modify s g d) = OK /\
      g_critical (group_modify s g d) =
        o_critical (group_update_members (member_map s) gh (members gm) des d)).
Proof.
  split; [|split; [|split; [|split]]].
  - intros ms d H. unfold purge_unused_weighted_members_wrapper.
    destruct (purge_unused_weighted_members ms d) as [[st ms'] d']. simpl in *.
    rewrite H. reflexivity.
  - intros mm gh cur des d mm1 d1 created d2 ups H1 H2.
    unfold group_update_members. fold ups. rewrite H1, H2.
    destruct (phase_purge ups mm1 d2 false) as [[crit mm3] d3]. split; reflexivity.
  - apply PurgeProofs.phase_purge_head_failure.
  - apply PurgeProofs.phase_purge_crit_mono.
  - intros s g d gh gm des Hh Hg Hv Ho. unfold group_modify. rewrite Hh, Hg, Hv.
    rewrite Ho. split; reflexivity.
Qed.

Lemma purge_failure_keeps_status_witness :
  let A := mkActionData 1 [7] in
  let w := invalid_watch in
  let mm : MemberMap := <[1%N := mkMemberState A [100; 101; 102; 103; 104]%N {[5 := 1]}]> ∅ in
  let cur := [(1%N, mkMembershipInfo 5 w)] in
  let des := [(1%N, mkMembershipInfo 1 w)] in
  let d := mkDevice 200 0 (fun i => Nat.eqb i 1) ∅ ∅ in
  let o := group_update_members mm 50 cur des d in
  (o_status o = OK /\
   o_critical o = (phase_purge (compute_membership_update cur des)
                     (phase_create (compute_membership_update cur des) mm d []).1.1.2
                     (dev_group_set 50 (group_handles
                        (phase_create (compute_membership_update cur des) mm d []).1.1.2 des)
                        (phase_create (compute_membership_update cur des) mm d []).1.2).2
                     false).1.1) /\
  o_critical o = true.
Proof.
  intros A w mm cur des d o. split; [|vm_compute; reflexivity].
  set (pc := phase_create (compute_membership_update cur des) mm d []).
  apply (proj1 (proj2 purge_failure_keeps_status) mm 50%N cur des d pc.1.1.2 pc.1.2 pc.2).
  - vm_compute. reflexivity.
  - vm_compute. reflexivity.
Defined.

Module HistProofs.

Lemma wc_incr_comm (a b : Z) (h : gmap Z Z) :
  wc_incr a (wc_incr b h) = wc_incr b (wc_incr a h).
Proof.
  destruct (decide (a = b)) as [->|Hab]; [reflexivity|].
  unfold wc_incr. rewrite (lookup_insert_ne _ b a) by congruence.
  rewrite (lookup_insert_ne _ a b) by congruence.
  apply insert_insert_ne. exact Hab.
Qed.

Lemma hist_perm (ws ws' : list Z) : ws ≡ₚ ws' -> hist ws = hist ws'.
Proof.
  induction 1 as [|x l l' _ IH|x y l|l l' l'' _ IH1 _ IH2]; simpl.
  - reflexivity.
  - rewrite IH. reflexivity.
  - apply wc_incr_comm.
  - congruence.
Qed.

Lemma hist_pos (ws : list Z) (w c : Z) : hist ws !! w = Some c -> 1 <= c.
Proof.
  revert c. induction ws as [|x ws IH]; intros c; simpl.
  - rewrite lookup_empty. discriminate.
  - unfold wc_incr. destruct (decide (w = x)) as [->|Hw].
    + rewrite lookup_insert_eq. intros H; inversion H; subst.
      destruct (hist ws !! x) as [c'|] eqn:E; simpl; [specialize (IH c' eq_refl)|]; lia.
    + rewrite lookup_insert_ne by congruence. apply IH.
Qed.

Lemma wc_decr_incr (w : Z) (h : gmap Z Z) :
  (forall c, h !! w = Some c -> 1 <= c) -> wc_decr w (wc_incr w h) = h.
Proof.
  intros Hp. unfold wc_decr, wc_incr. rewrite lookup_insert_eq.
  destruct (h !! w) as [c|] eqn:E; simpl.
  - specialize (Hp c eq_refl). case_decide; [lia|].
    rewrite insert_insert_eq. replace (c + 1 - 1) with c by lia.
    apply insert_id. exact E.
  - apply delete_insert_id. exact E.
Qed.

Lemma wc_max_incr (w : Z) (h : gmap Z Z) :
  wc_max (wc_incr w h) = Z.max w (wc_max h).
Proof.
  unfold wc_max, wc_incr. destruct (h !! w) as [c|] eqn:E; simpl.
  - rewrite <- insert_delete_eq.
    rewrite map_fold_insert_L; [|intros; lia|apply lookup_delete_eq].
    rewrite (map_fold_delete_L _ _ w c h); [lia|intros; lia|exact E].
  - rewrite map_fold_insert_L; [reflexivity|intros; lia|exact E].
Qed.

Lemma wc_max_hist (ws : list Z) : wc_max (hist ws) = max_weight ws.
Proof.
  induction ws as [|x ws IH]; simpl.
  - reflexivity.
  - rewrite wc_max_incr, IH. reflexivity.
Qed.

Lemma max_weight_nonneg (ws : list Z) : 0 <= max_weight ws.
Proof. induction ws; simpl; lia. Qed.

Lemma hist_decr_incr (w : Z) (ws : list Z) : wc_decr w (hist (w :: ws)) = hist ws.
Proof. apply wc_decr_incr. intros c. apply hist_pos. Qed.

End HistProofs.

Module WeightsProofs.

Lemma concat_perm (l l' : list (list Z)) : l ≡ₚ l' -> concat l ≡ₚ concat l'.
Proof.
  induction 1 as [|x l l' _ IH|x y l|l l' l'' _ IH1 _ IH2]; simpl.
  - reflexivity.
  - apply Permutation_app_head. exact IH.
  - rewrite !app_assoc. apply Permutation_app_tail, Permutation_app_comm.
  - etransitivity; eassumption.
Qed.

Lemma mw_insert (gms : gmap Id ActionProfGroupMembership) (g : Id)
    (gm : ActionProfGroupMembership) (m : Id) :
  gms !! g = None ->
  member_weights (<[g := gm]> gms) m ≡ₚ requested (members gm) m ++ member_weights gms m.
Proof.
  intros Hg. unfold member_weights.
  etransitivity.
  { apply concat_perm, Permutation_map, map_to_list_insert. exact Hg. }
  simpl. unfold requested. rewrite <- DiffProofs.to_map_lookup. reflexivity.
Qed.

Lemma mw_delete (gms : gmap Id ActionProfGroupMembership) (g : Id)
    (gm : ActionProfGroupMembership) (m : Id) :
  gms !! g = Some gm ->
  member_weights gms m ≡ₚ requested (members gm) m ++ member_weights (delete g gms) m.
Proof.
  intros Hg. rewrite <- (insert_delete_id gms g gm Hg) at 1.
  apply mw_insert. apply lookup_delete_eq.
Qed.

Lemma mw_replace (gms : gmap Id ActionProfGroupMembership) (g : Id)
    (gm : ActionProfGroupMembership) (m : Id) :
  member_weights (<[g := gm]> gms) m ≡ₚ requested (members gm) m ++ member_weights (delete g gms) m.
Proof.
  rewrite <- insert_delete_eq. apply mw_insert. apply lookup_delete_eq.
Qed.

End WeightsProofs.

Module DevNextProofs.

Ltac dev_unfold :=
  unfold dev_member_delete, dev_member_create, dev_group_create,
    dev_group_delete, dev_group_set, dev_tick.

Lemma member_delete_next (h : N) (d : Device) :
  dev_next (snd (dev_member_delete h d)) = dev_next d.
Proof. dev_unfold. destruct (dev_ok d); reflexivity. Qed.

Lemma member_delete_next' (h : N) (d d' : Device) (b : bool) :
  dev_member_delete h d = (b, d') -> dev_next d' = dev_next d.
Proof. intros H. rewrite <- (member_delete_next h d), H. reflexivity. Qed.

Lemma delete_all_next (hs : list N) (d : Device) :
  dev_next (dev_delete_all hs d) = dev_next d.
Proof.
  revert d. induction hs as [|h hs IH]; intros d; simpl; [reflexivity|].
  rewrite IH. apply member_delete_next.
Qed.

Lemma group_set_next (gh : N) (hs : list N) (d : Device) :
  dev_next (snd (dev_group_set gh hs d)) = dev_next d.
Proof. dev_unfold. destruct (dev_ok d); reflexivity. Qed.

Lemma group_delete_next (gh : N) (d : Device) :
  dev_next (snd (dev_group_delete gh d)) = dev_next d.
Proof. dev_unfold. destruct (dev_ok d); reflexivity. Qed.

Lemma group_create_next (d : Device) :
  (dev_next d <= dev_next (snd (dev_group_create d)))%N.
Proof. dev_unfold. destruct (dev_ok d); simpl; lia. Qed.

Lemma group_create_some (d d' : Device) (gh : N) :
  dev_group_create d = (Some gh, d') -> gh = dev_next d /\ (gh < dev_next d')%N.
Proof.
  dev_unfold. destruct (dev_ok d); intros H; inversion H; subst; simpl; split; [reflexivity|lia].
Qed.

Lemma create_replicas_next (a : ActionData) (n : nat) (d : Device) :
  (dev_next d <= dev_next (snd (create_replicas a n d)))%N.
Proof.
  revert d. induction n as [|n IH]; intros d; simpl; [lia|].
  destruct (dev_member_create a d) as [[h|] d'] eqn:E.
  - assert (Hd : (dev_next d <= dev_next d')%N).
    { revert E. dev_unfold. destruct (dev_ok d); intros H; inversion H; subst; simpl; lia. }
    specialize (IH d').
    destruct (create_replicas a n d') as [[hs|] d'']; simpl in *; [lia|].
    rewrite member_delete_next. lia.
  - revert E. dev_unfold. destruct (dev_ok d); intros H; inversion H; subst; simpl; lia.
Qed.

Lemma create_replicas_length (a : ActionData) (n : nat) (d d' : Device) (hs : list N) :
  create_replicas a n d = (Some hs, d') -> length hs = n.
Proof.
  revert d hs. induction n as [|n IH]; intros d hs; simpl.
  - intros H; inversion H; reflexivity.
  - destruct (dev_member_create a d) as [[h|] d1]; [|discriminate].
    destruct (create_replicas a n d1) as [[hs1|] d2] eqn:E; [|discriminate].
    intros H; inversion H; subst. simpl. f_equal. eapply IH. exact E.
Qed.

Lemma purge_loop_next (n : nat) (hs : list N) (d : Device) :
  dev_next (purge_loop n hs d).2 = dev_next d.
Proof.
  revert hs d. induction n as [|n IH]; intros hs d; simpl; [reflexivity|].
  destruct (last hs) as [h|]; [|reflexivity].
  destruct (dev_member_delete h d) as [[|] d'] eqn:E; simpl.
  - rewrite IH. eapply member_delete_next'. exact E.
  - eapply member_delete_next'. exact E.
Qed.

Lemma wrapper_next (ms : MemberState) (d : Device) :
  dev_next (purge_unused_weighted_members_wrapper ms d).2 = dev_next d.
Proof.
  unfold purge_unused_weighted_members_wrapper, purge_unused_weighted_members.
  pose proof (purge_loop_next (length (handles ms) - Z.to_nat (wc_max (weight_counts ms)))
                (handles ms) d) as H.
  destruct (purge_loop _ _ d) as [[[|] hs] d']; simpl in *; exact H.
Qed.

Lemma phase_create_next (ups : list MembershipUpdate) (mm : MemberMap) (d : Device)
    (cr : list N) :
  (dev_next d <= dev_next (phase_create ups mm d cr).1.2)%N.
Proof.
  revert mm d cr. induction ups as [|u ups IH]; intros mm d cr; simpl; [lia|].
  destruct (decide (0 < new_weight u)); [|apply IH].
  destruct (mm !! uid u) as [ms|]; simpl; [|lia].
  unfold create_missing_weighted_members.
  pose proof (create_replicas_next (action_data ms)
     (Z.to_nat (wc_max (wc_incr (new_weight u) (weight_counts ms))) - length (handles ms)) d)
    as Hc.
  destruct (create_replicas _ _ d) as [[hs|] d']; simpl in *.
  - specialize (IH (<[uid u := mkMemberState (action_data ms) (handles ms ++ hs)
                    (wc_incr (new_weight u) (weight_counts ms))]> mm) d'
                    (cr ++ drop (length (handles ms)) (handles ms ++ hs))). lia.
  - exact Hc.
Qed.

Lemma phase_purge_next (ups : list MembershipUpdate) (mm : MemberMap) (d : Device)
    (crit : bool) :
  dev_next (phase_purge ups mm d crit).2 = dev_next d.
Proof.
  revert mm d crit. induction ups as [|u ups IH]; intros mm d crit; simpl; [reflexivity|].
  destruct (decide (0 < current_weight u)); [|apply IH].
  destruct (mm !! uid u) as [ms|]; [|apply IH].
  pose proof (wrapper_next (set_weight_counts ms (wc_decr (current_weight u) (weight_counts ms))) d)
    as Hw.
  destruct (purge_unused_weighted_members_wrapper _ d) as [[rep ms2] d']. simpl in Hw.
  rewrite IH. exact Hw.
Qed.

Lemma gum_next (mm : MemberMap) (gh : N) (cur des : Membership) (d : Device) :
  (dev_next d <= dev_next (o_dev (group_update_members mm gh cur des d)))%N.
Proof.
  unfold group_update_members.
  pose proof (phase_create_next (compute_membership_update cur des) mm d []) as H1.
  destruct (phase_create _ mm d []) as [[[st mm1] d1] created]. simpl in H1.
  destruct st; simpl; try (rewrite delete_all_next; exact H1).
  pose proof (group_set_next gh (group_handles mm1 des) d1) as H2.
  destruct (dev_group_set gh _ d1) as [[|] d2]; simpl in *.
  - pose proof (phase_purge_next (compute_membership_update cur des) mm1 d2 false) as H3.
    destruct (phase_purge _ mm1 d2 false) as [[crit mm3] d3]. simpl in *. lia.
  - rewrite delete_all_next. lia.
Qed.

End DevNextProofs.

Module PhaseProofs.

Lemma purge_loop_ok (n : nat) (hs hs' : list N) (d d' : Device) :
  purge_loop n hs d = (true, hs', d') -> hs' = take (length hs - n) hs.
Proof.
  revert hs d. induction n as [|n IH]; intros hs d; simpl.
  - intros H; inversion H; subst. rewrite Nat.sub_0_r, take_ge by lia. reflexivity.
  - destruct (last hs) as [h|] eqn:El.
    + destruct (dev_member_delete h d) as [[|] d1]; [|discriminate].
      intros H. apply IH in H. rewrite H.
      rewrite removelast_firstn_len. rewrite length_take.
      fold (take (pred (length hs)) hs). rewrite take_take. f_equal. lia.
    + intros H; inversion H; subst.
      destruct hs' as [|x hs']; [reflexivity|].
      exfalso. destruct (exists_last (l := x :: hs') ltac:(discriminate)) as [l [y Hl]].
      rewrite Hl, last_snoc in El. discriminate.
Qed.

Lemma wrapper_ok (ms ms2 : MemberState) (d d' : Device) (rep : option Severity) :
  purge_unused_weighted_members_wrapper ms d = (rep, ms2, d') -> rep <> Some Critical ->
  ms2 = mkMemberState (action_data ms)
          (take (Z.to_nat (wc_max (weight_counts ms))) (handles ms)) (weight_counts ms).
Proof.
  unfold purge_unused_weighted_members_wrapper, purge_unused_weighted_members.
  destruct (purge_loop _ (handles ms) d) as [[[|] hs] d1] eqn:E; simpl;
    intros H; inversion H; subst; [|congruence].
  intros _. apply purge_loop_ok in E. subst. unfold set_handles. f_equal.
  set (k := Z.to_nat (wc_max (weight_counts ms))).
  destruct (Nat.le_ge_cases k (length (handles ms))).
  - f_equal. lia.
  - rewrite !take_ge by lia. reflexivity.
Qed.

Lemma phase_purge_member (ups : list MembershipUpdate) (mm mm2 : MemberMap)
    (d d2 : Device) (m : Id) :
  phase_purge ups mm d false = (false, mm2, d2) ->
  (for_id m ups = [] -> mm2 !! m = mm !! m) /\
  (forall u, for_id m ups = [u] -> mm2 !! m = purge_at u (mm !! m)).
Proof.
  revert mm d. induction ups as [|u ups IH]; intros mm d; simpl.
  - intros H; inversion H; subst. split; [reflexivity|discriminate].
  - rewrite DiffProofs.for_id_cons. intros H.
    destruct (decide (0 < current_weight u)) as [Hc|Hc].
    + destruct (mm !! uid u) as [ms|] eqn:Em.
      * destruct (purge_unused_weighted_members_wrapper _ d) as [[rep ms2] d'] eqn:Ew.
        destruct (bool_decide (rep = Some Critical)) eqn:Eb; simpl in H.
        { pose proof (PurgeProofs.phase_purge_crit_mono ups (<[uid u := ms2]> mm) d') as Hm.
          rewrite H in Hm. discriminate. }
        apply bool_decide_eq_false in Eb.
        apply wrapper_ok in Ew; [|exact Eb]. simpl in Ew.
        destruct (IH _ _ H) as [IH1 IH2].
        destruct (decide (uid u = m)) as [<-|Hm].
        { split; [discriminate|]. intros u' Hu. inversion Hu; subst.
          rewrite IH1 by assumption. rewrite lookup_insert_eq, Em.
          unfold purge_at. rewrite decide_True by exact Hc. reflexivity. }
        rewrite !lookup_insert_ne in IH1, IH2 by exact Hm. split; assumption.
      * destruct (IH _ _ H) as [IH1 IH2].
        destruct (decide (uid u = m)) as [<-|Hm]; [|split; assumption].
        split; [discriminate|]. intros u' Hu. inversion Hu; subst.
        rewrite IH1 by assumption. rewrite Em. unfold purge_at. case_decide; reflexivity.
    + destruct (IH _ _ H) as [IH1 IH2].
      destruct (decide (uid u = m)) as [<-|Hm]; [|split; assumption].
      split; [discriminate|]. intros u' Hu. inversion Hu; subst.
      rewrite IH1 by assumption. unfold purge_at. rewrite decide_False by exact Hc. reflexivity.
Qed.

(** The replicas created for one member by phase (2). *)
Lemma phase_create_member (ups : list MembershipUpdate) (mm mm1 : MemberMap)
    (d d1 : Device) (cr cr1 : list N) (m : Id) :
  phase_create ups mm d cr = (OK, mm1, d1, cr1) ->
  (for_id m ups = [] -> mm1 !! m = mm !! m) /\
  (forall u, for_id m ups = [u] ->
     if decide (0 < new_weight u) then
       exists ms hs, mm !! m = Some ms /\
         mm1 !! m = Some (mkMemberState (action_data ms) (handles ms ++ hs)
                            (wc_incr (new_weight u) (weight_counts ms))) /\
         length (handles ms ++ hs) =
           Nat.max (length (handles ms))
                   (Z.to_nat (wc_max (wc_incr (new_weight u) (weight_counts ms))))
     else mm1 !! m = mm !! m).
Proof.
  revert mm d cr. induction ups as [|u ups IH]; intros mm d cr; simpl.
  - intros H; inversion H; subst. split; [reflexivity|discriminate].
  - rewrite DiffProofs.for_id_cons. intros H.
    destruct (decide (0 < new_weight u)) as [Hc|Hc].
    + destruct (mm !! uid u) as [ms|] eqn:Em; [|discriminate].
      unfold create_missing_weighted_members in H.
      destruct (create_replicas _ _ d) as [[hs|] d'] eqn:Ecr; [|discriminate].
      destruct (IH _ _ _ H) as [IH1 IH2].
      destruct (decide (uid u = m)) as [<-|Hm].
      * split; [discriminate|]. intros u' Hu. inversion Hu; subst.
        rewrite decide_True by exact Hc.
        exists ms, hs. split; [exact Em|]. split.
        { rewrite IH1 by assumption. apply lookup_insert_eq. }
        apply DevNextProofs.create_replicas_length in Ecr.
        rewrite length_app, Ecr. lia.
      * rewrite !lookup_insert_ne in IH1, IH2 by exact Hm. split; assumption.
    + destruct (IH _ _ _ H) as [IH1 IH2].
      destruct (decide (uid u = m)) as [<-|Hm]; [|split; assumption].
      split; [discriminate|]. intros u' Hu. inversion Hu; subst.
      rewrite decide_False by exact Hc. apply IH1. assumption.
Qed.

End PhaseProofs.

Module MemberProofs.

Lemma positive_lookup (mem : Membership) (m : Id) (a : MembershipInfo) :
  weights_positive mem -> alookup m mem = Some a -> 1 <= weight a.
Proof.
  intros Hp Ha. apply DiffProofs.alookup_In in Ha.
  unfold weights_positive in Hp. rewrite List.Forall_forall in Hp.
  exact (Hp _ Ha).
Qed.

Lemma gum_member (mm : MemberMap) (gh : N) (cur des : Membership) (d : Device) (m : Id) :
  ordered cur -> ordered des -> weights_positive cur -> weights_positive des ->
  o_status (group_update_members mm gh cur des d) = OK ->
  o_critical (group_update_members mm gh cur des d) = false ->
  match mm !! m with
  | None => o_state (group_update_members mm gh cur des d) !! m = None
  | Some ms =>
    exists hs ms', o_state (group_update_members mm gh cur des d) !! m = Some ms' /\
      let wc1 := match alookup m des with
                 | Some b => wc_incr (weight b) (weight_counts ms)
                 | None => weight_counts ms end in
      let wc2 := match alookup m cur with
                 | Some a => wc_decr (weight a) wc1
                 | None => wc1 end in
      weight_counts ms' = wc2 /\
      match alookup m des with
      | None => hs = []
      | Some _ => length (handles ms ++ hs) =
                    Nat.max (length (handles ms)) (Z.to_nat (wc_max wc1))
      end /\
      handles ms' = match alookup m cur with
                    | Some _ => take (Z.to_nat (wc_max wc2)) (handles ms ++ hs)
                    | None => handles ms ++ hs end
  end.
Proof.
  intros Hoc Hod Hpc Hpd. unfold group_update_members.
  pose proof (DiffProofs.for_id_cmu m cur des Hoc Hod) as Hf.
  set (ups := compute_membership_update cur des) in *.
  destruct (phase_create ups mm d []) as [[[st mm1] d1] created] eqn:Ec.
  destruct st; simpl; try discriminate.
  destruct (dev_group_set gh (group_handles mm1 des) d1) as [[|] d2]; simpl; [|discriminate].
  destruct (phase_purge ups mm1 d2 false) as [[crit mm3] d3] eqn:Ep; simpl.
  intros _ ->.
  destruct (PhaseProofs.phase_create_member _ _ _ _ _ _ _ m Ec) as [Hc1 Hc2].
  destruct (PhaseProofs.phase_purge_member _ _ _ _ _ m Ep) as [Hp1 Hp2].
  destruct (alookup m cur) as [a|] eqn:Ea; destruct (alookup m des) as [b|] eqn:Eb;
    simpl in Hf.
  - pose proof (positive_lookup _ _ _ Hpc Ea) as Ha.
    pose proof (positive_lookup _ _ _ Hpd Eb) as Hb.
    specialize (Hc2 _ Hf). specialize (Hp2 _ Hf).
    unfold upd_both, upd_delete, upd_insert in Hc2, Hp2.
    cbn [new_weight current_weight] in Hc2, Hp2.
    rewrite decide_True in Hc2 by lia.
    destruct Hc2 as (ms & hs & Hm & Hm1 & Hl). rewrite Hm.
    exists hs. eexists. split.
    { rewrite Hp2, Hm1. unfold purge_at. simpl. rewrite decide_True by lia. reflexivity. }
    simpl. split; [reflexivity|]. split; [exact Hl|reflexivity].
  - pose proof (positive_lookup _ _ _ Hpc Ea) as Ha.
    specialize (Hc2 _ Hf). specialize (Hp2 _ Hf).
    unfold upd_both, upd_delete, upd_insert in Hc2, Hp2.
    cbn [new_weight current_weight] in Hc2, Hp2.
    rewrite decide_False in Hc2 by lia. rewrite Hp2, Hc2.
    unfold purge_at. simpl. rewrite decide_True by lia.
    destruct (mm !! m) as [ms|]; [|reflexivity].
    eexists [], _. split; [reflexivity|]. simpl.
    rewrite app_nil_r. split; [reflexivity|]. split; reflexivity.
  - pose proof (positive_lookup _ _ _ Hpd Eb) as Hb.
    specialize (Hc2 _ Hf). specialize (Hp2 _ Hf).
    unfold upd_both, upd_delete, upd_insert in Hc2, Hp2.
    cbn [new_weight current_weight] in Hc2, Hp2.
    rewrite decide_True in Hc2 by lia.
    destruct Hc2 as (ms & hs & Hm & Hm1 & Hl). rewrite Hm.
    exists hs. eexists. split.
    { rewrite Hp2, Hm1. unfold purge_at. simpl. reflexivity. }
    simpl. split; [reflexivity|]. split; [exact Hl|reflexivity].
  - rewrite Hp1, Hc1 by exact Hf.
    destruct (mm !! m) as [ms|]; [|reflexivity].
    exists [], ms. split; [reflexivity|]. simpl.
    rewrite app_nil_r. split; [reflexivity|]. split; reflexivity.
Qed.

End MemberProofs.

Module StepProofs.

Lemma take_app_prefix (l hs : list N) (k : nat) :
  (length (take k (l ++ hs)) <= length l)%nat ->
  take k (l ++ hs) = take (length (take k (l ++ hs))) l.
Proof.
  rewrite length_take, length_app. intros H.
  destruct (decide (k <= length l)%nat).
  - rewrite Nat.min_l by lia. apply take_app_le. lia.
  - destruct hs as [|x hs]; [|simpl in H; lia].
    rewrite app_nil_r, !take_ge by lia. reflexivity.
Qed.

Lemma gum_inv (mm : MemberMap) (gms gms' : gmap Id ActionProfGroupMembership)
    (gh : N) (cur des : Membership) (d : Device) :
  ordered cur -> ordered des -> weights_positive cur -> weights_positive des ->
  (forall m, exists R, member_weights gms m ≡ₚ requested cur m ++ R /\
                       member_weights gms' m ≡ₚ requested des m ++ R) ->
  members_inv mm gms ->
  o_status (group_update_members mm gh cur des d) = OK ->
  o_critical (group_update_members mm gh cur des d) = false ->
  members_inv (o_state (group_update_members mm gh cur des d)) gms' /\
  (forall m ms ms', mm !! m = Some ms ->
     o_state (group_update_members mm gh cur des d) !! m = Some ms' ->
     (length (handles ms') <= length (handles ms))%nat ->
     handles ms' = take (length (handles ms')) (handles ms)).
Proof.
  intros Hoc Hod Hpc Hpd HR Hinv Hst Hcr.
  split.
  - intros m ms' Hm'.
    pose proof (MemberProofs.gum_member mm gh cur des d m Hoc Hod Hpc Hpd Hst Hcr) as Hg.
    destruct (mm !! m) as [ms|] eqn:Em; [|congruence].
    destruct Hg as (hs & ms'' & Hm'' & Hw & Hhs & Hh).
    rewrite Hm' in Hm''. injection Hm'' as <-.
    destruct (Hinv m ms Em) as [Hwc Hlen].
    destruct (HR m) as (R & H1 & H2).
    rewrite (HistProofs.hist_perm _ _ H1) in Hwc.
    rewrite (HistProofs.hist_perm _ _ H2).
    pose proof (HistProofs.max_weight_nonneg R) as HR0.
    unfold requested in *.
    destruct (alookup m cur) as [a|] eqn:Ea; destruct (alookup m des) as [b|] eqn:Eb;
      simpl in Hwc, Hw, Hhs, Hh |- *; rewrite Hwc in *.
    + pose proof (MemberProofs.positive_lookup _ _ _ Hpc Ea).
      pose proof (MemberProofs.positive_lookup _ _ _ Hpd Eb).
      assert (Hw2 : wc_decr (weight a) (wc_incr (weight b) (wc_incr (weight a) (hist R)))
                    = hist (weight b :: R)).
      { rewrite HistProofs.wc_incr_comm. apply (HistProofs.hist_decr_incr _ (weight b :: R)). }
      rewrite Hw2 in Hw, Hh. rewrite Hw.
      split; [reflexivity|].
      rewrite Hh, length_take, Hhs.
      change (wc_incr (weight b) (wc_incr (weight a) (hist R))) with (hist (weight b :: weight a :: R)) in *.
      change (wc_incr (weight a) (hist R)) with (hist (weight a :: R)) in Hlen.
      change (wc_incr (weight b) (hist R)) with (hist (weight b :: R)) in *.
      rewrite !HistProofs.wc_max_hist in *. simpl in *. lia.
    + pose proof (MemberProofs.positive_lookup _ _ _ Hpc Ea).
      change (wc_incr (weight a) (hist R)) with (hist (weight a :: R)) in *.
      rewrite HistProofs.hist_decr_incr in Hw, Hh. rewrite Hw.
      split; [reflexivity|].
      subst hs. rewrite Hh, length_take, app_nil_r.
      rewrite !HistProofs.wc_max_hist in *. simpl in *. lia.
    + pose proof (MemberProofs.positive_lookup _ _ _ Hpd Eb).
      rewrite Hw. split; [reflexivity|].
      rewrite Hh, Hhs.
      change (wc_incr (weight b) (hist R)) with (hist (weight b :: R)) in *.
      rewrite !HistProofs.wc_max_hist in *. simpl in *. lia.
    + subst hs. rewrite Hw. split; [reflexivity|].
      rewrite Hh, app_nil_r. exact Hlen.
  - intros m ms ms' Hm Hm' Hle.
    pose proof (MemberProofs.gum_member mm gh cur des d m Hoc Hod Hpc Hpd Hst Hcr) as Hg.
    rewrite Hm in Hg.
    destruct Hg as (hs & ms'' & Hm'' & Hw & Hhs & Hh).
    rewrite Hm' in Hm''. injection Hm'' as <-.
    destruct (alookup m cur) as [a|]; rewrite Hh in Hle |- *.
    + apply take_app_prefix. exact Hle.
    + rewrite length_app in Hle. destruct hs as [|x hs]; [|simpl in Hle; lia].
      rewrite app_nil_r, take_ge by lia. reflexivity.
Qed.

End StepProofs.

Module ValidateProofs.

Lemma mem_insert_ok (i : Id) (x : MembershipInfo) (mem r : Membership) :
  ordered mem -> mem_insert i x mem = Some r ->
  ordered r /\ (forall p, In p r -> p = (i, x) \/ In p mem).
Proof.
  revert r. induction mem as [|[j y] mem IH]; intros r Ho; simpl.
  - intros H; inversion H; subst. split.
    + repeat constructor.
    + intros p [<-|[]]. left; reflexivity.
  - destruct (decide (i = j)); [discriminate|].
    destruct (decide (i < j)%N) as [Hlt|Hge].
    + intros H; inversion H; subst. split.
      * constructor; [exact Ho|]. constructor. simpl. exact Hlt.
      * intros p [<-|Hp]; [left; reflexivity|right; exact Hp].
    + destruct (mem_insert i x mem) as [r'|] eqn:E; [|discriminate].
      intros H; inversion H; subst.
      destruct (DiffProofs.ordered_tail _ _ Ho) as [Ho' Hf].
      destruct (IH r' Ho' eq_refl) as [Hr' Hin]. split.
      * constructor; [exact Hr'|].
        destruct r' as [|q r'']; constructor. simpl.
        destruct (Hin q (or_introl eq_refl)) as [->|Hq]; simpl; [lia|].
        rewrite List.Forall_forall in Hf. exact (Hf q Hq).
      * intros p [<-|Hp]; [right; left; reflexivity|].
        destruct (Hin p Hp) as [->|Hp']; [left; reflexivity|right; right; exact Hp'].
Qed.

Lemma build_membership_ok (l : list (Id * MembershipInfo)) (mem : Membership) :
  build_membership l = Some mem -> ordered mem /\ (forall p, In p mem -> In p l).
Proof.
  revert mem. induction l as [|[i x] l IH]; intros mem; simpl.
  - intros H; inversion H; subst. split; [constructor|intros p []].
  - destruct (build_membership l) as [acc|] eqn:E; [|discriminate].
    intros H. destruct (IH acc eq_refl) as [Ho Hin].
    destruct (mem_insert_ok _ _ _ _ Ho H) as [Hr Hr']. split; [exact Hr|].
    intros p Hp. destruct (Hr' p Hp) as [->|Hp'']; [left; reflexivity|right; auto].
Qed.

Lemma validate_ok (mm : MemberMap) (l : list (Id * MembershipInfo)) (des : Membership) :
  validate_membership mm l = inr des -> ordered des /\ weights_positive des.
Proof.
  unfold validate_membership.
  destruct (decide (Forall _ l)) as [Hw|]; [|discriminate].
  destruct (decide (Forall _ l)); [|discriminate].
  destruct (build_membership l) as [mem|] eqn:E; [|discriminate].
  intros H; inversion H; subst.
  destruct (build_membership_ok _ _ E) as [Ho Hin]. split; [exact Ho|].
  unfold weights_positive. rewrite List.Forall_forall in *. auto.
Qed.

End ValidateProofs.

Module OpProofs.

Lemma prefix_refl (mm : MemberMap) : shrinks_prefix mm mm.
Proof.
  intros m ms ms' H1 H2 _. rewrite H1 in H2. injection H2 as <-.
  rewrite take_ge by lia. reflexivity.
Qed.

Lemma inv_dev_mono (s : Manual) (d d' : Device) :
  manual_inv s d -> (dev_next d <= dev_next d')%N -> manual_inv s d'.
Proof.
  intros (H0 & H2 & H3 & H4) Hle. split; [exact H0|]. split; [exact H2|]. split; [|exact H4].
  intros h g Hh. specialize (H3 h g Hh). lia.
Qed.

Lemma ordered_nil : ordered [].
Proof. constructor. Qed.

Lemma positive_nil : weights_positive [].
Proof. constructor. Qed.

Lemma requested_nil (m : Id) : requested [] m = [].
Proof. reflexivity. Qed.

Lemma is_error_ok (st : Status) : IS_ERROR st = false -> st = OK.
Proof. destruct st; simpl; congruence. Qed.

Lemma group_create_inv (s : Manual) (g : GroupMsg) (d : Device) :
  manual_inv s d -> g_critical (group_create s g d) = false ->
  manual_inv (g_state (group_create s g d)) (g_dev (group_create s g d)) /\
  shrinks_prefix (member_map s) (member_map (g_state (group_create s g d))).
Proof.
  intros Hinv. pose proof Hinv as (H0 & H2 & H3 & H4).
  unfold group_create.
  destruct (ActionProfBiMap.retrieve_handle _ _) as [gh0|] eqn:Er.
  { intros _. split; [exact Hinv|apply prefix_refl]. }
  destruct (validate_membership _ _) as [st|des] eqn:Ev.
  { intros _. split; [exact Hinv|apply prefix_refl]. }
  destruct (ValidateProofs.validate_ok _ _ _ Ev) as [Hod Hpd].
  pose proof (DevNextProofs.group_create_next d) as Hd1.
  destruct (dev_group_create d) as [[gh|] d1] eqn:Eg; simpl in Hd1.
  2:{ intros _. split; [exact (inv_dev_mono _ _ _ Hinv Hd1)|apply prefix_refl]. }
  destruct (DevNextProofs.group_create_some _ _ _ Eg) as [Hgh Hgh1].
  pose proof (DevNextProofs.gum_next (member_map s) gh [] des d1) as Hd2.
  destruct (IS_ERROR (o_status (group_update_members (member_map s) gh [] des d1))) eqn:Ee.
  { intros _. simpl. split; [|apply prefix_refl].
    apply (inv_dev_mono _ d); [exact Hinv|].
    rewrite DevNextProofs.group_delete_next. lia. }
  simpl. intros Hcr. apply is_error_ok in Ee.
  unfold ActionProfBiMap.retrieve_handle in Er.
  assert (Hgms : group_members s !! group_id g = None).
  { destruct (group_members s !! group_id g) eqn:E; [|reflexivity].
    destruct (H2 (group_id g) ltac:(rewrite E; eauto)) as [? Hx]. congruence. }
  assert (H21 : ActionProfBiMap.map_2_1 (group_bimap s) !! gh = None).
  { destruct (ActionProfBiMap.map_2_1 (group_bimap s) !! gh) as [g0|] eqn:E; [|reflexivity].
    apply H3 in E. lia. }
  unfold ActionProfBiMap.add. rewrite Er, H21. simpl.
  destruct (StepProofs.gum_inv (member_map s) (group_members s)
              (<[group_id g := mkGroupMembership des (max_group_size g)]> (group_members s))
              gh [] des d1 ordered_nil Hod positive_nil Hpd) as [Hm Hp];
    [| |exact Ee|exact Hcr|].
  { intros m. exists (member_weights (group_members s) m). split.
    - rewrite requested_nil. reflexivity.
    - apply WeightsProofs.mw_insert. exact Hgms. }
  { intros m ms Hms. apply H4. exact Hms. }
  split; [|exact Hp].
  split; [|split; [|split]]; simpl.
  - intros g' gm Hg'. destruct (decide (g' = group_id g)) as [->|Hne].
    + rewrite lookup_insert_eq in Hg'. injection Hg' as <-. simpl. split; assumption.
    + rewrite lookup_insert_ne in Hg' by congruence. eauto.
  - intros g' Hg'. destruct (decide (g' = group_id g)) as [->|Hne].
    + rewrite lookup_insert_eq. eauto.
    + rewrite lookup_insert_ne in Hg' by congruence. rewrite lookup_insert_ne by congruence. auto.
  - intros h g' Hh. destruct (decide (h = gh)) as [->|Hne].
    + lia.
    + rewrite lookup_insert_ne in Hh by congruence. apply H3 in Hh. lia.
  - exact Hm.
Qed.

Lemma group_modify_inv (s : Manual) (g : GroupMsg) (d : Device) :
  manual_inv s d -> g_critical (group_modify s g d) = false ->
  manual_inv (g_state (group_modify s g d)) (g_dev (group_modify s g d)) /\
  shrinks_prefix (member_map s) (member_map (g_state (group_modify s g d))).
Proof.
  intros Hinv. pose proof Hinv as (H0 & H2 & H3 & H4).
  unfold group_modify.
  destruct (ActionProfBiMap.retrieve_handle _ _) as [gh|] eqn:Er;
    [|intros _; split; [exact Hinv|apply prefix_refl]].
  destruct (group_members s !! group_id g) as [gm|] eqn:Eg;
    [|intros _; split; [exact Hinv|apply prefix_refl]].
  destruct (validate_membership _ _) as [st|des] eqn:Ev.
  { intros _. split; [exact Hinv|apply prefix_refl]. }
  destruct (ValidateProofs.validate_ok _ _ _ Ev) as [Hod Hpd].
  destruct (H0 _ _ Eg) as [Hoc Hpc].
  pose proof (DevNextProofs.gum_next (member_map s) gh (members gm) des d) as Hd.
  destruct (IS_ERROR (o_status (group_update_members (member_map s) gh (members gm) des d)))
    eqn:Ee.
  { intros _. simpl. split; [exact (inv_dev_mono _ _ _ Hinv Hd)|apply prefix_refl]. }
  simpl. intros Hcr. apply is_error_ok in Ee.
  destruct (StepProofs.gum_inv (member_map s) (group_members s)
              (<[group_id g := mkGroupMembership des (max_size_user gm)]> (group_members s))
              gh (members gm) des d Hoc Hod Hpc Hpd) as [Hm Hp];
    [| |exact Ee|exact Hcr|].
  { intros m. exists (member_weights (delete (group_id g) (group_members s)) m). split.
    - apply WeightsProofs.mw_delete. exact Eg.
    - apply WeightsProofs.mw_replace. }
  { intros m ms Hms. apply H4. exact Hms. }
  split; [|exact Hp].
  split; [|split; [|split]]; simpl.
  - intros g' gm' Hg'. destruct (decide (g' = group_id g)) as [->|Hne].
    + rewrite lookup_insert_eq in Hg'. injection Hg' as <-. simpl. split; assumption.
    + rewrite lookup_insert_ne in Hg' by congruence. eauto.
  - intros g' Hg'. destruct (decide (g' = group_id g)) as [->|Hne].
    + unfold ActionProfBiMap.retrieve_handle in Er. rewrite Er. eauto.
    + rewrite lookup_insert_ne in Hg' by congruence. auto.
  - intros h g' Hh. apply H3 in Hh. lia.
  - exact Hm.
Qed.

Lemma group_delete_inv (s : Manual) (gid : Id) (d : Device) :
  manual_inv s d -> g_critical (group_delete s gid d) = false ->
  manual_inv (g_state (group_delete s gid d)) (g_dev (group_delete s gid d)) /\
  shrinks_prefix (member_map s) (member_map (g_state (group_delete s gid d))).
Proof.
  intros Hinv. pose proof Hinv as (H0 & H2 & H3 & H4).
  unfold group_delete.
  destruct (ActionProfBiMap.retrieve_handle _ _) as [gh|] eqn:Er;
    [|intros _; split; [exact Hinv|apply prefix_refl]].
  destruct (group_members s !! gid) as [gm|] eqn:Eg;
    [|intros _; split; [exact Hinv|apply prefix_refl]].
  destruct (H0 _ _ Eg) as [Hoc Hpc].
  pose proof (DevNextProofs.gum_next (member_map s) gh (members gm) [] d) as Hd.
  destruct (IS_ERROR (o_status (group_update_members (member_map s) gh (members gm) [] d)))
    eqn:Ee.
  { intros _. simpl. split; [exact (inv_dev_mono _ _ _ Hinv Hd)|apply prefix_refl]. }
  apply is_error_ok in Ee.
  pose proof (DevNextProofs.group_delete_next gh
                (o_dev (group_update_members (member_map s) gh (members gm) [] d))) as Hd1.
  unfold ActionProfBiMap.retrieve_handle in Er.
  destruct (dev_group_delete gh _) as [[|] d1]; simpl in Hd1 |- *; intros Hcr.
  - destruct (StepProofs.gum_inv (member_map s) (group_members s)
                (delete gid (group_members s))
                gh (members gm) [] d Hoc ordered_nil Hpc positive_nil) as [Hm Hp];
      [| |exact Ee|exact Hcr|].
    { intros m. exists (member_weights (delete gid (group_members s)) m). split.
      - apply WeightsProofs.mw_delete. exact Eg.
      - rewrite requested_nil. reflexivity. }
    { intros m ms Hms. apply H4. exact Hms. }
    split; [|exact Hp].
    unfold ActionProfBiMap.remove. rewrite Er.
    split; [|split; [|split]]; simpl.
    + intros g' gm' Hg'. apply lookup_delete_Some in Hg'. destruct Hg' as [_ Hg']. eauto.
    + intros g' Hg'. destruct (decide (g' = gid)) as [->|Hne].
      * rewrite lookup_delete_eq in Hg'. destruct Hg'; discriminate.
      * rewrite lookup_delete_ne in Hg' by congruence.
        rewrite lookup_delete_ne by congruence. auto.
    + intros h g' Hh. apply lookup_delete_Some in Hh. destruct Hh as [_ Hh].
      apply H3 in Hh. lia.
    + exact Hm.
  - destruct (StepProofs.gum_inv (member_map s) (group_members s)
                (<[gid := mkGroupMembership [] (max_size_user gm)]> (group_members s))
                gh (members gm) [] d Hoc ordered_nil Hpc positive_nil) as [Hm Hp];
      [| |exact Ee|exact Hcr|].
    { intros m. exists (member_weights (delete gid (group_members s)) m). split.
      - apply WeightsProofs.mw_delete. exact Eg.
      - apply WeightsProofs.mw_replace. }
    { intros m ms Hms. apply H4. exact Hms. }
    split; [|exact Hp].
    split; [|split; [|split]]; simpl.
    + intros g' gm' Hg'. destruct (decide (g' = gid)) as [->|Hne].
      * rewrite lookup_insert_eq in Hg'. injection Hg' as <-. simpl.
        split; [exact ordered_nil|exact positive_nil].
      * rewrite lookup_insert_ne in Hg' by congruence. eauto.
    + intros g' Hg'. destruct (decide (g' = gid)) as [->|Hne].
      * rewrite Er. eauto.
      * rewrite lookup_insert_ne in Hg' by congruence. auto.
    + intros h g' Hh. apply H3 in Hh. lia.
    + exact Hm.
Qed.

Lemma run_group_op_inv (s : Manual) (o : GroupOp) (d : Device) :
  manual_inv s d -> g_critical (run_group_op s o d) = false ->
  manual_inv (g_state (run_group_op s o d)) (g_dev (run_group_op s o d)) /\
  shrinks_prefix (member_map s) (member_map (g_state (run_group_op s o d))).
Proof.
  destruct o as [g|g|gid]; simpl.
  - apply group_create_inv.
  - apply group_modify_inv.
  - apply group_delete_inv.
Qed.

Lemma run_group_ops_crit (s : Manual) (os : list GroupOp) (d : Device) :
  (run_group_ops s os d true).2 = true.
Proof.
  revert s d. induction os as [|o os IH]; intros s d; simpl; [reflexivity|]. apply IH.
Qed.

Lemma run_group_ops_inv (s : Manual) (os : list GroupOp) (d : Device) :
  manual_inv s d -> (run_group_ops s os d false).2 = false ->
  manual_inv (run_group_ops s os d false).1.1 (run_group_ops s os d false).1.2.
Proof.
  revert s d. induction os as [|o os IH]; intros s d Hinv; simpl; [intros _; exact Hinv|].
  destruct (g_critical (run_group_op s o d)) eqn:Ec; simpl.
  - rewrite run_group_ops_crit. discriminate.
  - intros H. apply IH; [|exact H]. apply run_group_op_inv; assumption.
Qed.

Lemma run_group_ops_snoc (s : Manual) (os : list GroupOp) (o : GroupOp) (d : Device)
    (c : bool) :
  run_group_ops s (os ++ [o]) d c =
  (g_state (run_group_op (run_group_ops s os d c).1.1 o (run_group_ops s os d c).1.2),
   g_dev (run_group_op (run_group_ops s os d c).1.1 o (run_group_ops s os d c).1.2),
   (run_group_ops s os d c).2 ||
     g_critical (run_group_op (run_group_ops s os d c).1.1 o (run_group_ops s os d c).1.2)).
Proof.
  revert s d c. induction os as [|o' os IH]; intros s d c; simpl; [reflexivity|]. apply IH.
Qed.

Lemma manual_inv_init (mm : MemberMap) (d : Device) :
  map_Forall (fun _ ms => handles ms = [] /\ weight_counts ms = ∅) mm ->
  manual_inv (mkManual mm ActionProfBiMap.empty_map ∅) d.
Proof.
  intros Hmm. split; [|split; [|split]]; simpl.
  - intros g gm H. rewrite lookup_empty in H. discriminate.
  - intros g [x H]. rewrite lookup_empty in H. discriminate.
  - intros h g H. rewrite lookup_empty in H. discriminate.
  - intros m ms H. destruct (map_Forall_lookup_1 _ _ _ _ Hmm H) as [Hh Hw].
    rewrite Hh, Hw. unfold member_weights. rewrite map_to_list_empty. simpl.
    split; [reflexivity|]. unfold wc_max. rewrite map_fold_empty. reflexivity.
Qed.

End OpProofs.

(** C1: from a store whose members have no replicas and no groups, after
    any sequence of group create/modify/delete operations none of which
    issued a critical (failed purge) report, every member's histogram is
    the histogram of the weights requested for it by the groups containing
    it, and its number of replicas equals the histogram's highest key, that
    is the maximum requested weight; and across the last operation a member
    whose replica count did not grow kept a prefix of its replicas (the
    purge removes trailing replicas only). *)
Theorem weighted_replicas_track_max (mm : MemberMap) (os : list GroupOp) (o : GroupOp)
    (d : Device) :
  map_Forall (fun _ ms => handles ms = [] /\ weight_counts ms = ∅) mm ->
  (run_group_ops (mkManual mm ActionProfBiMap.empty_map ∅) (os ++ [o]) d false).2 = false ->
  let r := run_group_ops (mkManual mm ActionProfBiMap.empty_map ∅) os d false in
  let s' := g_state (run_group_op r.1.1 o r.1.2) in
  (forall m ms', member_map s' !! m = Some ms' ->
     weight_counts ms' = hist (member_weights (group_members s') m) /\
     Z.of_nat (length (handles ms')) = wc_max (weight_counts ms') /\
     Z.of_nat (length (handles ms')) = max_weight (member_weights (group_members s') m)) /\
  (forall m ms ms', member_map r.1.1 !! m = Some ms -> member_map s' !! m = Some ms' ->
     (length (handles ms') <= length (handles ms))%nat ->
     handles ms' = take (length (handles ms')) (handles ms)).
Proof.
  intros Hmm Hcr r s'.
  rewrite OpProofs.run_group_ops_snoc in Hcr. simpl in Hcr. fold r in Hcr.
  apply orb_false_iff in Hcr. destruct Hcr as [Hr Ho].
  pose proof (OpProofs.run_group_ops_inv _ os d (OpProofs.manual_inv_init mm d Hmm) Hr) as Hinv.
  fold r in Hinv.
  destruct (OpProofs.run_group_op_inv _ o _ Hinv Ho) as [(_ & _ & _ & H4) Hp].
  split; [|exact Hp].
  intros m ms' Hm. destruct (H4 m ms' Hm) as [Hw Hl].
  split; [exact Hw|]. split; [exact Hl|].
  rewrite Hl, Hw. apply HistProofs.wc_max_hist.
Qed.

Lemma weighted_replicas_track_max_witness :
  let A := mkActionData 1 [7] in
  let mm : MemberMap := <[1%N := mkMemberState A [] ∅]> ∅ in
  let g w wt := GroupCreate (mkGroupMsg w 0 [(1%N, mkMembershipInfo wt invalid_watch)]) in
  let os := [g 10%N 2; g 11%N 5; g 12%N 3] in
  let d := mkDevice 100 0 (fun _ => false) ∅ ∅ in
  map_Forall (fun _ ms => handles ms = [] /\ weight_counts ms = ∅) mm /\
  (run_group_ops (mkManual mm ActionProfBiMap.empty_map ∅) (os ++ [GroupDelete 11]) d false).2
    = false /\
  let r := run_group_ops (mkManual mm ActionProfBiMap.empty_map ∅) os d false in
  let s' := g_state (run_group_op r.1.1 (GroupDelete 11) r.1.2) in
  (forall m ms', member_map s' !! m = Some ms' ->
     weight_counts ms' = hist (member_weights (group_members s') m) /\
     Z.of_nat (length (handles ms')) = wc_max (weight_counts ms') /\
     Z.of_nat (length (handles ms')) = max_weight (member_weights (group_members s') m)) /\
  (forall m ms ms', member_map r.1.1 !! m = Some ms -> member_map s' !! m = Some ms' ->
     (length (handles ms') <= length (handles ms))%nat ->
     handles ms' = take (length (handles ms')) (handles ms)).
Proof.
  intros A mm g os d.
  assert (H1 : map_Forall (fun _ ms => handles ms = [] /\ weight_counts ms = ∅) mm).
  { apply (bool_decide_unpack _). vm_compute. reflexivity. }
  assert (H2 : (run_group_ops (mkManual mm ActionProfBiMap.empty_map ∅)
                  (os ++ [GroupDelete 11]) d false).2 = false).
  { vm_compute. reflexivity. }
  split; [exact H1|]. split; [exact H2|].
  exact (weighted_replicas_track_max mm os (GroupDelete 11) d H1 H2).
Defined.

(** C1, counterexample: groups 10, 11, 12 request member 1 with weights
    2, 5, 3, then group 11 is deleted while the device fails the first
    replica deletion of the purge.  The delete still succeeds, with a
    critical report, and the member keeps 5 replicas although the maximum
    requested weight is now 3. *)
Lemma weighted_replicas_purge_failure_counterexample :
  let A := mkActionData 1 [7] in
  let mm : MemberMap := <[1%N := mkMemberState A [] ∅]> ∅ in
  let g w wt := GroupCreate (mkGroupMsg w 0 [(1%N, mkMembershipInfo wt invalid_watch)]) in
  let os := [g 10%N 2; g 11%N 5; g 12%N 3; GroupDelete 11] in
  let d := mkDevice 100 0 (fun n => Nat.eqb n 12) ∅ ∅ in
  let r := run_group_ops (mkManual mm ActionProfBiMap.empty_map ∅) os d false in
  option_map (fun ms => length (handles ms)) (member_map r.1.1 !! 1%N) = Some 5%nat /\
  max_weight (member_weights (group_members r.1.1) 1%N) = 3 /\
  member_weights (group_members r.1.1) 1%N = [2; 3] /\
  r.2 = true.
Proof. vm_compute. repeat split; reflexivity. Qed.

(** * Further properties of the code *)

Module BuildProofs.

Lemma mem_insert_none (i : Id) (x : MembershipInfo) (mem : Membership) :
  ordered mem -> (mem_insert i x mem = None <-> In i (map fst mem)).
Proof.
  induction mem as [|[j y] mem IH]; intros Ho; simpl.
  - split; [discriminate|intros []].
  - destruct (DiffProofs.ordered_tail _ _ Ho) as [Ho' Hf].
    destruct (decide (i = j)) as [->|Hne]; [split; intros _; [left; reflexivity|reflexivity]|].
    destruct (decide (i < j)%N) as [Hlt|Hge].
    + split; [discriminate|]. intros [Hji|Hin]; [congruence|].
      exfalso. apply in_map_iff in Hin. destruct Hin as [[k z] [Hk Hin]]. simpl in Hk. subst k.
      rewrite List.Forall_forall in Hf. specialize (Hf _ Hin). simpl in Hf. lia.
    + rewrite <- (IH Ho'). destruct (mem_insert i x mem); split.
      * discriminate.
      * intros [Hji|Hin]; congruence.
      * intros _; right; reflexivity.
      * intros _; reflexivity.
Qed.

Lemma mem_insert_perm (i : Id) (x : MembershipInfo) (mem r : Membership) :
  mem_insert i x mem = Some r -> r ≡ₚ (i, x) :: mem.
Proof.
  revert r. induction mem as [|[j y] mem IH]; intros r; simpl.
  - intros H; inversion H; reflexivity.
  - destruct (decide (i = j)); [discriminate|].
    destruct (decide (i < j)%N).
    + intros H; inversion H; reflexivity.
    + destruct (mem_insert i x mem) as [r'|]; [|discriminate].
      intros H; inversion H; subst.
      rewrite (IH r' eq_refl). apply perm_swap.
Qed.

Lemma build_membership_some (l : list (Id * MembershipInfo)) (mem : Membership) :
  build_membership l = Some mem -> ordered mem /\ mem ≡ₚ l.
Proof.
  revert mem. induction l as [|[i x] l IH]; intros mem; simpl.
  - intros H; inversion H; subst. split; [constructor|reflexivity].
  - destruct (build_membership l) as [acc|] eqn:E; [|discriminate].
    intros H. destruct (IH acc eq_refl) as [Ho Hp].
    split; [exact (proj1 (ValidateProofs.mem_insert_ok _ _ _ _ Ho H))|].
    rewrite (mem_insert_perm _ _ _ _ H), Hp. reflexivity.
Qed.

Lemma build_membership_nodup (l : list (Id * MembershipInfo)) :
  is_Some (build_membership l) <-> NoDup (map fst l).
Proof.
  induction l as [|[i x] l IH]; simpl.
  - split; [intros _; constructor|intros _; eauto].
  - destruct (build_membership l) as [acc|] eqn:E.
    + destruct (build_membership_some _ _ E) as [Ho Hp].
      assert (Hin : In i (map fst acc) <-> In i (map fst l)).
      { split; apply Permutation_in; [|symmetry]; apply Permutation_map; exact Hp. }
      rewrite NoDup_cons.
      destruct (mem_insert i x acc) as [r|] eqn:Ei.
      * split; [|eauto]. intros _. split.
        -- rewrite list_elem_of_In, <- Hin, <- (mem_insert_none i x acc Ho), Ei. discriminate.
        -- apply IH. eauto.
      * split; [intros [? H]; discriminate|].
        intros [Hni _]. exfalso. apply Hni. rewrite list_elem_of_In.
        apply Hin. apply (mem_insert_none i x acc Ho). exact Ei.
    + split; [intros [? H]; discriminate|].
      intros Hnd. rewrite NoDup_cons in Hnd. destruct Hnd as [_ Hnd]. apply IH in Hnd. destruct Hnd as [? Hx]; discriminate.
Qed.

End BuildProofs.

Module LookupProofs.

Lemma alookup_ordered (mem : Membership) (m : Id) (i : MembershipInfo) :
  ordered mem -> (alookup m mem = Some i <-> In (m, i) mem).
Proof.
  intros Ho. split; [apply DiffProofs.alookup_In|].
  induction mem as [|[j y] mem IH]; simpl; [intros []|].
  destruct (DiffProofs.ordered_tail _ _ Ho) as [Ho' Hf].
  intros [Heq|Hin].
  - injection Heq as -> ->. rewrite decide_True by reflexivity. reflexivity.
  - rewrite List.Forall_forall in Hf. pose proof (Hf _ Hin) as Hj. simpl in Hj.
    rewrite decide_False by lia. apply IH; assumption.
Qed.

Lemma validate_error (mm : MemberMap) (l : list (Id * MembershipInfo)) (st : Status) :
  validate_membership mm l = inl st -> st <> OK.
Proof.
  unfold validate_membership.
  destruct (decide _); [|intros H; inversion H; discriminate].
  destruct (decide _); [|intros H; inversion H; discriminate].
  destruct (build_membership l); intros H; inversion H; discriminate.
Qed.

Lemma validate_perm (mm : MemberMap) (l : list (Id * MembershipInfo)) (des : Membership) :
  validate_membership mm l = inr des -> ordered des /\ des ≡ₚ l.
Proof.
  unfold validate_membership.
  destruct (decide _); [|discriminate].
  destruct (decide _); [|discriminate].
  destruct (build_membership l) as [mem|] eqn:E; [|discriminate].
  intros H; inversion H; subst. apply BuildProofs.build_membership_some. exact E.
Qed.

Lemma member_info_validated (mm : MemberMap) (l : list (Id * MembershipInfo))
    (des : Membership) (n : N) (m : Id) (w : Z) (wt : WatchPort) :
  validate_membership mm l = inr des ->
  membership_get_member_info (mkGroupMembership des n) m = Some (w, wt) <->
  In (m, mkMembershipInfo w wt) l.
Proof.
  intros Hv. destruct (validate_perm _ _ _ Hv) as [Ho Hp].
  unfold membership_get_member_info. simpl.
  assert (Hin : In (m, mkMembershipInfo w wt) des <-> In (m, mkMembershipInfo w wt) l)
    by (split; apply Permutation_in; [exact Hp|symmetry; exact Hp]).
  rewrite <- Hin. clear Hin.
  destruct (alookup m des) as [[w' wt']|] eqn:E; simpl.
  - split.
    + intros H; inversion H; subst. apply (alookup_ordered _ _ _ Ho). exact E.
    + intros Hin. apply (alookup_ordered _ _ _ Ho) in Hin. rewrite E in Hin.
      inversion Hin; reflexivity.
  - split; [discriminate|]. intros Hin. apply (alookup_ordered _ _ _ Ho) in Hin. congruence.
Qed.

End LookupProofs.

Module GroupSetProofs.

Lemma purge_loop_groups (n : nat) (hs : list N) (d : Device) :
  dev_groups (purge_loop n hs d).2 = dev_groups d.
Proof.
  revert hs d. induction n as [|n IH]; intros hs d; simpl; [reflexivity|].
  destruct (last hs) as [h|]; [|reflexivity].
  unfold dev_member_delete, dev_tick.
  destruct (dev_ok d); simpl; [rewrite IH|]; reflexivity.
Qed.

Lemma wrapper_groups (ms : MemberState) (d : Device) :
  dev_groups (purge_unused_weighted_members_wrapper ms d).2 = dev_groups d.
Proof.
  unfold purge_unused_weighted_members_wrapper, purge_unused_weighted_members.
  pose proof (purge_loop_groups (length (handles ms) - Z.to_nat (wc_max (weight_counts ms)))
                (handles ms) d) as H.
  destruct (purge_loop _ _ _) as [[[|] hs] d1]; simpl in *; exact H.
Qed.

Lemma phase_purge_groups (ups : list MembershipUpdate) (mm : MemberMap) (d : Device)
    (crit : bool) :
  dev_groups (phase_purge ups mm d crit).2 = dev_groups d.
Proof.
  revert mm d crit. induction ups as [|u ups IH]; intros mm d crit; simpl; [reflexivity|].
  destruct (decide (0 < current_weight u)); [|apply IH].
  destruct (mm !! uid u) as [ms|]; [|apply IH].
  pose proof (wrapper_groups (set_weight_counts ms (wc_decr (current_weight u) (weight_counts ms))) d)
    as Hw.
  destruct (purge_unused_weighted_members_wrapper _ d) as [[rep ms2] d'].
  simpl in Hw. rewrite IH. exact Hw.
Qed.

Lemma gum_group_set (mm : MemberMap) (gh : N) (cur des : Membership) (d : Device) :
  ordered cur -> ordered des -> weights_positive cur -> weights_positive des ->
  (forall m ms a b, mm !! m = Some ms -> alookup m cur = Some a -> alookup m des = Some b ->
     (Z.to_nat (weight b) <=
      Z.to_nat (wc_max (wc_decr (weight a) (wc_incr (weight b) (weight_counts ms)))))%nat) ->
  o_status (group_update_members mm gh cur des d) = OK ->
  o_critical (group_update_members mm gh cur des d) = false ->
  dev_groups (o_dev (group_update_members mm gh cur des d)) !! gh =
    Some (group_handles (o_state (group_update_members mm gh cur des d)) des).
Proof.
  intros Hoc Hod Hpc Hpd Hk. unfold group_update_members.
  set (ups := compute_membership_update cur des).
  destruct (phase_create ups mm d []) as [[[st mm1] d1] created] eqn:Ec.
  destruct st; simpl; try discriminate.
  destruct (dev_group_set gh (group_handles mm1 des) d1) as [[|] d2] eqn:Es; simpl; [|discriminate].
  pose proof (phase_purge_groups ups mm1 d2 false) as Hg.
  destruct (phase_purge ups mm1 d2 false) as [[crit mm3] d3] eqn:Ep; simpl in *.
  intros _ ->.
  rewrite Hg. unfold dev_group_set in Es. destruct (dev_ok d1); inversion Es; subst. simpl.
  rewrite lookup_insert_eq. f_equal.
  unfold group_handles. f_equal. apply map_ext_in. intros [m b] Hin. simpl.
  assert (Hb : alookup m des = Some b) by (apply LookupProofs.alookup_ordered; assumption).
  pose proof (DiffProofs.for_id_cmu m cur des Hoc Hod) as Hf. fold ups in Hf.
  destruct (PhaseProofs.phase_create_member _ _ _ _ _ _ _ m Ec) as [_ Hc2].
  destruct (PhaseProofs.phase_purge_member _ _ _ _ _ m Ep) as [_ Hp2].
  pose proof (MemberProofs.positive_lookup _ _ _ Hpd Hb) as Hwb.
  rewrite Hb in Hf.
  destruct (alookup m cur) as [a|] eqn:Ea; simpl in Hf.
  - pose proof (MemberProofs.positive_lookup _ _ _ Hpc Ea) as Hwa.
    specialize (Hc2 _ Hf). specialize (Hp2 _ Hf).
    unfold upd_both in Hc2, Hp2. cbn [new_weight current_weight] in Hc2, Hp2.
    rewrite decide_True in Hc2 by lia.
    destruct Hc2 as (ms & hs & Hm & Hm1 & _).
    rewrite Hp2, Hm1. unfold purge_at. cbn [current_weight]. rewrite decide_True by lia.
    simpl. rewrite take_take. f_equal. specialize (Hk m ms a b Hm Ea Hb). lia.
  - specialize (Hp2 _ Hf). unfold upd_insert in Hp2. cbn [current_weight] in Hp2.
    rewrite Hp2. unfold purge_at. cbn [current_weight]. rewrite decide_False by lia.
    reflexivity.
Qed.

End GroupSetProofs.

Module CountProofs.

Lemma max_weight_ge (w : Z) (ws : list Z) : In w ws -> w <= max_weight ws.
Proof.
  induction ws as [|x ws IH]; simpl; [intros []|].
  intros [->|H]; [lia|]. specialize (IH H). lia.
Qed.

Lemma in_member_weights (gms : gmap Id ActionProfGroupMembership) (g m : Id)
    (gm : ActionProfGroupMembership) (b : MembershipInfo) :
  gms !! g = Some gm -> alookup m (members gm) = Some b ->
  In (weight b) (member_weights gms m).
Proof.
  intros Hg Hb. apply (Permutation_in _ (Permutation_sym (WeightsProofs.mw_delete gms g gm m Hg))).
  unfold requested. rewrite Hb. left. reflexivity.
Qed.

Lemma sum_perm (l l' : list (Id * MembershipInfo)) :
  l ≡ₚ l' ->
  sum_list_with (fun p => Z.to_nat (weight p.2)) l =
  sum_list_with (fun p => Z.to_nat (weight p.2)) l'.
Proof.
  induction 1 as [|x l l' _ IH|x y l|l l' l'' _ IH1 _ IH2]; simpl; lia.
Qed.

Lemma group_handles_length (mm : MemberMap) (des : Membership) :
  (forall p, In p des -> exists ms, mm !! p.1 = Some ms /\
     (Z.to_nat (weight p.2) <= length (handles ms))%nat) ->
  length (group_handles mm des) = sum_list_with (fun p => Z.to_nat (weight p.2)) des.
Proof.
  unfold group_handles. induction des as [|p des IH]; intros H; simpl; [reflexivity|].
  rewrite length_app. destruct (H p (or_introl eq_refl)) as (ms & Hm & Hl).
  rewrite Hm, length_take, IH by (intros q Hq; apply H; right; exact Hq). lia.
Qed.

Lemma stored_group_length (s : Manual) (d : Device) (gid : Id)
    (gm : ActionProfGroupMembership) :
  manual_inv s d -> group_members s !! gid = Some gm ->
  (forall p, In p (members gm) -> is_Some (member_map s !! p.1)) ->
  length (group_handles (member_map s) (members gm)) =
  sum_list_with (fun p => Z.to_nat (weight p.2)) (members gm).
Proof.
  intros (H0 & _ & _ & H4) Hg Hex. destruct (H0 _ _ Hg) as [Ho Hp].
  apply group_handles_length. intros [m b] Hin. simpl.
  destruct (Hex _ Hin) as [ms Hm]. simpl in Hm. exists ms. split; [exact Hm|].
  destruct (H4 _ _ Hm) as [Hw Hl]. rewrite Hw, HistProofs.wc_max_hist in Hl.
  assert (Hb : alookup m (members gm) = Some b) by (apply LookupProofs.alookup_ordered; assumption).
  pose proof (max_weight_ge _ _ (in_member_weights _ _ _ _ _ Hg Hb)). lia.
Qed.

Lemma validate_members (mm : MemberMap) (l : list (Id * MembershipInfo)) (des : Membership) :
  validate_membership mm l = inr des -> forall p, In p des -> is_Some (mm !! p.1).
Proof.
  intros Hv. destruct (LookupProofs.validate_perm _ _ _ Hv) as [_ Hp].
  unfold validate_membership in Hv.
  destruct (decide (Forall _ l)); [|discriminate].
  destruct (decide (Forall _ l)) as [He|]; [|discriminate].
  intros p Hin. rewrite List.Forall_forall in He. apply He. eapply Permutation_in; eassumption.
Qed.

Lemma gum_members_kept (mm : MemberMap) (gh : N) (cur des : Membership) (d : Device) (m : Id) :
  ordered cur -> ordered des -> weights_positive cur -> weights_positive des ->
  o_status (group_update_members mm gh cur des d) = OK ->
  o_critical (group_update_members mm gh cur des d) = false ->
  is_Some (mm !! m) -> is_Some (o_state (group_update_members mm gh cur des d) !! m).
Proof.
  intros Hoc Hod Hpc Hpd Hs Hc [ms Hm].
  pose proof (MemberProofs.gum_member mm gh cur des d m Hoc Hod Hpc Hpd Hs Hc) as Hg.
  rewrite Hm in Hg. destruct Hg as (hs & ms' & Hm' & _). rewrite Hm'. eauto.
Qed.

End CountProofs.

Module RoundTripProofs.

Lemma phase_create_ad (ups : list MembershipUpdate) (mm mm1 : MemberMap) (d d1 : Device)
    (cr cr1 : list N) (st : Status) (m : Id) :
  phase_create ups mm d cr = (st, mm1, d1, cr1) ->
  action_data <$> mm1 !! m = action_data <$> mm !! m.
Proof.
  revert mm d cr. induction ups as [|u ups IH]; intros mm d cr; simpl.
  - intros H; inversion H; subst. reflexivity.
  - destruct (decide (0 < new_weight u)); [|apply IH].
    destruct (mm !! uid u) as [ms|] eqn:Em; [|intros H; inversion H; subst; reflexivity].
    unfold create_missing_weighted_members.
    destruct (create_replicas _ _ d) as [[hs|] d'] eqn:Ecr; simpl;
      [|intros H; inversion H; subst; reflexivity].
    intros H. rewrite (IH _ _ _ H).
    destruct (decide (uid u = m)) as [<-|Hm].
    + rewrite lookup_insert_eq, Em. reflexivity.
    + rewrite lookup_insert_ne by exact Hm. reflexivity.
Qed.

Lemma phase_purge_ad (ups : list MembershipUpdate) (mm : MemberMap) (d : Device)
    (crit : bool) (m : Id) :
  action_data <$> (phase_purge ups mm d crit).1.2 !! m = action_data <$> mm !! m.
Proof.
  revert mm d crit. induction ups as [|u ups IH]; intros mm d crit; simpl; [reflexivity|].
  destruct (decide (0 < current_weight u)); [|apply IH].
  destruct (mm !! uid u) as [ms|] eqn:Em; [|apply IH].
  unfold purge_unused_weighted_members_wrapper, purge_unused_weighted_members.
  destruct (purge_loop _ _ d) as [[[|] hs] d1]; simpl; rewrite IH;
    (destruct (decide (uid u = m)) as [<-|Hm];
     [rewrite lookup_insert_eq, Em; reflexivity
     |rewrite lookup_insert_ne by exact Hm; reflexivity]).
Qed.

Lemma gum_ad (mm : MemberMap) (gh : N) (cur des : Membership) (d : Device) (m : Id) :
  action_data <$> o_state (group_update_members mm gh cur des d) !! m =
  action_data <$> mm !! m.
Proof.
  unfold group_update_members.
  destruct (phase_create _ mm d []) as [[[st mm1] d1] created] eqn:Ec.
  destruct st; simpl; try reflexivity.
  destruct (dev_group_set gh _ d1) as [[|] d2]; simpl; [|reflexivity].
  pose proof (phase_purge_ad (compute_membership_update cur des) mm1 d2 false m) as Hp.
  destruct (phase_purge _ mm1 d2 false) as [[crit mm3] d3]; simpl in *.
  rewrite Hp. exact (phase_create_ad _ _ _ _ _ _ _ _ m Ec).
Qed.

Lemma member_state_eq (ms ms' : MemberState) :
  action_data ms' = action_data ms -> handles ms' = handles ms ->
  weight_counts ms' = weight_counts ms -> ms' = ms.
Proof. destruct ms, ms'; simpl; intros -> -> ->; reflexivity. Qed.

End RoundTripProofs.

Module OneshotHandleProofs.

Lemma create_replicas_range (a : ActionData) (n : nat) (d d' : Device) (hs : list N) :
  create_replicas a n d = (Some hs, d') ->
  NoDup hs /\ Forall (fun h => (dev_next d <= h < dev_next d')%N) hs /\
  (dev_next d <= dev_next d')%N.
Proof.
  revert d hs. induction n as [|n IH]; intros d hs; simpl.
  - intros H; inversion H; subst. split; [constructor|]. split; [constructor|lia].
  - destruct (dev_member_create a d) as [[h|] d1] eqn:Ec; [|discriminate].
    destruct (create_replicas a n d1) as [[hs1|] d2] eqn:Er; [|discriminate].
    intros H; inversion H; subst; clear H.
    assert (Hh : h = dev_next d /\ dev_next d1 = (dev_next d + 1)%N).
    { unfold dev_member_create, dev_tick in Ec. destruct (dev_ok d); inversion Ec; subst.
      split; reflexivity. }
    destruct Hh as [-> Hd1].
    destruct (IH _ _ Er) as (Hnd & Hr & Hle).
    split; [|split].
    + constructor; [|exact Hnd]. rewrite list_elem_of_In. intros Hin.
      rewrite List.Forall_forall in Hr. specialize (Hr _ Hin). lia.
    + constructor; [lia|]. eapply Forall_impl; [exact Hr|]. simpl. intros x Hx. lia.
    + lia.
Qed.

Lemma copies_handles (e : ActionProfileAction) (hs : list N) :
  map member_h (oneshot_copies e hs) = hs.
Proof.
  destruct hs as [|h hs]; [reflexivity|]. simpl. f_equal.
  rewrite map_map. simpl. apply map_id.
Qed.

Lemma oneshot_create_members_range (es : list ActionProfileAction) (d d' : Device)
    (ms : list OneShotMember) :
  oneshot_create_members es d = (Some ms, d') ->
  NoDup (map member_h ms) /\
  Forall (fun h => (dev_next d <= h < dev_next d')%N) (map member_h ms) /\
  (dev_next d <= dev_next d')%N.
Proof.
  revert d ms. induction es as [|e es IH]; intros d ms; simpl.
  - intros H; inversion H; subst. split; [constructor|]. split; [constructor|lia].
  - destruct (create_replicas _ _ d) as [[hs|] d1] eqn:Ec; [|discriminate].
    destruct (oneshot_create_members es d1) as [[ms1|] d2] eqn:Eo; [|discriminate].
    intros H; inversion H; subst; clear H.
    destruct (create_replicas_range _ _ _ _ _ Ec) as (Hn1 & Hr1 & Hl1).
    destruct (IH _ _ Eo) as (Hn2 & Hr2 & Hl2).
    rewrite map_app, copies_handles.
    rewrite List.Forall_forall in Hr1, Hr2.
    split; [|split].
    + apply NoDup_app. split; [exact Hn1|]. split; [|exact Hn2].
      intros x Hx1 Hx2. rewrite list_elem_of_In in Hx1, Hx2.
      specialize (Hr1 _ Hx1). specialize (Hr2 _ Hx2). lia.
    + rewrite List.Forall_forall. intros x Hx. apply in_app_or in Hx as [Hx|Hx].
      * specialize (Hr1 _ Hx). lia.
      * specialize (Hr2 _ Hx). lia.
    + lia.
Qed.

End OneshotHandleProofs.

Module IdemProofs.

Lemma ordered_perm_eq (l1 l2 : Membership) :
  ordered l1 -> ordered l2 -> l1 ≡ₚ l2 -> l1 = l2.
Proof.
  revert l2. induction l1 as [|x l1 IH]; intros l2 H1 H2 P.
  - symmetry. apply Permutation_nil. exact P.
  - destruct l2 as [|y l2].
    { apply Permutation_sym, Permutation_nil in P. discriminate. }
    destruct (DiffProofs.ordered_tail _ _ H1) as [H1' F1].
    destruct (DiffProofs.ordered_tail _ _ H2) as [H2' F2].
    rewrite List.Forall_forall in F1, F2.
    assert (Hxy : x = y).
    { assert (Hx : In x (y :: l2)) by (eapply Permutation_in; [exact P|left; reflexivity]).
      assert (Hy : In y (x :: l1))
        by (eapply Permutation_in; [apply Permutation_sym; exact P|left; reflexivity]).
      destruct Hx as [Hx|Hx]; [symmetry; exact Hx|].
      destruct Hy as [Hy|Hy]; [exact Hy|].
      specialize (F1 _ Hy). specialize (F2 _ Hx). lia. }
    subst y. f_equal. apply IH; [exact H1'|exact H2'|].
    eapply Permutation_cons_inv. exact P.
Qed.

End IdemProofs.

(** X2: after a successful [group_create] on a store whose group handles
    were all handed out by the device (they lie below its next fresh
    handle), the group id, unmapped before, maps to a handle that was
    unused and now maps back to it; [group_get_max_size_user] returns the
    requested size; [get_member_info] finds exactly the requested members
    with their weight and watch; other groups' handles and member
    information are unchanged. *)
Theorem group_create_read_back (s : Manual) (g : GroupMsg) (d : Device) :
  (forall h gid, retrieve_group_id s h = Some gid -> (h < dev_next d)%N) ->
  g_status (group_create s g d) = OK ->
  let s' := g_state (group_create s g d) in
  retrieve_group_handle s (group_id g) = None /\
  (exists gh, retrieve_group_handle s' (group_id g) = Some gh /\
     retrieve_group_id s' gh = Some (group_id g) /\ retrieve_group_id s gh = None) /\
  group_get_max_size_user s' (group_id g) = Some (max_group_size g) /\
  (forall m w wt, get_member_info s' (group_id g) m = Some (w, wt) <->
                  In (m, mkMembershipInfo w wt) (msg_members g)) /\
  (forall gid m, gid <> group_id g ->
     retrieve_group_handle s' gid = retrieve_group_handle s gid /\
     get_member_info s' gid m = get_member_info s gid m).
Proof.
  intros H3. unfold group_create.
  destruct (ActionProfBiMap.retrieve_handle _ _) as [gh0|] eqn:Er; [discriminate|].
  destruct (validate_membership _ _) as [st|des] eqn:Ev.
  { simpl. intros ->. exfalso. exact (LookupProofs.validate_error _ _ _ Ev eq_refl). }
  destruct (dev_group_create d) as [[gh|] d1] eqn:Eg; [|discriminate].
  destruct (DevNextProofs.group_create_some _ _ _ Eg) as [Hgh _].
  destruct (IS_ERROR _) eqn:Ee; [simpl; intros Hs; rewrite Hs in Ee; discriminate|].
  intros _. unfold ActionProfBiMap.retrieve_handle in Er.
  assert (H21 : ActionProfBiMap.map_2_1 (group_bimap s) !! gh = None).
  { destruct (ActionProfBiMap.map_2_1 (group_bimap s) !! gh) as [g0|] eqn:E; [|reflexivity].
    apply H3 in E. lia. }
  unfold retrieve_group_handle, retrieve_group_id, group_get_max_size_user, get_member_info,
    ActionProfBiMap.retrieve_handle, ActionProfBiMap.retrieve_id, ActionProfBiMap.add.
  simpl. rewrite Er, H21. simpl.
  split; [reflexivity|]. split.
  { exists gh. rewrite !lookup_insert_eq. split; [reflexivity|]. split; [reflexivity|exact H21]. }
  rewrite lookup_insert_eq. split; [reflexivity|]. split.
  - intros m w wt. apply (LookupProofs.member_info_validated _ _ _ _ _ _ _ Ev).
  - intros gid m Hne. rewrite !lookup_insert_ne by congruence. split; reflexivity.
Qed.

Lemma group_create_read_back_witness :
  let A := mkActionData 1 [7] in
  let mm : MemberMap := <[1%N := mkMemberState A [] ∅]> (<[2%N := mkMemberState A [] ∅]> ∅) in
  let s := mkManual mm ActionProfBiMap.empty_map ∅ in
  let d := mkDevice 100 0 (fun _ => false) ∅ ∅ in
  let g := mkGroupMsg 10 4 [(2%N, mkMembershipInfo 3 invalid_watch);
                            (1%N, mkMembershipInfo 2 invalid_watch)] in
  (forall h gid, retrieve_group_id s h = Some gid -> (h < dev_next d)%N) /\
  g_status (group_create s g d) = OK /\
  let s' := g_state (group_create s g d) in
  retrieve_group_handle s (group_id g) = None /\
  (exists gh, retrieve_group_handle s' (group_id g) = Some gh /\
     retrieve_group_id s' gh = Some (group_id g) /\ retrieve_group_id s gh = None) /\
  group_get_max_size_user s' (group_id g) = Some (max_group_size g) /\
  (forall m w wt, get_member_info s' (group_id g) m = Some (w, wt) <->
                  In (m, mkMembershipInfo w wt) (msg_members g)) /\
  (forall gid m, gid <> group_id g ->
     retrieve_group_handle s' gid = retrieve_group_handle s gid /\
     get_member_info s' gid m = get_member_info s gid m).
Proof.
  intros A mm s d g.
  assert (Hi : forall h gid, retrieve_group_id s h = Some gid -> (h < dev_next d)%N).
  { intros h gid H. vm_compute in H. discriminate H. }
  assert (Hs : g_status (group_create s g d) = OK) by (vm_compute; reflexivity).
  split; [exact Hi|]. split; [exact Hs|].
  exact (group_create_read_back s g d Hi Hs).
Defined.

(** X3: a successful [group_modify] is only possible for an existing
    group; it leaves every id/handle mapping unchanged, [get_member_info]
    then finds exactly the new membership, and other groups' member
    information is unchanged. *)
Theorem group_modify_read_back (s : Manual) (g : GroupMsg) (d : Device) :
  g_status (group_modify s g d) = OK ->
  let s' := g_state (group_modify s g d) in
  is_Some (retrieve_group_handle s (group_id g)) /\
  (forall gid, retrieve_group_handle s' gid = retrieve_group_handle s gid) /\
  (forall gh, retrieve_group_id s' gh = retrieve_group_id s gh) /\
  (forall m w wt, get_member_info s' (group_id g) m = Some (w, wt) <->
                  In (m, mkMembershipInfo w wt) (msg_members g)) /\
  (forall gid m, gid <> group_id g -> get_member_info s' gid m = get_member_info s gid m).
Proof.
  unfold group_modify.
  destruct (ActionProfBiMap.retrieve_handle _ _) as [gh|] eqn:Er; [|discriminate].
  destruct (group_members s !! group_id g) as [gm|] eqn:Eg; [|discriminate].
  destruct (validate_membership _ _) as [st|des] eqn:Ev.
  { simpl. intros ->. exfalso. exact (LookupProofs.validate_error _ _ _ Ev eq_refl). }
  destruct (IS_ERROR _) eqn:Ee; [simpl; intros Hs; rewrite Hs in Ee; discriminate|].
  intros _.
  unfold retrieve_group_handle, retrieve_group_id, group_get_max_size_user, get_member_info.
  simpl. split; [rewrite Er; eauto|]. split; [reflexivity|]. split; [reflexivity|].
  rewrite lookup_insert_eq. split.
  - intros m w wt. apply (LookupProofs.member_info_validated _ _ _ _ _ _ _ Ev).
  - intros gid m Hne. rewrite lookup_insert_ne by congruence. reflexivity.
Qed.

Lemma group_modify_read_back_witness :
  let A := mkActionData 1 [7] in
  let mm : MemberMap := <[1%N := mkMemberState A [] ∅]> (<[2%N := mkMemberState A [] ∅]> ∅) in
  let d := mkDevice 100 0 (fun _ => false) ∅ ∅ in
  let r := group_create (mkManual mm ActionProfBiMap.empty_map ∅)
             (mkGroupMsg 10 4 [(2%N, mkMembershipInfo 3 invalid_watch);
                               (1%N, mkMembershipInfo 2 invalid_watch)]) d in
  let s := g_state r in
  let g := mkGroupMsg 10 4 [(1%N, mkMembershipInfo 1 invalid_watch)] in
  g_status (group_modify s g (g_dev r)) = OK /\
  let s' := g_state (group_modify s g (g_dev r)) in
  is_Some (retrieve_group_handle s (group_id g)) /\
  (forall gid, retrieve_group_handle s' gid = retrieve_group_handle s gid) /\
  (forall gh, retrieve_group_id s' gh = retrieve_group_id s gh) /\
  (forall m w wt, get_member_info s' (group_id g) m = Some (w, wt) <->
                  In (m, mkMembershipInfo w wt) (msg_members g)) /\
  (forall gid m, gid <> group_id g -> get_member_info s' gid m = get_member_info s gid m).
Proof.
  intros A mm d r s g.
  assert (Hs : g_status (group_modify s g (g_dev r)) = OK) by (vm_compute; reflexivity).
  split; [exact Hs|].
  exact (group_modify_read_back s g (g_dev r) Hs).
Defined.

(** X4: after a successful [group_delete] of a group with handle [gh],
    neither the id nor the handle can be retrieved, the maximum size and
    the member information of the group are gone, and other groups'
    handles and member information are unchanged. *)
Theorem group_delete_lookups (s : Manual) (gid : Id) (gh : pi_indirect_handle_t) (d : Device) :
  retrieve_group_handle s gid = Some gh ->
  g_status (group_delete s gid d) = OK ->
  let s' := g_state (group_delete s gid d) in
  retrieve_group_handle s' gid = None /\
  retrieve_group_id s' gh = None /\
  group_get_max_size_user s' gid = None /\
  (forall m, get_member_info s' gid m = None) /\
  (forall gid' m, gid' <> gid ->
     retrieve_group_handle s' gid' = retrieve_group_handle s gid' /\
     get_member_info s' gid' m = get_member_info s gid' m).
Proof.
  unfold retrieve_group_handle at 1. intros Hr. unfold group_delete. rewrite Hr.
  destruct (group_members s !! gid) as [gm|] eqn:Eg; [|discriminate].
  destruct (IS_ERROR _) eqn:Ee; [simpl; intros Hs; rewrite Hs in Ee; discriminate|].
  destruct (dev_group_delete gh _) as [[|] d1]; [|discriminate].
  intros _. unfold ActionProfBiMap.retrieve_handle in Hr.
  unfold retrieve_group_handle, retrieve_group_id, group_get_max_size_user, get_member_info,
    ActionProfBiMap.retrieve_handle, ActionProfBiMap.retrieve_id, ActionProfBiMap.remove.
  simpl. rewrite Hr. simpl. rewrite !lookup_delete_eq.
  split; [reflexivity|]. split; [reflexivity|]. split; [reflexivity|]. split; [reflexivity|].
  intros gid' m Hne. rewrite !lookup_delete_ne by congruence. split; reflexivity.
Qed.

Lemma group_delete_lookups_witness :
  let A := mkActionData 1 [7] in
  let mm : MemberMap := <[1%N := mkMemberState A [] ∅]> (<[2%N := mkMemberState A [] ∅]> ∅) in
  let d := mkDevice 100 0 (fun _ => false) ∅ ∅ in
  let r := group_create (mkManual mm ActionProfBiMap.empty_map ∅)
             (mkGroupMsg 10 4 [(2%N, mkMembershipInfo 3 invalid_watch);
                               (1%N, mkMembershipInfo 2 invalid_watch)]) d in
  let s := g_state r in
  retrieve_group_handle s 10 = Some 100%N /\
  g_status (group_delete s 10 (g_dev r)) = OK /\
  let s' := g_state (group_delete s 10 (g_dev r)) in
  retrieve_group_handle s' 10 = None /\
  retrieve_group_id s' 100 = None /\
  group_get_max_size_user s' 10 = None /\
  (forall m, get_member_info s' 10 m = None) /\
  (forall gid' m, gid' <> 10%N ->
     retrieve_group_handle s' gid' = retrieve_group_handle s gid' /\
     get_member_info s' gid' m = get_member_info s gid' m).
Proof.
  intros A mm d r s.
  assert (Hr : retrieve_group_handle s 10 = Some 100%N) by (vm_compute; reflexivity).
  assert (Hs : g_status (group_delete s 10 (g_dev r)) = OK) by (vm_compute; reflexivity).
  split; [exact Hr|]. split; [exact Hs|].
  exact (group_delete_lookups s 10 100 (g_dev r) Hr Hs).
Defined.

Module ReachProofs.

(** The store invariant holds in every state reached from members with
    no replicas and no groups by operations with no critical report. *)
Lemma reachable_inv (mm : MemberMap) (os : list GroupOp) (d0 : Device) :
  map_Forall (fun _ ms => handles ms = [] /\ weight_counts ms = ∅) mm ->
  (run_group_ops (mkManual mm ActionProfBiMap.empty_map ∅) os d0 false).2 = false ->
  manual_inv (run_group_ops (mkManual mm ActionProfBiMap.empty_map ∅) os d0 false).1.1
             (run_group_ops (mkManual mm ActionProfBiMap.empty_map ∅) os d0 false).1.2.
Proof.
  intros Hmm Hc. apply OpProofs.run_group_ops_inv; [|exact Hc].
  apply OpProofs.manual_inv_init, Hmm.
Qed.

Lemma create_delete_restores (s : Manual) (g : GroupMsg) (d : Device) :
  manual_inv s d ->
  g_status (group_create s g d) = OK -> g_critical (group_create s g d) = false ->
  let s1 := g_state (group_create s g d) in
  let d1 := g_dev (group_create s g d) in
  g_status (group_delete s1 (group_id g) d1) = OK ->
  g_critical (group_delete s1 (group_id g) d1) = false ->
  g_state (group_delete s1 (group_id g) d1) = s.
Proof.
  intros (H0 & H2 & H3 & H4). unfold group_create.
  destruct (ActionProfBiMap.retrieve_handle _ _) as [gh0|] eqn:Er; [discriminate|].
  destruct (validate_membership _ _) as [st|des] eqn:Ev.
  { simpl. intros ->. exfalso. exact (LookupProofs.validate_error _ _ _ Ev eq_refl). }
  destruct (ValidateProofs.validate_ok _ _ _ Ev) as [Hod Hpd].
  destruct (dev_group_create d) as [[gh|] d1] eqn:Eg; [|discriminate].
  destruct (DevNextProofs.group_create_some _ _ _ Eg) as [Hgh _].
  destruct (IS_ERROR _) eqn:Ee; [simpl; intros Hs; rewrite Hs in Ee; discriminate|].
  apply OpProofs.is_error_ok in Ee. simpl. intros _ Hcr.
  unfold ActionProfBiMap.retrieve_handle in Er.
  assert (H21 : ActionProfBiMap.map_2_1 (group_bimap s) !! gh = None).
  { destruct (ActionProfBiMap.map_2_1 (group_bimap s) !! gh) as [g0|] eqn:E; [|reflexivity].
    apply H3 in E. lia. }
  assert (Hgms : group_members s !! group_id g = None).
  { destruct (group_members s !! group_id g) eqn:E; [|reflexivity].
    destruct (H2 (group_id g) ltac:(rewrite E; eauto)) as [? Hx]. congruence. }
  set (mm1 := o_state (group_update_members (member_map s) gh [] des d1)).
  set (d2 := o_dev (group_update_members (member_map s) gh [] des d1)).
  unfold group_delete, ActionProfBiMap.add. simpl. rewrite Er, H21. simpl.
  unfold ActionProfBiMap.retrieve_handle. simpl. rewrite !lookup_insert_eq. simpl.
  destruct (IS_ERROR (o_status (group_update_members mm1 gh des [] d2))) eqn:Ee2;
    [simpl; intros Hs; rewrite Hs in Ee2; discriminate|].
  apply OpProofs.is_error_ok in Ee2.
  destruct (dev_group_delete gh _) as [[|] d3]; [|discriminate]. simpl. intros _ Hcr2.
  unfold ActionProfBiMap.remove. simpl. rewrite lookup_insert_eq. simpl.
  destruct s as [mm bm gms]. simpl in *. f_equal.
  - apply map_eq. intros m.
    pose proof (MemberProofs.gum_member mm gh [] des d1 m OpProofs.ordered_nil Hod
                  OpProofs.positive_nil Hpd Ee Hcr) as G1.
    pose proof (MemberProofs.gum_member mm1 gh des [] d2 m Hod OpProofs.ordered_nil
                  Hpd OpProofs.positive_nil Ee2 Hcr2) as G2.
    pose proof (RoundTripProofs.gum_ad mm gh [] des d1 m) as A1.
    pose proof (RoundTripProofs.gum_ad mm1 gh des [] d2 m) as A2.
    fold mm1 in G1, A1. simpl in G1, G2.
    destruct (mm !! m) as [ms|] eqn:Em; [|rewrite G1 in G2; exact G2].
    destruct G1 as (hs & ms1 & Hm1 & Hw1 & Hl1 & Hh1).
    rewrite Hm1 in G2, A2. destruct G2 as (hs2 & ms2 & Hm2 & Hw2 & Hl2 & Hh2).
    rewrite Hm2. f_equal. subst hs2.
    rewrite Hm2 in A2. rewrite Hm1 in A1. simpl in A1, A2. injection A1 as A1. injection A2 as A2.
    destruct (H4 m ms Em) as [Hwc Hlen].
    apply RoundTripProofs.member_state_eq; [congruence| |].
    + rewrite Hh2, Hh1, app_nil_r.
      destruct (alookup m des) as [b|] eqn:Eb.
      * rewrite Hw1, Hwc.
        change (wc_incr (weight b) (hist (member_weights gms m)))
          with (hist (weight b :: member_weights gms m)).
        rewrite HistProofs.hist_decr_incr, <- Hwc.
        rewrite take_app_le by lia. rewrite take_ge by lia. reflexivity.
      * subst hs. apply app_nil_r.
    + rewrite Hw2, Hw1. destruct (alookup m des) as [b|]; [|reflexivity].
      rewrite Hwc. apply HistProofs.hist_decr_incr.
  - unfold ActionProfBiMap.empty_map. destruct bm as [m12 m21]. simpl in *.
    rewrite !delete_insert_id by assumption. reflexivity.
  - apply delete_insert_id. exact Hgms.
Qed.

Lemma modify_same_restores (s : Manual) (g : GroupMsg) (d : Device)
    (gm : ActionProfGroupMembership) :
  manual_inv s d ->
  group_members s !! group_id g = Some gm ->
  msg_members g ≡ₚ members gm ->
  g_status (group_modify s g d) = OK -> g_critical (group_modify s g d) = false ->
  g_state (group_modify s g d) = s.
Proof.
  intros (H0 & H2 & H3 & H4) Hg Hp. unfold group_modify. rewrite Hg.
  destruct (ActionProfBiMap.retrieve_handle _ _) as [gh|] eqn:Er; [|discriminate].
  destruct (validate_membership _ _) as [st|des] eqn:Ev.
  { simpl. intros ->. exfalso. exact (LookupProofs.validate_error _ _ _ Ev eq_refl). }
  destruct (H0 _ _ Hg) as [Hoc Hpc].
  destruct (LookupProofs.validate_perm _ _ _ Ev) as [Hod Hpe].
  assert (Hdes : des = members gm).
  { apply IdemProofs.ordered_perm_eq; [exact Hod|exact Hoc|]. etransitivity; eassumption. }
  subst des.
  destruct (IS_ERROR _) eqn:Ee; [simpl; intros Hs; rewrite Hs in Ee; discriminate|].
  apply OpProofs.is_error_ok in Ee. simpl. intros _ Hcr.
  destruct s as [mm bm gms]. simpl in *. f_equal.
  - apply map_eq. intros m.
    pose proof (MemberProofs.gum_member mm gh (members gm) (members gm) d m Hoc Hoc
                  Hpc Hpc Ee Hcr) as G.
    pose proof (RoundTripProofs.gum_ad mm gh (members gm) (members gm) d m) as A.
    simpl in G.
    destruct (mm !! m) as [ms|] eqn:Em; [|exact G].
    destruct G as (hs & ms' & Hm' & Hw & Hl & Hh).
    rewrite Hm' in A |- *. simpl in A. injection A as A. f_equal.
    destruct (H4 m ms Em) as [Hwc Hlen].
    apply RoundTripProofs.member_state_eq; [exact A| |].
    + rewrite Hh. destruct (alookup m (members gm)) as [b|].
      * rewrite Hwc.
        change (wc_incr (weight b) (hist (member_weights gms m)))
          with (hist (weight b :: member_weights gms m)).
        rewrite HistProofs.hist_decr_incr, <- Hwc.
        rewrite take_app_le by lia. rewrite take_ge by lia. reflexivity.
      * subst hs. apply app_nil_r.
    + rewrite Hw. destruct (alookup m (members gm)) as [b|]; [|reflexivity].
      rewrite Hwc. apply HistProofs.hist_decr_incr.
  - apply insert_id. rewrite Hg. destruct gm; reflexivity.
Qed.

End ReachProofs.

(** X7: in a state reached from members with no replicas and no groups
    by group operations none of which issued a critical report, creating
    a group and then deleting it, both successfully and with no critical
    report, restores the store exactly (member states with their replicas
    and histograms, id/handle map and memberships). *)
Theorem group_create_delete_round_trip (mm : MemberMap) (os : list GroupOp) (d0 : Device)
    (g : GroupMsg) :
  map_Forall (fun _ ms => handles ms = [] /\ weight_counts ms = ∅) mm ->
  let r := run_group_ops (mkManual mm ActionProfBiMap.empty_map ∅) os d0 false in
  r.2 = false ->
  let s := r.1.1 in
  let d := r.1.2 in
  g_status (group_create s g d) = OK -> g_critical (group_create s g d) = false ->
  let s1 := g_state (group_create s g d) in
  let d1 := g_dev (group_create s g d) in
  g_status (group_delete s1 (group_id g) d1) = OK ->
  g_critical (group_delete s1 (group_id g) d1) = false ->
  g_state (group_delete s1 (group_id g) d1) = s.
Proof.
  intros Hmm r Hc s d.
  exact (ReachProofs.create_delete_restores s g d (ReachProofs.reachable_inv mm os d0 Hmm Hc)).
Qed.

Lemma group_create_delete_round_trip_witness :
  let A := mkActionData 1 [7] in
  let mm : MemberMap := <[1%N := mkMemberState A [] ∅]> (<[2%N := mkMemberState A [] ∅]> ∅) in
  let d0 := mkDevice 100 0 (fun _ => false) ∅ ∅ in
  let os := [GroupCreate (mkGroupMsg 11 4 [(1%N, mkMembershipInfo 1 invalid_watch)])] in
  let g := mkGroupMsg 10 4 [(2%N, mkMembershipInfo 3 invalid_watch);
                            (1%N, mkMembershipInfo 2 invalid_watch)] in
  let r := run_group_ops (mkManual mm ActionProfBiMap.empty_map ∅) os d0 false in
  let s := r.1.1 in
  let d := r.1.2 in
  let s1 := g_state (group_create s g d) in
  let d1 := g_dev (group_create s g d) in
  map_Forall (fun _ ms => handles ms = [] /\ weight_counts ms = ∅) mm /\ r.2 = false /\
  g_status (group_create s g d) = OK /\ g_critical (group_create s g d) = false /\
  g_status (group_delete s1 (group_id g) d1) = OK /\
  g_critical (group_delete s1 (group_id g) d1) = false /\
  g_state (group_delete s1 (group_id g) d1) = s.
Proof.
  intros A mm d0 os g r s d s1 d1.
  assert (Hmm : map_Forall (fun _ ms => handles ms = [] /\ weight_counts ms = ∅) mm).
  { apply (bool_decide_unpack _). vm_compute. reflexivity. }
  assert (Hc : r.2 = false) by (vm_compute; reflexivity).
  assert (H1 : g_status (group_create s g d) = OK) by (vm_compute; reflexivity).
  assert (H2 : g_critical (group_create s g d) = false) by (vm_compute; reflexivity).
  assert (H3 : g_status (group_delete s1 (group_id g) d1) = OK) by (vm_compute; reflexivity).
  assert (H4 : g_critical (group_delete s1 (group_id g) d1) = false) by (vm_compute; reflexivity).
  split; [exact Hmm|]. split; [exact Hc|]. split; [exact H1|]. split; [exact H2|].
  split; [exact H3|]. split; [exact H4|].
  exact (group_create_delete_round_trip mm os d0 g Hmm Hc H1 H2 H3 H4).
Defined.

(** X8: in a state reached from members with no replicas and no groups
    by group operations none of which issued a critical report, a
    successful [group_modify] with no critical report that sends a group
    its current membership (in any order) leaves the store exactly as it
    was. *)
Theorem group_modify_same_membership (mm : MemberMap) (os : list GroupOp) (d0 : Device)
    (g : GroupMsg) (gm : ActionProfGroupMembership) :
  map_Forall (fun _ ms => handles ms = [] /\ weight_counts ms = ∅) mm ->
  let r := run_group_ops (mkManual mm ActionProfBiMap.empty_map ∅) os d0 false in
  r.2 = false ->
  let s := r.1.1 in
  let d := r.1.2 in
  group_members s !! group_id g = Some gm ->
  msg_members g ≡ₚ members gm ->
  g_status (group_modify s g d) = OK -> g_critical (group_modify s g d) = false ->
  g_state (group_modify s g d) = s.
Proof.
  intros Hmm r Hc s d.
  exact (ReachProofs.modify_same_restores s g d gm (ReachProofs.reachable_inv mm os d0 Hmm Hc)).
Qed.

Lemma group_modify_same_membership_witness :
  let A := mkActionData 1 [7] in
  let mm : MemberMap := <[1%N := mkMemberState A [] ∅]> (<[2%N := mkMemberState A [] ∅]> ∅) in
  let d0 := mkDevice 100 0 (fun _ => false) ∅ ∅ in
  let g := mkGroupMsg 10 4 [(1%N, mkMembershipInfo 2 invalid_watch);
                            (2%N, mkMembershipInfo 3 invalid_watch)] in
  let g' := mkGroupMsg 10 4 [(2%N, mkMembershipInfo 3 invalid_watch);
                             (1%N, mkMembershipInfo 2 invalid_watch)] in
  let os := [GroupCreate g] in
  let r := run_group_ops (mkManual mm ActionProfBiMap.empty_map ∅) os d0 false in
  let s := r.1.1 in
  let d := r.1.2 in
  let gm := mkGroupMembership (msg_members g) 4 in
  map_Forall (fun _ ms => handles ms = [] /\ weight_counts ms = ∅) mm /\ r.2 = false /\
  group_members s !! group_id g' = Some gm /\
  msg_members g' ≡ₚ members gm /\
  g_status (group_modify s g' d) = OK /\
  g_critical (group_modify s g' d) = false /\
  g_state (group_modify s g' d) = s.
Proof.
  intros A mm d0 g g' os r s d gm.
  assert (Hmm : map_Forall (fun _ ms => handles ms = [] /\ weight_counts ms = ∅) mm).
  { apply (bool_decide_unpack _). vm_compute. reflexivity. }
  assert (Hc : r.2 = false) by (vm_compute; reflexivity).
  assert (Hg : group_members s !! group_id g' = Some gm) by (vm_compute; reflexivity).
  assert (Hp : msg_members g' ≡ₚ members gm) by (simpl; apply Permutation_swap).
  assert (Hs : g_status (group_modify s g' d) = OK) by (vm_compute; reflexivity).
  assert (Hc' : g_critical (group_modify s g' d) = false) by (vm_compute; reflexivity).
  split; [exact Hmm|]. split; [exact Hc|]. split; [exact Hg|]. split; [exact Hp|].
  split; [exact Hs|]. split; [exact Hc'|].
  exact (group_modify_same_membership mm os d0 g' gm Hmm Hc Hg Hp Hs Hc').
Defined.

(** X9: on a freshly constructed manager, [get_selector_usage] is
    UNSPECIFIED until the first [manual()] or [oneshot()] call and then
    the style of that first call, whatever calls follow. *)
Theorem get_selector_usage_run (cs : list MgrCall) :
  get_selector_usage (run_mgr cs mgr_init) =
  match cs with
  | [] => UNSPECIFIED
  | CallManual :: _ => MANUAL
  | CallOneshot :: _ => ONESHOT
  end.
Proof.
  destruct cs as [|c cs]; [reflexivity|]. unfold get_selector_usage.
  destruct c; unfold run_mgr; simpl; fold (run_mgr cs);
    apply SelectorProofs.run_mgr_keeps; (discriminate || reflexivity).
Qed.

(** X10: for a bimap built by any sequence of [add] and [remove] calls,
    [empty()] holds exactly when no id and no handle can be retrieved. *)
Theorem bimap_empty_run (os : list ActionProfBiMap.op) :
  let m := ActionProfBiMap.run ActionProfBiMap.empty_map os in
  ActionProfBiMap.empty m = true <->
  (forall id, ActionProfBiMap.retrieve_handle id m = None) /\
  (forall h, ActionProfBiMap.retrieve_id h m = None).
Proof.
  intros m.
  assert (Hb : ActionProfBiMap.bijective m).
  { unfold m, ActionProfBiMap.run.
    generalize BiMapProofs.bijective_empty. generalize ActionProfBiMap.empty_map.
    induction os as [|o os IH]; intros m0 H0; simpl; [exact H0|].
    apply IH. apply BiMapProofs.run_op_bijective. exact H0. }
  unfold ActionProfBiMap.empty, ActionProfBiMap.retrieve_handle, ActionProfBiMap.retrieve_id.
  rewrite bool_decide_eq_true, map_empty. split.
  - intros H. split; [exact H|]. intros h.
    destruct (ActionProfBiMap.map_2_1 m !! h) as [id|] eqn:E; [|reflexivity].
    apply Hb in E. rewrite H in E. discriminate.
  - intros [H _]. exact H.
Qed.

(** X11: after a successful one-shot [group_create] (on a device whose
    live handles lie below its next fresh handle), the device group holds
    exactly the handles of the stored members, in order; these handles are
    pairwise distinct and none of them was a live member before the call. *)
Theorem oneshot_group_handles (s : Oneshot) (es : list ActionProfileAction) (d : Device)
    (gh : N) (s' : Oneshot) (d' : Device) :
  dev_fresh d ->
  oneshot_group_create s es d = (OK, Some gh, s', d') ->
  exists ms, group_get_members s' gh = Some ms /\
    dev_groups d' !! gh = Some (map member_h ms) /\
    NoDup (map member_h ms) /\
    Forall (fun h => dev_members d !! h = None) (map member_h ms).
Proof.
  intros Hf. unfold oneshot_group_create.
  destruct (decide (Forall (fun e => 1 <= ap_weight e) es)) as [Hw|Hw];
    [|intros H; inversion H].
  destruct (oneshot_create_members es d) as [[ms|] d1] eqn:Eo; [|intros H; inversion H].
  destruct (dev_group_create d1) as [[g|] d2] eqn:Eg; [|intros H; inversion H].
  destruct (dev_group_set g (map member_h ms) d2) as [[|] d3] eqn:Es;
    intros H; inversion H; subst.
  destruct (OneshotHandleProofs.oneshot_create_members_range _ _ _ _ Eo) as (Hn & Hr & _).
  exists ms. split; [apply lookup_insert_eq|]. split.
  { unfold dev_group_set in Es. destruct (dev_ok d2); inversion Es; subst.
    simpl. apply lookup_insert_eq. }
  split; [exact Hn|].
  eapply Forall_impl; [exact Hr|]. simpl. intros h [Hh _].
  destruct (dev_members d !! h) eqn:E; [|reflexivity].
  assert (h < dev_next d)%N by (apply Hf; rewrite E; eauto). lia.
Qed.

Lemma oneshot_group_handles_witness :
  let A := mkActionData 1 [7] in
  let B := mkActionData 2 [8] in
  let es := [mkAPAction A 2 invalid_watch; mkAPAction B 3 invalid_watch] in
  let d := mkDevice 100 0 (fun _ => false) ∅ ∅ in
  let r := oneshot_group_create ∅ es d in
  dev_fresh d /\ r = (OK, Some 105%N, r.1.2, r.2) /\
  exists ms, group_get_members r.1.2 105 = Some ms /\
    dev_groups r.2 !! 105%N = Some (map member_h ms) /\
    NoDup (map member_h ms) /\
    Forall (fun h => dev_members d !! h = None) (map member_h ms).
Proof.
  intros A B es d r.
  assert (Hf : dev_fresh d) by (intros k [v Hv]; discriminate Hv).
  assert (Hr : r = (OK, Some 105%N, r.1.2, r.2)) by (vm_compute; reflexivity).
  split; [exact Hf|]. split; [exact Hr|].
  exact (oneshot_group_handles ∅ es d 105 r.1.2 r.2 Hf Hr).
Defined.

Module FrameProofs.

Lemma create_replicas_groups (a : ActionData) (n : nat) (d : Device) :
  dev_groups (create_replicas a n d).2 = dev_groups d.
Proof.
  revert d. induction n as [|n IH]; intros d; simpl; [reflexivity|].
  destruct (dev_member_create a d) as [[h|] d1] eqn:E.
  - assert (H1 : dev_groups d1 = dev_groups d).
    { unfold dev_member_create, dev_tick in E. destruct (dev_ok d); inversion E; reflexivity. }
    pose proof (IH d1) as H2.
    destruct (create_replicas a n d1) as [[hs|] d2]; simpl in *; [congruence|].
    unfold dev_member_delete, dev_tick. destruct (dev_ok d2); simpl; congruence.
  - unfold dev_member_create, dev_tick in E. destruct (dev_ok d); inversion E; reflexivity.
Qed.

Lemma delete_all_groups (hs : list N) (d : Device) :
  dev_groups (dev_delete_all hs d) = dev_groups d.
Proof.
  revert d. induction hs as [|h hs IH]; intros d; simpl; [reflexivity|].
  rewrite IH. unfold dev_member_delete, dev_tick. destruct (dev_ok d); reflexivity.
Qed.

Lemma phase_create_groups (ups : list MembershipUpdate) (mm : MemberMap) (d : Device)
    (cr : list N) :
  dev_groups (phase_create ups mm d cr).1.2 = dev_groups d.
Proof.
  revert mm d cr. induction ups as [|u ups IH]; intros mm d cr; simpl; [reflexivity|].
  destruct (decide (0 < new_weight u)); [|apply IH].
  destruct (mm !! uid u) as [ms|]; [|reflexivity].
  unfold create_missing_weighted_members.
  pose proof (create_replicas_groups (action_data ms)
                (Z.to_nat (wc_max (wc_incr (new_weight u) (weight_counts ms))) -
                 length (handles ms)) d) as Hc.
  destruct (create_replicas _ _ d) as [[hs|] d']; simpl in *; [|exact Hc].
  rewrite IH. exact Hc.
Qed.

Lemma gum_groups_frame (mm : MemberMap) (gh : N) (cur des : Membership) (d : Device) (h : N) :
  h <> gh ->
  dev_groups (o_dev (group_update_members mm gh cur des d)) !! h = dev_groups d !! h.
Proof.
  intros Hne. unfold group_update_members.
  pose proof (phase_create_groups (compute_membership_update cur des) mm d []) as Hc.
  destruct (phase_create _ mm d []) as [[[st mm1] d1] created]; simpl in Hc.
  destruct st; simpl; try (rewrite delete_all_groups, Hc; reflexivity).
  destruct (dev_group_set gh (group_handles mm1 des) d1) as [[|] d2] eqn:Es; simpl.
  - pose proof (GroupSetProofs.phase_purge_groups (compute_membership_update cur des) mm1 d2 false)
      as Hp.
    destruct (phase_purge _ mm1 d2 false) as [[crit mm3] d3]; simpl in *.
    rewrite Hp. unfold dev_group_set in Es. destruct (dev_ok d1); inversion Es; subst.
    simpl. rewrite lookup_insert_ne by congruence. rewrite Hc. reflexivity.
  - rewrite delete_all_groups. unfold dev_group_set, dev_tick in Es.
    destruct (dev_ok d1); inversion Es; subst. simpl. rewrite Hc. reflexivity.
Qed.

End FrameProofs.

Module ProgrammedProofs.

Lemma member_prefix_refl (mm : MemberMap) : member_prefix mm mm.
Proof.
  intros m. destruct (mm !! m) as [ms|]; [|reflexivity].
  exists ms, [], (length (handles ms)). split; [reflexivity|].
  rewrite app_nil_r, take_ge by lia. reflexivity.
Qed.

Lemma gum_prefix (mm : MemberMap) (gh : N) (cur des : Membership) (d : Device) :
  ordered cur -> ordered des -> weights_positive cur -> weights_positive des ->
  o_status (group_update_members mm gh cur des d) = OK ->
  o_critical (group_update_members mm gh cur des d) = false ->
  member_prefix mm (o_state (group_update_members mm gh cur des d)).
Proof.
  intros Hoc Hod Hpc Hpd Hs Hc m.
  pose proof (MemberProofs.gum_member mm gh cur des d m Hoc Hod Hpc Hpd Hs Hc) as G.
  destruct (mm !! m) as [ms|]; [|exact G].
  destruct G as (hs & ms' & Hm' & _ & _ & Hh).
  exists ms', hs. destruct (alookup m cur).
  - eexists. split; [exact Hm'|exact Hh].
  - exists (length (handles ms ++ hs)). split; [exact Hm'|].
    rewrite Hh, take_ge by lia. reflexivity.
Qed.

Lemma gum_error_groups (mm : MemberMap) (gh : N) (cur des : Membership) (d : Device) :
  o_status (group_update_members mm gh cur des d) <> OK ->
  dev_groups (o_dev (group_update_members mm gh cur des d)) = dev_groups d.
Proof.
  unfold group_update_members.
  pose proof (FrameProofs.phase_create_groups (compute_membership_update cur des) mm d []) as Hc.
  destruct (phase_create _ mm d []) as [[[st mm1] d1] created]; simpl in Hc.
  destruct st; simpl; try (intros _; rewrite FrameProofs.delete_all_groups; exact Hc).
  destruct (dev_group_set gh (group_handles mm1 des) d1) as [[|] d2] eqn:Es; simpl.
  - destruct (phase_purge _ mm1 d2 false) as [[crit mm3] d3]; simpl. congruence.
  - intros _. rewrite FrameProofs.delete_all_groups. unfold dev_group_set, dev_tick in Es.
    destruct (dev_ok d1); inversion Es; subst. exact Hc.
Qed.

Lemma take_prefix_eq (l hs : list N) (k w : nat) :
  (w <= length l)%nat -> (w <= length (take k (l ++ hs)))%nat ->
  take w (take k (l ++ hs)) = take w l.
Proof.
  intros H1 H2. rewrite length_take, length_app in H2.
  rewrite take_take, Nat.min_l by lia. apply take_app_le. exact H1.
Qed.

Lemma group_handles_prefix (mm mm' : MemberMap) (gms gms' : gmap Id ActionProfGroupMembership)
    (y : Membership) :
  member_prefix mm mm' -> members_inv mm gms -> members_inv mm' gms' ->
  (forall m b, In (m, b) y ->
     In (weight b) (member_weights gms m) /\ In (weight b) (member_weights gms' m)) ->
  group_handles mm' y = group_handles mm y.
Proof.
  intros Hp Hi Hi' Hy. unfold group_handles. f_equal. apply map_ext_in.
  intros [m b] Hin. simpl. specialize (Hp m).
  destruct (mm !! m) as [ms|] eqn:Em; [|rewrite Hp; reflexivity].
  destruct Hp as (ms' & hs & k & Hm' & Hh). rewrite Hm'.
  destruct (Hy m b Hin) as [Hw Hw'].
  destruct (Hi m ms Em) as [Hc Hl]. destruct (Hi' m ms' Hm') as [Hc' Hl'].
  rewrite Hc, HistProofs.wc_max_hist in Hl. rewrite Hc', HistProofs.wc_max_hist in Hl'.
  pose proof (CountProofs.max_weight_ge _ _ Hw). pose proof (CountProofs.max_weight_ge _ _ Hw').
  rewrite Hh. rewrite Hh in Hl'. apply take_prefix_eq; lia.
Qed.

Lemma op_member_prefix (s : Manual) (o : GroupOp) (d : Device) :
  manual_inv s d -> g_critical (run_group_op s o d) = false ->
  member_prefix (member_map s) (member_map (g_state (run_group_op s o d))).
Proof.
  intros (H0 & H2 & H3 & H4).
  destruct o as [g|g|gid]; simpl.
  - unfold group_create.
    destruct (ActionProfBiMap.retrieve_handle _ _); [intros _; apply member_prefix_refl|].
    destruct (validate_membership _ _) as [st|des] eqn:Ev; [intros _; apply member_prefix_refl|].
    destruct (ValidateProofs.validate_ok _ _ _ Ev) as [Hod Hpd].
    destruct (dev_group_create d) as [[gh|] d1]; [|intros _; apply member_prefix_refl].
    destruct (IS_ERROR _) eqn:Ee; [intros _; apply member_prefix_refl|].
    apply OpProofs.is_error_ok in Ee. simpl. intros Hc.
    exact (gum_prefix _ _ _ _ _ OpProofs.ordered_nil Hod OpProofs.positive_nil Hpd Ee Hc).
  - unfold group_modify.
    destruct (ActionProfBiMap.retrieve_handle _ _) as [gh|]; [|intros _; apply member_prefix_refl].
    destruct (group_members s !! group_id g) as [gm|] eqn:Eg; [|intros _; apply member_prefix_refl].
    destruct (validate_membership _ _) as [st|des] eqn:Ev; [intros _; apply member_prefix_refl|].
    destruct (ValidateProofs.validate_ok _ _ _ Ev) as [Hod Hpd].
    destruct (H0 _ _ Eg) as [Hoc Hpc].
    destruct (IS_ERROR _) eqn:Ee; [intros _; apply member_prefix_refl|].
    apply OpProofs.is_error_ok in Ee. simpl. intros Hc.
    exact (gum_prefix _ _ _ _ _ Hoc Hod Hpc Hpd Ee Hc).
  - unfold group_delete.
    destruct (ActionProfBiMap.retrieve_handle _ _) as [gh|]; [|intros _; apply member_prefix_refl].
    destruct (group_members s !! gid) as [gm|] eqn:Eg; [|intros _; apply member_prefix_refl].
    destruct (H0 _ _ Eg) as [Hoc Hpc].
    destruct (IS_ERROR _) eqn:Ee; [intros _; apply member_prefix_refl|].
    apply OpProofs.is_error_ok in Ee.
    destruct (dev_group_delete gh _) as [[|] d1]; simpl; intros Hc;
      exact (gum_prefix _ _ _ _ _ Hoc OpProofs.ordered_nil Hpc OpProofs.positive_nil Ee Hc).
Qed.

Lemma op_bijective (s : Manual) (o : GroupOp) (d : Device) :
  ActionProfBiMap.bijective (group_bimap s) ->
  ActionProfBiMap.bijective (group_bimap (g_state (run_group_op s o d))).
Proof.
  intros Hb. destruct o as [g|g|gid]; simpl.
  - unfold group_create.
    destruct (ActionProfBiMap.retrieve_handle _ _); [exact Hb|].
    destruct (validate_membership _ _); [exact Hb|].
    destruct (dev_group_create d) as [[gh|] d1]; [|exact Hb].
    destruct (IS_ERROR _); [exact Hb|]. simpl. apply BiMapProofs.add_bijective, Hb.
  - unfold group_modify.
    destruct (ActionProfBiMap.retrieve_handle _ _); [|exact Hb].
    destruct (group_members s !! group_id g); [|exact Hb].
    destruct (validate_membership _ _); [exact Hb|].
    destruct (IS_ERROR _); exact Hb.
  - unfold group_delete.
    destruct (ActionProfBiMap.retrieve_handle _ _); [|exact Hb].
    destruct (group_members s !! gid); [|exact Hb].
    destruct (IS_ERROR _); [exact Hb|].
    destruct (dev_group_delete _ _) as [[|] d1]; simpl; [|exact Hb].
    apply BiMapProofs.remove_bijective, Hb.
Qed.

(** Weights requested by a stored group for its members. *)
Lemma stored_weights (s : Manual) (d : Device) (gid : Id) (gm : ActionProfGroupMembership)
    (m : Id) (b : MembershipInfo) :
  manual_inv s d -> group_members s !! gid = Some gm -> In (m, b) (members gm) ->
  In (weight b) (member_weights (group_members s) m).
Proof.
  intros (H0 & _) Hg Hin. destruct (H0 _ _ Hg) as [Ho _].
  apply (CountProofs.in_member_weights _ gid _ gm); [exact Hg|].
  apply LookupProofs.alookup_ordered; assumption.
Qed.

Lemma modify_room (s : Manual) (d : Device) (gid : Id) (gm : ActionProfGroupMembership)
    (des : Membership) :
  manual_inv s d -> group_members s !! gid = Some gm -> weights_positive des ->
  forall m ms a b, member_map s !! m = Some ms -> alookup m (members gm) = Some a ->
    alookup m des = Some b ->
    (Z.to_nat (weight b) <=
     Z.to_nat (wc_max (wc_decr (weight a) (wc_incr (weight b) (weight_counts ms)))))%nat.
Proof.
  intros (_ & _ & _ & H4) Hg Hpd m ms a b Hm Ha Hb.
  destruct (H4 _ _ Hm) as [Hw _].
  pose proof (WeightsProofs.mw_delete _ _ _ m Hg) as Hperm.
  unfold requested in Hperm. rewrite Ha in Hperm.
  rewrite (HistProofs.hist_perm _ _ Hperm) in Hw. rewrite Hw.
  set (R := member_weights (delete gid (group_members s)) m).
  pose proof (MemberProofs.positive_lookup _ _ _ Hpd Hb).
  change (wc_incr (weight b) (hist ([weight a] ++ R))) with (hist (weight b :: weight a :: R)).
  assert (Hw2 : wc_decr (weight a) (hist (weight b :: weight a :: R)) = hist (weight b :: R)).
  { change (hist (weight b :: weight a :: R)) with (wc_incr (weight b) (wc_incr (weight a) (hist R))).
    rewrite HistProofs.wc_incr_comm. apply (HistProofs.hist_decr_incr _ (weight b :: R)). }
  rewrite Hw2, HistProofs.wc_max_hist. simpl.
  pose proof (HistProofs.max_weight_nonneg R). lia.
Qed.

Lemma bij_handle_ne (m : ActionProfBiMap.t) (g1 g2 h1 h2 : N) :
  ActionProfBiMap.bijective m -> g1 <> g2 ->
  ActionProfBiMap.map_1_2 m !! g1 = Some h1 -> ActionProfBiMap.map_1_2 m !! g2 = Some h2 ->
  h1 <> h2.
Proof.
  intros Hb Hne E1 E2 ->. apply Hb in E1. apply Hb in E2. congruence.
Qed.

Lemma bij_handle_lt (s : Manual) (d : Device) (g h : N) :
  manual_inv s d -> ActionProfBiMap.bijective (group_bimap s) ->
  ActionProfBiMap.map_1_2 (group_bimap s) !! g = Some h -> (h < dev_next d)%N.
Proof.
  intros (_ & _ & H3 & _) Hb E. apply Hb in E. exact (H3 _ _ E).
Qed.

End ProgrammedProofs.

Module StepProgProofs.
Import ProgrammedProofs.

Lemma dev_group_create_groups (d d1 : Device) (o : option N) :
  dev_group_create d = (o, d1) ->
  dev_groups d1 = match o with Some gh => <[gh := []]> (dev_groups d) | None => dev_groups d end.
Proof.
  unfold dev_group_create, dev_tick. destruct (dev_ok d); intros H; inversion H; reflexivity.
Qed.

Lemma dev_group_delete_groups (gh h : N) (d d1 : Device) (b : bool) :
  dev_group_delete gh d = (b, d1) -> h <> gh -> dev_groups d1 !! h = dev_groups d !! h.
Proof.
  unfold dev_group_delete, dev_tick. intros H Hne.
  destruct (dev_ok d); inversion H; subst; simpl; [apply lookup_delete_ne; congruence|reflexivity].
Qed.

Lemma dev_group_delete_fail (gh : N) (d d1 : Device) :
  dev_group_delete gh d = (false, d1) -> dev_groups d1 = dev_groups d.
Proof.
  unfold dev_group_delete, dev_tick. intros H.
  destruct (dev_ok d); inversion H; reflexivity.
Qed.

Lemma handles_kept (s s' : Manual) (d d' : Device) (gid : Id) (gm : ActionProfGroupMembership) :
  manual_inv s d -> manual_inv s' d' -> member_prefix (member_map s) (member_map s') ->
  group_members s !! gid = Some gm -> group_members s' !! gid = Some gm ->
  group_handles (member_map s') (members gm) = group_handles (member_map s) (members gm).
Proof.
  intros Hi Hi' Hp Hg Hg'.
  apply (group_handles_prefix _ _ (group_members s) (group_members s')); [exact Hp| exact (proj2 (proj2 (proj2 Hi))) | exact (proj2 (proj2 (proj2 Hi'))) |].
  intros m b Hin. split; [exact (stored_weights _ _ _ _ _ _ Hi Hg Hin)|].
  exact (stored_weights _ _ _ _ _ _ Hi' Hg' Hin).
Qed.

Lemma create_step (s : Manual) (g : GroupMsg) (d : Device) :
  manual_inv s d -> ActionProfBiMap.bijective (group_bimap s) -> groups_programmed s d ->
  g_critical (group_create s g d) = false ->
  groups_programmed (g_state (group_create s g d)) (g_dev (group_create s g d)).
Proof.
  intros Hinv Hb Hp Hcr.
  pose proof (proj1 (OpProofs.run_group_op_inv s (GroupCreate g) d Hinv Hcr)) as Hinv'.
  pose proof (op_member_prefix s (GroupCreate g) d Hinv Hcr) as Hpre.
  simpl in Hinv', Hpre. revert Hcr Hinv' Hpre.
  unfold group_create.
  destruct (ActionProfBiMap.retrieve_handle _ _) as [gh0|] eqn:Er; [intros; exact Hp|].
  destruct (validate_membership _ _) as [st|des] eqn:Ev; [intros; exact Hp|].
  destruct (ValidateProofs.validate_ok _ _ _ Ev) as [Hod Hpd].
  destruct (dev_group_create d) as [[gh|] d1] eqn:Eg.
  2: { simpl. intros _ _ _ gid gm h Hg Hh.
       rewrite (dev_group_create_groups _ _ _ Eg). exact (Hp _ _ _ Hg Hh). }
  destruct (DevNextProofs.group_create_some _ _ _ Eg) as [Hgh _].
  pose proof (dev_group_create_groups _ _ _ Eg) as Hd1.
  destruct (IS_ERROR _) eqn:Ee.
  - simpl. intros _ _ _ gid gm h Hg Hh.
    assert (Hlt := bij_handle_lt _ _ _ _ Hinv Hb Hh).
    destruct (dev_group_delete gh _) as [b d2] eqn:Ed. simpl.
    rewrite (dev_group_delete_groups _ _ _ _ _ Ed) by lia.
    destruct (decide (o_status (group_update_members (member_map s) gh [] des d1) = OK)) as [Hok|Hok].
    { rewrite Hok in Ee. discriminate. }
    rewrite (gum_error_groups _ _ _ _ _ Hok), Hd1, lookup_insert_ne by lia.
    exact (Hp _ _ _ Hg Hh).
  - apply OpProofs.is_error_ok in Ee. simpl. intros Hcr Hinv' Hpre gid gm h Hg Hh.
    unfold ActionProfBiMap.retrieve_handle in Er.
    assert (H21 : ActionProfBiMap.map_2_1 (group_bimap s) !! gh = None).
    { destruct (ActionProfBiMap.map_2_1 (group_bimap s) !! gh) as [g0|] eqn:E; [|reflexivity].
      destruct Hinv as (_ & _ & H3 & _). apply H3 in E. lia. }
    unfold ActionProfBiMap.add in Hh, Hinv'. simpl in Hg, Hh, Hinv'. rewrite Er, H21 in Hh, Hinv'.
    simpl in Hh, Hinv'.
    destruct (decide (gid = group_id g)) as [->|Hne].
    + rewrite lookup_insert_eq in Hg. rewrite lookup_insert_eq in Hh. injection Hg as <-. injection Hh as <-.
      apply (GroupSetProofs.gum_group_set _ _ _ _ _ OpProofs.ordered_nil Hod
               OpProofs.positive_nil Hpd); [|exact Ee|exact Hcr].
      intros m ms a b _ Ha. discriminate.
    + rewrite lookup_insert_ne in Hg by congruence. rewrite lookup_insert_ne in Hh by congruence.
      assert (Hlt := bij_handle_lt _ _ _ _ Hinv Hb Hh).
      rewrite FrameProofs.gum_groups_frame by lia.
      rewrite Hd1, lookup_insert_ne by lia.
      rewrite (Hp _ _ _ Hg Hh). f_equal. symmetry.
      refine (handles_kept s _ d _ gid gm Hinv Hinv' Hpre Hg _). simpl.
      rewrite lookup_insert_ne by congruence. exact Hg.
Qed.

Lemma modify_step (s : Manual) (g : GroupMsg) (d : Device) :
  manual_inv s d -> ActionProfBiMap.bijective (group_bimap s) -> groups_programmed s d ->
  g_critical (group_modify s g d) = false ->
  groups_programmed (g_state (group_modify s g d)) (g_dev (group_modify s g d)).
Proof.
  intros Hinv Hb Hp Hcr.
  pose proof (proj1 (OpProofs.run_group_op_inv s (GroupModify g) d Hinv Hcr)) as Hinv'.
  pose proof (op_member_prefix s (GroupModify g) d Hinv Hcr) as Hpre.
  simpl in Hinv', Hpre. revert Hcr Hinv' Hpre.
  unfold group_modify.
  destruct (ActionProfBiMap.retrieve_handle _ _) as [gh0|] eqn:Er; [|intros; exact Hp].
  destruct (group_members s !! group_id g) as [gm0|] eqn:Eg0; [|intros; exact Hp].
  destruct (validate_membership _ _) as [st|des] eqn:Ev; [intros; exact Hp|].
  destruct (ValidateProofs.validate_ok _ _ _ Ev) as [Hod Hpd].
  destruct (proj1 Hinv _ _ Eg0) as [Hoc Hpc].
  destruct (IS_ERROR _) eqn:Ee.
  - simpl. intros _ _ _ gid gm h Hg Hh.
    destruct (decide (o_status (group_update_members (member_map s) gh0 (members gm0) des d) = OK))
      as [Hok|Hok]; [rewrite Hok in Ee; discriminate|].
    rewrite (gum_error_groups _ _ _ _ _ Hok). exact (Hp _ _ _ Hg Hh).
  - apply OpProofs.is_error_ok in Ee. simpl. intros Hcr Hinv' Hpre gid gm h Hg Hh.
    simpl in Hg, Hh. unfold ActionProfBiMap.retrieve_handle in Er.
    destruct (decide (gid = group_id g)) as [->|Hne].
    + rewrite lookup_insert_eq in Hg. injection Hg as <-.
      rewrite Er in Hh. injection Hh as <-.
      apply (GroupSetProofs.gum_group_set _ _ _ _ _ Hoc Hod Hpc Hpd); [|exact Ee|exact Hcr].
      exact (modify_room s d (group_id g) gm0 des Hinv Eg0 Hpd).
    + rewrite lookup_insert_ne in Hg by congruence.
      assert (Hhne := bij_handle_ne _ _ _ _ _ Hb Hne Hh Er).
      rewrite FrameProofs.gum_groups_frame by exact Hhne.
      rewrite (Hp _ _ _ Hg Hh). f_equal. symmetry.
      refine (handles_kept s _ d _ gid gm Hinv Hinv' Hpre Hg _). simpl.
      rewrite lookup_insert_ne by congruence. exact Hg.
Qed.

Lemma delete_step (s : Manual) (gid0 : Id) (d : Device) :
  manual_inv s d -> ActionProfBiMap.bijective (group_bimap s) -> groups_programmed s d ->
  g_critical (group_delete s gid0 d) = false ->
  groups_programmed (g_state (group_delete s gid0 d)) (g_dev (group_delete s gid0 d)).
Proof.
  intros Hinv Hb Hp Hcr.
  pose proof (proj1 (OpProofs.run_group_op_inv s (GroupDelete gid0) d Hinv Hcr)) as Hinv'.
  pose proof (op_member_prefix s (GroupDelete gid0) d Hinv Hcr) as Hpre.
  simpl in Hinv', Hpre. revert Hcr Hinv' Hpre.
  unfold group_delete.
  destruct (ActionProfBiMap.retrieve_handle _ _) as [gh0|] eqn:Er; [|intros; exact Hp].
  destruct (group_members s !! gid0) as [gm0|] eqn:Eg0; [|intros; exact Hp].
  destruct (proj1 Hinv _ _ Eg0) as [Hoc Hpc].
  unfold ActionProfBiMap.retrieve_handle in Er.
  destruct (IS_ERROR _) eqn:Ee.
  - simpl. intros _ _ _ gid gm h Hg Hh.
    destruct (decide (o_status (group_update_members (member_map s) gh0 (members gm0) [] d) = OK))
      as [Hok|Hok]; [rewrite Hok in Ee; discriminate|].
    rewrite (gum_error_groups _ _ _ _ _ Hok). exact (Hp _ _ _ Hg Hh).
  - apply OpProofs.is_error_ok in Ee.
    destruct (dev_group_delete gh0 _) as [[|] d1] eqn:Ed; simpl;
      intros Hcr Hinv' Hpre gid gm h Hg Hh; simpl in Hg, Hh.
    + unfold ActionProfBiMap.remove in Hh. rewrite Er in Hh. simpl in Hh.
      destruct (decide (gid = gid0)) as [->|Hne].
      { rewrite lookup_delete_eq in Hg. discriminate. }
      rewrite lookup_delete_ne in Hg by congruence.
      rewrite lookup_delete_ne in Hh by congruence.
      assert (Hhne := bij_handle_ne _ _ _ _ _ Hb Hne Hh Er).
      rewrite (dev_group_delete_groups _ _ _ _ _ Ed) by exact Hhne.
      rewrite FrameProofs.gum_groups_frame by exact Hhne.
      rewrite (Hp _ _ _ Hg Hh). f_equal. symmetry.
      refine (handles_kept s _ d _ gid gm Hinv Hinv' Hpre Hg _). simpl.
      rewrite lookup_delete_ne by congruence. exact Hg.
    + rewrite (dev_group_delete_fail _ _ _ Ed).
      destruct (decide (gid = gid0)) as [->|Hne].
      * rewrite lookup_insert_eq in Hg. injection Hg as <-.
        rewrite Er in Hh. injection Hh as <-.
        apply (GroupSetProofs.gum_group_set _ _ _ _ _ Hoc OpProofs.ordered_nil Hpc
                 OpProofs.positive_nil); [|exact Ee|exact Hcr].
        intros m ms a b _ _ Hb'. discriminate.
      * rewrite lookup_insert_ne in Hg by congruence.
        assert (Hhne := bij_handle_ne _ _ _ _ _ Hb Hne Hh Er).
        rewrite FrameProofs.gum_groups_frame by exact Hhne.
        rewrite (Hp _ _ _ Hg Hh). f_equal. symmetry.
        refine (handles_kept s _ d _ gid gm Hinv Hinv' Hpre Hg _). simpl.
        rewrite lookup_insert_ne by congruence. exact Hg.
Qed.

Lemma op_step (s : Manual) (o : GroupOp) (d : Device) :
  manual_inv s d -> ActionProfBiMap.bijective (group_bimap s) -> groups_programmed s d ->
  g_critical (run_group_op s o d) = false ->
  groups_programmed (g_state (run_group_op s o d)) (g_dev (run_group_op s o d)).
Proof.
  destruct o as [g|g|gid]; simpl; [apply create_step|apply modify_step|apply delete_step].
Qed.

Lemma run_step (s : Manual) (os : list GroupOp) (d : Device) :
  manual_inv s d -> ActionProfBiMap.bijective (group_bimap s) -> groups_programmed s d ->
  (run_group_ops s os d false).2 = false ->
  groups_programmed (run_group_ops s os d false).1.1 (run_group_ops s os d false).1.2.
Proof.
  revert s d. induction os as [|o os IH]; intros s d Hinv Hb Hp; simpl; [intros _; exact Hp|].
  destruct (g_critical (run_group_op s o d)) eqn:Ec; simpl.
  - rewrite OpProofs.run_group_ops_crit. discriminate.
  - apply IH.
    + exact (proj1 (OpProofs.run_group_op_inv s o d Hinv Ec)).
    + apply op_bijective, Hb.
    + apply op_step; assumption.
Qed.

End StepProgProofs.

(** X12: with group memberships programmed by the one
    [SET_MEMBERSHIP] call, from a store whose members have no replicas
    and with no groups, after any sequence of group create/modify/delete
    operations none of which issued a critical report (whatever each
    one's outcome), every stored group's device group holds exactly the
    replica handles the store assigns to its members: for each member the
    first [weight] of its replicas, in membership order. *)
Theorem groups_programmed_run (mm : MemberMap) (os : list GroupOp) (d : Device) :
  map_Forall (fun _ ms => handles ms = [] /\ weight_counts ms = ∅) mm ->
  let r := run_group_ops (mkManual mm ActionProfBiMap.empty_map ∅) os d false in
  r.2 = false ->
  forall gid gm gh, group_members r.1.1 !! gid = Some gm ->
    retrieve_group_handle r.1.1 gid = Some gh ->
    dev_groups r.1.2 !! gh = Some (group_handles (member_map r.1.1) (members gm)).
Proof.
  intros Hmm r Hc. apply StepProgProofs.run_step; [| |intros ? ? ? Hg; discriminate|exact Hc].
  - apply OpProofs.manual_inv_init, Hmm.
  - apply BiMapProofs.bijective_empty.
Qed.

Lemma groups_programmed_run_witness :
  let A := mkActionData 1 [7] in
  let mm : MemberMap := <[1%N := mkMemberState A [] ∅]> (<[2%N := mkMemberState A [] ∅]> ∅) in
  let d := mkDevice 100 0 (fun _ => false) ∅ ∅ in
  let os := [GroupCreate (mkGroupMsg 10 4 [(2%N, mkMembershipInfo 3 invalid_watch);
                                           (1%N, mkMembershipInfo 2 invalid_watch)]);
             GroupCreate (mkGroupMsg 11 4 [(2%N, mkMembershipInfo 1 invalid_watch)]);
             GroupModify (mkGroupMsg 10 4 [(1%N, mkMembershipInfo 1 invalid_watch)]);
             GroupDelete 11%N] in
  let gm := mkGroupMembership [(1%N, mkMembershipInfo 1 invalid_watch)] 4 in
  let r := run_group_ops (mkManual mm ActionProfBiMap.empty_map ∅) os d false in
  map_Forall (fun _ ms => handles ms = [] /\ weight_counts ms = ∅) mm /\
  r.2 = false /\ group_members r.1.1 !! 10%N = Some gm /\
  retrieve_group_handle r.1.1 10%N = Some 100%N /\
  dev_groups r.1.2 !! 100%N = Some (group_handles (member_map r.1.1) (members gm)).
Proof.
  intros A mm d os gm r.
  assert (Hmm : map_Forall (fun _ ms => handles ms = [] /\ weight_counts ms = ∅) mm).
  { apply (bool_decide_unpack _). vm_compute. reflexivity. }
  assert (Hc : r.2 = false) by (vm_compute; reflexivity).
  assert (Hg : group_members r.1.1 !! 10%N = Some gm) by (vm_compute; reflexivity).
  assert (Hh : retrieve_group_handle r.1.1 10%N = Some 100%N) by (vm_compute; reflexivity).
  split; [exact Hmm|]. split; [exact Hc|]. split; [exact Hg|]. split; [exact Hh|].
  exact (groups_programmed_run mm os d Hmm Hc 10%N gm 100%N Hg Hh).
Defined.
